(** * FlowState: the indoor air-quality simulation and the fan optimizer

    A shallow embedding of [backend/simulation.js] and [backend/optimizer.js],
    and of what computes in [backend/standards.js], [backend/airquality.js],
    [backend/server.js] and [frontend/sim.js].

    Numbers.  A JavaScript number is modelled as a real number: the
    arithmetic of the source is read as exact arithmetic, so the rounding and
    the overflow of binary64 are outside the model.  The non-finite numbers
    are not real numbers: a division whose divisor is zero ([fdiv]) and a read
    that yields [undefined] have no value here, and every function that can
    meet one returns [option]; [None] stands for a run that raises a
    [TypeError] or that carries [NaN] or an infinity.  Whenever a function of
    this file returns [Some r], the source computes [r], up to rounding and
    as long as no intermediate result of the binary64 run overflows.  The
    overflow is real: a fan at [x = 1e308] in a room of width 1 has the grid
    position [Infinity] in the source and a finite one here.  The statements
    that promise a result for every input are therefore made for the inputs
    of moderate size ([moderate], below), on which every intermediate result
    of the source is finite.
    Real numbers do not compute: the functions are evaluated on concrete
    inputs by proof, through the lemmas on the loops.

    Values that the source tests with [Number.isFinite] can be anything a
    caller sends, and are modelled by [jsnum].  Coordinates are used
    unguarded ([f.x || 0]); they are a finite number or a falsy value,
    [option R]. *)

From Stdlib Require Import String DecimalString Reals Lra Lia List ZArith Bool Zfloor.
Import ListNotations.
Local Open Scope R_scope.

(** ** JavaScript values and primitives *)

Inductive jsnum : Type :=
| JAbsent                       (* undefined, null, or a value that is no number *)
| JNaN
| JInfinity (negative : bool)
| JNum (r : R).                 (* a finite number *)

Definition Number_isFinite (v : jsnum) : bool :=
  match v with JNum _ => true | _ => false end.

(** [Number.isFinite(v) ? f(v) : d] *)
Definition ifFinite {A : Type} (v : jsnum) (f : R -> A) (d : A) : A :=
  match v with JNum r => f r | _ => d end.

(** [c || 0] on a coordinate *)
Definition orZero (c : option R) : R :=
  match c with Some r => r | None => 0 end.

(** [Array.isArray(l) ? l : []] *)
Definition orEmpty {A : Type} (l : option (list A)) : list A :=
  match l with Some l => l | None => [] end.

Notation "x <- e ;; k" := (match e with Some x => k | None => None end)
  (at level 61, e at next level, right associativity, only parsing).
Notation "' p <- e ;; k" := (match e with Some p => k | None => None end)
  (at level 61, p pattern, e at next level, right associativity, only parsing).

(** [a / b] where [b] is not a constant: no real value when [b] is zero. *)
Definition fdiv (a b : R) : option R :=
  if Req_dec_T b 0 then None else Some (a / b).

Definition Math_floor (x : R) : R := IZR (Zfloor x).

(** An array index: a number that is a non-negative integer. *)
Definition index (i : R) : option nat :=
  if Req_dec_T i (IZR (Zfloor i))
  then if (0 <=? Zfloor i)%Z then Some (Z.to_nat (Zfloor i)) else None
  else None.

(** [a[i]] for a computed index [i] *)
Definition aget {A : Type} (a : list A) (i : R) : option A :=
  n <- index i ;; nth_error a n.

(** [for (const e of l) body] and, on [seq], [for (let i = 0; i < n; i++) body] *)
Fixpoint forEach {A St : Type} (body : A -> St -> option St) (l : list A) (s : St)
  : option St :=
  match l with
  | [] => Some s
  | e :: l' => s' <- body e s ;; forEach body l' s'
  end.

Fixpoint upd {A : Type} (n : nat) (v : A) (l : list A) : list A :=
  match l, n with
  | [], _ => []
  | _ :: l', O => v :: l'
  | e :: l', S n' => e :: upd n' v l'
  end.

(** ** Fields *)

Definition Field : Type := list (list R).

Definition clamp (v a b : R) : R := Rmax a (Rmin b v).

Definition lerp (a b t : R) : R := a + (b - a) * t.

(** [a[y][x]] for loop counters [y], [x] *)
Definition get2 (a : Field) (y x : nat) : option R :=
  row <- nth_error a y ;; nth_error row x.

(** [a[y][x] = v]; the loops of the source only write inside the array.  A
    write outside would raise (no row [y]) or leave holes in the row, so it
    has no value here. *)
Definition set2 (a : Field) (y x : nat) (v : R) : option Field :=
  row <- nth_error a y ;;
  if (x <? length row)%nat then Some (upd y (upd x v row) a) else None.

(** [a[y][x] = h(a[y][x])], the shape of [+=] and of the in-place blends *)
Definition modify2 (a : Field) (y x : nat) (h : R -> R) : option Field :=
  c <- get2 a y x ;; set2 a y x (h c).

Definition sampleScalar (field : Field) (x y : R) : option R :=
  row0 <- nth_error field 0 ;;
  let rows := INR (length field) in
  let cols := INR (length row0) in
  let x := clamp x 0 (cols - 1) in
  let y := clamp y 0 (rows - 1) in
  let x0 := Math_floor x in
  let y0 := Math_floor y in
  let x1 := clamp (x0 + 1) 0 (cols - 1) in
  let y1 := clamp (y0 + 1) 0 (rows - 1) in
  let tx := x - x0 in
  let ty := y - y0 in
  r0 <- aget field y0 ;;
  r1 <- aget field y1 ;;
  v00 <- aget r0 x0 ;;
  v10 <- aget r0 x1 ;;
  v01 <- aget r1 x0 ;;
  v11 <- aget r1 x1 ;;
  let a := lerp v00 v10 tx in
  let b := lerp v01 v11 tx in
  Some (lerp a b ty).

Definition make2D (rows cols : nat) (fill : R) : Field :=
  repeat (repeat fill cols) rows.

(** ** Inputs and results *)

Record Fan : Type := mkFan
  { fan_x : option R; fan_y : option R; fan_strength : jsnum }.

Record Window : Type := mkWindow
  { win_x : option R; win_y : option R; win_w : jsnum; win_open : jsnum }.

Record Occupant : Type := mkOccupant
  { occ_x : option R; occ_y : option R; occ_intensity : jsnum }.

Record Outdoor : Type := mkOutdoor { out_co2 : jsnum; out_temp : jsnum }.

Record Input : Type := mkInput
  { in_width : jsnum;
    in_height : jsnum;
    in_fans : option (list Fan);
    in_windows : option (list Window);
    in_occupants : option (list Occupant);
    in_outdoor : option Outdoor }.

Record Cell : Type := mkCell { cell_co2 : R; cell_virus : R; cell_temp : R }.

Record Arrow : Type := mkArrow
  { arrow_x : nat; arrow_y : nat; arrow_ux : R; arrow_uy : R }.

Record Stats : Type := mkStats
  { avgCO2 : R; maxCO2 : R; avgVirus : R; maxVirus : R; avgTemp : R }.

Record Meta : Type := mkMeta
  { meta_rows : nat; meta_cols : nat; meta_co2 : R; meta_temp : R }.

Record Result : Type := mkResult
  { grid : list (list Cell); vectors : list Arrow; stats : Stats; meta : Meta }.

(** ** Constants of [simulate] *)

Definition CO2_LIMITS_outdoor : R := 420.

Definition rows : nat := 28.
Definition cols : nat := 44.

Definition STEPS : nat := 40.
Definition DIFF : R := 0.12.
Definition ADVECT : R := 0.85.
Definition FAN_STRENGTH : R := 2.8.
Definition WINDOW_FLOW : R := 2.2.
Definition VENT_PULL : R := 0.08.

Definition CO2_EMIT : R := 18.
Definition VIRUS_EMIT : R := 1.0.
Definition HEAT_EMIT : R := 0.04.

Definition outdoorVirus : R := 0.

(** [for (y = 0; y < rows; y++) for (x = 0; x < cols; x++) body] *)
Definition for_cells {St : Type} (body : nat -> nat -> St -> option St) (s : St)
  : option St :=
  forEach (fun y => forEach (fun x => body y x) (seq 0 cols)) (seq 0 rows) s.

(** [Number.isFinite(win.open) ? clamp(win.open, 0, 1) : 1.0] *)
Definition openFraction (open : jsnum) : R :=
  ifFinite open (fun o => clamp o 0 1) 1.0.

(** The wall test of [computeVelocity]: the direction of the wall nearest to
    the window centre [(wx, wy)]. *)
Definition wallDir (width height wx wy : R) : R * R :=
  let distLeft := wx in
  let distRight := width - wx in
  let distTop := wy in
  let distBottom := height - wy in
  let m := Rmin (Rmin (Rmin distLeft distRight) distTop) distBottom in
  if Req_dec_T m distLeft then (1, 0)
  else if Req_dec_T m distRight then (-1, 0)
  else if Req_dec_T m distTop then (0, 1)
  else (0, -1).

Definition Rleb (a b : R) : bool := if Rle_dec a b then true else false.
Definition Rltb (a b : R) : bool := if Rlt_dec a b then true else false.

(** ** The simulation

    The functions nested in [simulate] share its constants; here they share
    the variables of a section. *)

Section Simulation.

Variables width height : R.
Variable fans : list Fan.
Variable windows : list Window.
Variable occupants : list Occupant.
Variables outdoorCO2 outdoorTemp : R.

(** [pxToGX] and [pxToGY].  Over the reals the product is always a number;
    in the source it is [Infinity] once [px / width] exceeds about [4e306],
    which the inputs of moderate size exclude. *)
Definition pxToGX (px : R) : option R :=
  q <- fdiv px width ;; Some (q * (INR cols - 1)).

Definition pxToGY (px : R) : option R :=
  q <- fdiv px height ;; Some (q * (INR rows - 1)).

(** The body of the loop over fans in [computeVelocity]. *)
Definition fanPush (f : Fan) (v : Field * Field) : option (Field * Field) :=
  fx <- pxToGX (orZero (fan_x f)) ;;
  fy <- pxToGY (orZero (fan_y f)) ;;
  let strength := ifFinite (fan_strength f) (fun s => s) 1.0 in
  for_cells (fun y x '(vx, vy) =>
    let dx := INR x - fx in
    let dy := INR y - fy in
    let d2 := dx * dx + dy * dy + 6 in
    qx <- fdiv dx d2 ;;
    vx' <- modify2 vx y x (fun c => c + qx * FAN_STRENGTH * strength) ;;
    qy <- fdiv dy d2 ;;
    vy' <- modify2 vy y x (fun c => c + qy * FAN_STRENGTH * strength) ;;
    Some (vx', vy')) v.

(** The body of the loop over windows in [computeVelocity]. *)
Definition windowFlow (win : Window) (v : Field * Field)
  : option (Field * Field) :=
  let wx := orZero (win_x win) in
  let wy := orZero (win_y win) in
  let wOpen := openFraction (win_open win) in
  let dir := wallDir width height wx wy in
  gx <- pxToGX wx ;;
  gy <- pxToGY wy ;;
  q <- fdiv (ifFinite (win_w win) (fun w => w) 120) width ;;
  let half := q * (INR cols - 1) * 0.5 in
  for_cells (fun y x '(vx, vy) =>
    let dx := INR x - gx in
    let dy := INR y - gy in
    let band := Rleb (Rabs dx) half && Rleb (Rabs dy) 2.2 in
    if negb band then Some (vx, vy)
    else
      vx' <- modify2 vx y x (fun c => c + fst dir * WINDOW_FLOW * wOpen) ;;
      vy' <- modify2 vy y x (fun c => c + snd dir * WINDOW_FLOW * wOpen) ;;
      Some (vx', vy')) v.

Definition computeVelocity : option (Field * Field) :=
  let vx := make2D rows cols 0 in
  let vy := make2D rows cols 0 in
  v <- forEach fanPush fans (vx, vy) ;;
  forEach windowFlow windows v.

Definition diffuse (field : Field) : option Field :=
  let out := make2D rows cols 0 in
  for_cells (fun y x out =>
    c <- get2 field y x ;;
    rup <- aget field (clamp (INR y - 1) 0 (INR rows - 1)) ;;
    up <- nth_error rup x ;;
    rdn <- aget field (clamp (INR y + 1) 0 (INR rows - 1)) ;;
    dn <- nth_error rdn x ;;
    row <- nth_error field y ;;
    lf <- aget row (clamp (INR x - 1) 0 (INR cols - 1)) ;;
    rt <- aget row (clamp (INR x + 1) 0 (INR cols - 1)) ;;
    let avgN := (up + dn + lf + rt) * 0.25 in
    set2 out y x (lerp c avgN DIFF)) out.

Definition advect (field vx vy : Field) : option Field :=
  let out := make2D rows cols 0 in
  for_cells (fun y x out =>
    ux <- get2 vx y x ;;
    uy <- get2 vy y x ;;
    let backX := INR x - ux * ADVECT in
    let backY := INR y - uy * ADVECT in
    v <- sampleScalar field backX backY ;;
    set2 out y x v) out.

(** The body of the loop over occupants in [applyOccupants]. *)
Definition occupantEmit (p : Occupant) (s : Field * Field * Field)
  : option (Field * Field * Field) :=
  px <- pxToGX (orZero (occ_x p)) ;;
  py <- pxToGY (orZero (occ_y p)) ;;
  let intensity := ifFinite (occ_intensity p) (fun i => clamp i 0.2 3.0) 1.0 in
  for_cells (fun y x '(co2F, virusF, tempF) =>
    let dx := INR x - px in
    let dy := INR y - py in
    let d2 := dx * dx + dy * dy in
    let w := exp (- d2 / 10) in
    co2F' <- modify2 co2F y x (fun c => c + CO2_EMIT * intensity * w) ;;
    virusF' <- modify2 virusF y x (fun c => c + VIRUS_EMIT * intensity * w) ;;
    tempF' <- modify2 tempF y x (fun c => c + HEAT_EMIT * intensity * w) ;;
    Some (co2F', virusF', tempF')) s.

Definition applyOccupants (s : Field * Field * Field)
  : option (Field * Field * Field) :=
  forEach occupantEmit occupants s.

(** The body of the loop over windows in [applyVentilation]. *)
Definition windowSink (win : Window) (s : Field * Field * Field)
  : option (Field * Field * Field) :=
  gx <- pxToGX (orZero (win_x win)) ;;
  gy <- pxToGY (orZero (win_y win)) ;;
  let wOpen := openFraction (win_open win) in
  q <- fdiv (ifFinite (win_w win) (fun w => w) 120) width ;;
  let half := q * (INR cols - 1) * 0.5 in
  for_cells (fun y x '(co2F, virusF, tempF) =>
    let dx := INR x - gx in
    let dy := INR y - gy in
    let band := Rleb (Rabs dx) half && Rleb (Rabs dy) 2.8 in
    if negb band then Some (co2F, virusF, tempF)
    else
      let k := VENT_PULL * wOpen in
      co2F' <- modify2 co2F y x (fun c => lerp c outdoorCO2 k) ;;
      virusF' <- modify2 virusF y x (fun c => lerp c outdoorVirus k) ;;
      tempF' <- modify2 tempF y x (fun c => lerp c outdoorTemp (k * 0.8)) ;;
      Some (co2F', virusF', tempF')) s.

Definition applyVentilation (s : Field * Field * Field)
  : option (Field * Field * Field) :=
  forEach windowSink windows s.

(** The clamping loop that closes a timestep. *)
Definition clampFields (s : Field * Field * Field)
  : option (Field * Field * Field) :=
  for_cells (fun y x '(co2, virus, temp) =>
    co2' <- modify2 co2 y x (fun c => clamp c outdoorCO2 5000) ;;
    virus' <- modify2 virus y x (fun c => clamp c 0 1000) ;;
    temp' <- modify2 temp y x (fun c => clamp c (-10) 40) ;;
    Some (co2', virus', temp')) s.

(** One timestep: the body of [for (let t = 0; t < STEPS; t++)].  The state
    is [lastV] and the three fields. *)
Definition timestep (t : nat) (st : (Field * Field) * (Field * Field * Field))
  : option ((Field * Field) * (Field * Field * Field)) :=
  let '(_, (co2, virus, temp)) := st in
  lastV <- computeVelocity ;;
  co2 <- advect co2 (fst lastV) (snd lastV) ;;
  virus <- advect virus (fst lastV) (snd lastV) ;;
  temp <- advect temp (fst lastV) (snd lastV) ;;
  co2 <- diffuse co2 ;;
  virus <- diffuse virus ;;
  temp <- diffuse temp ;;
  s <- applyOccupants (co2, virus, temp) ;;
  s <- applyVentilation s ;;
  s <- clampFields s ;;
  Some (lastV, s).

(** The state of the simulation after [n] timesteps. *)
Definition runSteps (n : nat) : option ((Field * Field) * (Field * Field * Field)) :=
  let co2 := make2D rows cols (outdoorCO2 + 600) in
  let virus := make2D rows cols 0.0 in
  let temp := make2D rows cols 21.0 in
  lastV <- computeVelocity ;;
  forEach timestep (seq 0 n) (lastV, (co2, virus, temp)).

(** The accumulators of the packing loop. *)
Record Sums : Type := mkSums
  { sumCO2 : R; accMaxCO2 : R; sumV : R; accMaxV : R; sumT : R }.

Definition packCell (co2 virus temp : Field) (y x : nat)
           (st : list Cell * Sums) : option (list Cell * Sums) :=
  let '(row, a) := st in
  c <- get2 co2 y x ;;
  v <- get2 virus y x ;;
  tp <- get2 temp y x ;;
  let sumCO2 := sumCO2 a + c in
  let sumV := sumV a + v in
  let sumT := sumT a + tp in
  let maxCO2 := if Rltb (accMaxCO2 a) c then c else accMaxCO2 a in
  let maxV := if Rltb (accMaxV a) v then v else accMaxV a in
  Some (row ++ [mkCell c v tp], mkSums sumCO2 maxCO2 sumV maxV sumT).

Definition packRow (co2 virus temp : Field) (y : nat)
           (st : list (list Cell) * Sums) : option (list (list Cell) * Sums) :=
  let '(grid, a) := st in
  '(row, a) <- forEach (packCell co2 virus temp y) (seq 0 cols) ([], a) ;;
  Some (grid ++ [row], a).

Definition pack (co2 virus temp : Field) : option (list (list Cell) * Sums) :=
  forEach (packRow co2 virus temp) (seq 0 rows) ([], mkSums 0 0 0 0 0).

(** [for (i = 0; i < n; i += step)] *)
Definition strided (n step : nat) : list nat :=
  map (fun k => (k * step)%nat) (seq 0 ((n + step - 1) / step)).

Definition sampleArrows (lastV : Field * Field) : option (list Arrow) :=
  let step := 4%nat in
  forEach (fun y => forEach (fun x vectors =>
    ux <- get2 (fst lastV) y x ;;
    uy <- get2 (snd lastV) y x ;;
    Some (vectors ++ [mkArrow x y ux uy])) (strided cols step))
    (strided rows step) [].

Definition simulateWith : option Result :=
  '(lastV, (co2, virus, temp)) <- runSteps STEPS ;;
  '(grid, a) <- pack co2 virus temp ;;
  vectors <- sampleArrows lastV ;;
  let cells := INR (rows * cols) in
  Some (mkResult grid vectors
          (mkStats (sumCO2 a / cells) (accMaxCO2 a)
                   (sumV a / cells) (accMaxV a)
                   (sumT a / cells))
          (mkMeta rows cols outdoorCO2 outdoorTemp)).

End Simulation.

Definition simulate (input : Input) : option Result :=
  let width := ifFinite (in_width input) (fun w => w) 800 in
  let height := ifFinite (in_height input) (fun h => h) 500 in
  let fans := orEmpty (in_fans input) in
  let windows := orEmpty (in_windows input) in
  let occupants := orEmpty (in_occupants input) in
  let outdoor :=
    match in_outdoor input with Some o => o | None => mkOutdoor JAbsent JAbsent end in
  let outdoorCO2 := ifFinite (out_co2 outdoor) (fun c => c) CO2_LIMITS_outdoor in
  let outdoorTemp := ifFinite (out_temp outdoor) (fun t => t) 10 in
  simulateWith width height fans windows occupants outdoorCO2 outdoorTemp.

(** ** The optimizer *)

Definition TRIES : nat := 80.

(** [Number(x.toFixed(3))]: the nearest multiple of 1/1000, the larger one
    (in magnitude) when two are as near. *)
Definition toFixed3 (x : R) : R :=
  if Rlt_dec x 0
  then - (IZR (Zfloor (- x * 1000 + 1 / 2)) / 1000)
  else IZR (Zfloor (x * 1000 + 1 / 2)) / 1000.

(** [bestScore] starts at [Infinity], written [None]; [bestStats] starts at
    [null], written [None]. *)
Record Best : Type := mkBest
  { bestFan : Fan; bestScore : option R; bestStats : option Stats }.

Record OptResult : Type := mkOptResult
  { opt_bestFan : Fan; opt_score : option R; opt_stats : option Stats }.

(** The objective of one trial.  The statistics of a result are numbers, so
    [s.avgTemp ?? 21] is [s.avgTemp].  The score is read over the reals: in
    the source it is [Infinity] when the sum of the CO2 overflows (an outdoor
    CO2 of about [1.5e305] and more), which the inputs of moderate size
    exclude. *)
Definition scoreOf (s : Stats) : R :=
  let heatPenalty := Rabs (avgTemp s - 21) in
  (avgCO2 s / 1200) * 1.0 +
  (maxCO2 s / 2500) * 0.6 +
  (avgVirus s / 8) * 1.2 +
  (maxVirus s / 25) * 0.9 +
  heatPenalty * 0.15.

(** [score < bestScore] *)
Definition belowBest (score : R) (bestScore : option R) : bool :=
  match bestScore with
  | None => true
  | Some b => Rltb score b
  end.

Section Optimizer.

(** [random n] is what the [n]-th call of [Math.random()] returns; trial [i]
    makes the calls [2 i] (for [x]) and [2 i + 1] (for [y]). *)
Variable random : nat -> R.

Variables width height : R.
Variable windows : list Window.
Variable occupants : list Occupant.
Variable outdoor : Outdoor.

Definition trialFan (i : nat) : Fan :=
  mkFan (Some (random (2 * i) * width)) (Some (random (2 * i + 1) * height))
        (JNum 1.0).

Definition trialInput (fan : Fan) : Input :=
  mkInput (JNum width) (JNum height) (Some [fan]) (Some windows)
          (Some occupants) (Some outdoor).

(** The body of [for (let i = 0; i < TRIES; i++)]. *)
Definition trial (i : nat) (b : Best) : option Best :=
  let fan := trialFan i in
  result <- simulate (trialInput fan) ;;
  let s := stats result in
  let score := scoreOf s in
  if belowBest score (bestScore b)
  then Some (mkBest fan (Some score) (Some s))
  else Some b.

Definition searchFan (n : nat) : option Best :=
  let best := mkFan (Some (width / 2)) (Some (height / 2)) (JNum 1.0) in
  forEach trial (seq 0 n) (mkBest best None None).

End Optimizer.

Definition optimizeFan (random : nat -> R) (input : Input) : option OptResult :=
  let width := ifFinite (in_width input) (fun w => w) 800 in
  let height := ifFinite (in_height input) (fun h => h) 500 in
  let windows := orEmpty (in_windows input) in
  let occupants := orEmpty (in_occupants input) in
  let outdoor :=
    match in_outdoor input with Some o => o | None => mkOutdoor JAbsent JAbsent end in
  b <- searchFan random width height windows occupants outdoor TRIES ;;
  Some (mkOptResult (bestFan b) (option_map toFixed3 (bestScore b)) (bestStats b)).

(** ** Fields as functions on the grid

    [reps a g]: the array [a] has [rows] rows of [cols] numbers and holds
    [g y x] at row [y], column [x]. *)

Definition reps (a : Field) (g : nat -> nat -> R) : Prop :=
  length a = rows /\
  (forall row, In row a -> length row = cols) /\
  (forall y x, (y < rows)%nat -> (x < cols)%nat -> get2 a y x = Some (g y x)).

(** The contents of a field while a loop over the cells has done its first
    [k] cells, in row-major order. *)
Definition upto (k : nat) (new old : nat -> nat -> R) : nat -> nat -> R :=
  fun y x => if (y * cols + x <? k)%nat then new y x else old y x.

(** ** What each loop does to one cell

    The loops of [simulate] read as functions of the cell [(y, x)].  The
    lemmas on the loops say that, on a room of non-zero width and height, the
    loops compute these functions. *)

Section CellEffects.

Variables width height : R.

Definition gridX (px : R) : R := px / width * (INR cols - 1).
Definition gridY (px : R) : R := px / height * (INR rows - 1).

(** What one fan adds to the velocity at a cell. *)
Definition fanVelocity (f : Fan) (y x : nat) : R * R :=
  let dx := INR x - gridX (orZero (fan_x f)) in
  let dy := INR y - gridY (orZero (fan_y f)) in
  let d2 := dx * dx + dy * dy + 6 in
  let strength := ifFinite (fan_strength f) (fun s => s) 1.0 in
  (dx / d2 * FAN_STRENGTH * strength, dy / d2 * FAN_STRENGTH * strength).

Definition halfWidth (win : Window) : R :=
  ifFinite (win_w win) (fun w => w) 120 / width * (INR cols - 1) * 0.5.

(** The band of a window with a given half height: the test [band] of
    [computeVelocity] (half height 2.2) and of [applyVentilation] (2.8). *)
Definition inBand (halfHeight : R) (win : Window) (y x : nat) : bool :=
  Rleb (Rabs (INR x - gridX (orZero (win_x win)))) (halfWidth win) &&
  Rleb (Rabs (INR y - gridY (orZero (win_y win)))) halfHeight.

(** What one window adds to the velocity at a cell. *)
Definition windowVelocity (win : Window) (y x : nat) : R * R :=
  let dir := wallDir width height (orZero (win_x win)) (orZero (win_y win)) in
  let wOpen := openFraction (win_open win) in
  if inBand 2.2 win y x
  then (fst dir * WINDOW_FLOW * wOpen, snd dir * WINDOW_FLOW * wOpen)
  else (0, 0).

Definition velocityX (fans : list Fan) (windows : list Window) (y x : nat) : R :=
  fold_left (fun acc win => acc + fst (windowVelocity win y x)) windows
    (fold_left (fun acc f => acc + fst (fanVelocity f y x)) fans 0).

Definition velocityY (fans : list Fan) (windows : list Window) (y x : nat) : R :=
  fold_left (fun acc win => acc + snd (windowVelocity win y x)) windows
    (fold_left (fun acc f => acc + snd (fanVelocity f y x)) fans 0).

End CellEffects.

(** [sampleScalar] on a field of [nr] rows and [nc] columns that holds [g]. *)
Definition bilinearOn (nr nc : nat) (g : nat -> nat -> R) (x y : R) : R :=
  let x := clamp x 0 (INR nc - 1) in
  let y := clamp y 0 (INR nr - 1) in
  let x0 := Z.to_nat (Zfloor x) in
  let y0 := Z.to_nat (Zfloor y) in
  let x1 := Nat.min (S x0) (nc - 1) in
  let y1 := Nat.min (S y0) (nr - 1) in
  let tx := x - INR x0 in
  let ty := y - INR y0 in
  lerp (lerp (g y0 x0) (g y0 x1) tx) (lerp (g y1 x0) (g y1 x1) tx) ty.

Definition bilinear : (nat -> nat -> R) -> R -> R -> R := bilinearOn rows cols.

(** A field whose rows all have the length of the first one. *)
Definition rectangular (a : Field) : Prop :=
  forall row, In row a -> length row = length (hd [] a).

(** [advect] at one cell, for a field [g] and a velocity [(ux, uy)]. *)
Definition advectAt (g ux uy : nat -> nat -> R) (y x : nat) : R :=
  bilinear g (INR x - ux y x * ADVECT) (INR y - uy y x * ADVECT).

(** [diffuse] at one cell. *)
Definition diffuseAt (g : nat -> nat -> R) (y x : nat) : R :=
  let c := g y x in
  let up := g (Nat.pred y) x in
  let dn := g (Nat.min (S y) (rows - 1)) x in
  let lf := g y (Nat.pred x) in
  let rt := g y (Nat.min (S x) (cols - 1)) in
  let avgN := (up + dn + lf + rt) * 0.25 in
  lerp c avgN DIFF.

Section Sources.

Variables width height : R.

Definition intensityOf (p : Occupant) : R :=
  ifFinite (occ_intensity p) (fun i => clamp i 0.2 3.0) 1.0.

(** The Gaussian weight of an occupant at a cell. *)
Definition occupantWeight (p : Occupant) (y x : nat) : R :=
  let dx := INR x - gridX width (orZero (occ_x p)) in
  let dy := INR y - gridY height (orZero (occ_y p)) in
  let d2 := dx * dx + dy * dy in
  exp (- d2 / 10).

(** [applyOccupants] on one field, whose emission constant is [emit]. *)
Definition emitAt (emit : R) (occupants : list Occupant) (g : nat -> nat -> R)
           (y x : nat) : R :=
  fold_left (fun acc p => acc + emit * intensityOf p * occupantWeight p y x)
            occupants (g y x).

(** The blend factor [k] of a window in [applyVentilation]. *)
Definition ventFactor (win : Window) : R :=
  VENT_PULL * openFraction (win_open win).

(** [applyVentilation] on one field, pulled to [target] by [factor win]. *)
Definition sinkAt (target : R) (factor : Window -> R) (windows : list Window)
           (g : nat -> nat -> R) (y x : nat) : R :=
  fold_left (fun acc win =>
               if inBand width height 2.8 win y x
               then lerp acc target (factor win) else acc)
            windows (g y x).

Variable fans : list Fan.
Variable windows : list Window.
Variable occupants : list Occupant.

(** One timestep on one field. *)
Definition evolve (emit target : R) (factor : Window -> R) (lo hi : R)
           (g : nat -> nat -> R) : nat -> nat -> R :=
  let ux := velocityX width height fans windows in
  let uy := velocityY width height fans windows in
  let g1 := advectAt g ux uy in
  let g2 := diffuseAt g1 in
  let g3 := emitAt emit occupants g2 in
  let g4 := sinkAt target factor windows g3 in
  fun y x => clamp (g4 y x) lo hi.

Variables outdoorCO2 outdoorTemp : R.

Definition co2After (n : nat) : nat -> nat -> R :=
  Nat.iter n (evolve CO2_EMIT outdoorCO2 ventFactor outdoorCO2 5000)
           (fun _ _ => outdoorCO2 + 600).

Definition virusAfter (n : nat) : nat -> nat -> R :=
  Nat.iter n (evolve VIRUS_EMIT outdoorVirus ventFactor 0 1000)
           (fun _ _ => 0.0).

Definition tempAfter (n : nat) : nat -> nat -> R :=
  Nat.iter n (evolve HEAT_EMIT outdoorTemp (fun win => ventFactor win * 0.8) (-10) 40)
           (fun _ _ => 21.0).

End Sources.

(** ** The statistics as functions of the packed grid *)

(** One turn of the packing loop on the accumulators. *)
Definition addCell (a : Sums) (cell : Cell) : Sums :=
  mkSums (sumCO2 a + cell_co2 cell)
         (if Rltb (accMaxCO2 a) (cell_co2 cell) then cell_co2 cell else accMaxCO2 a)
         (sumV a + cell_virus cell)
         (if Rltb (accMaxV a) (cell_virus cell) then cell_virus cell else accMaxV a)
         (sumT a + cell_temp cell).

Definition tally (cells : list Cell) : Sums :=
  fold_left addCell cells (mkSums 0 0 0 0 0).

(** The sum of a list, taken from the left as the loop takes it. *)
Definition sumList (l : list R) : R := fold_left Rplus l 0.

(** The running maximum of the loop, which starts from 0. *)
Definition maxList (l : list R) : R :=
  fold_left (fun m c => if Rltb m c then c else m) l 0.

(** The arithmetic mean. *)
Definition mean (l : list R) : R := sumList l / INR (length l).

(** The grid that packs three fields. *)
Definition cellsOf (gc gv gt : nat -> nat -> R) : list (list Cell) :=
  map (fun y => map (fun x => mkCell (gc y x) (gv y x) (gt y x)) (seq 0 cols))
      (seq 0 rows).

(** The wall rule in the words of the specification: the nearest wall, and on
    ties the first of left, right, top, bottom. *)
Definition nearestWallDir (width height wx wy : R) : R * R :=
  let left := wx in
  let right := width - wx in
  let top := wy in
  let bottom := height - wy in
  if Rleb left right && Rleb left top && Rleb left bottom then (1, 0)
  else if Rleb right left && Rleb right top && Rleb right bottom then (-1, 0)
  else if Rleb top left && Rleb top right && Rleb top bottom then (0, 1)
  else (0, -1).

(** ** What [simulate] reads from its input *)

Definition roomWidth (input : Input) : R :=
  ifFinite (in_width input) (fun w => w) 800.

Definition roomHeight (input : Input) : R :=
  ifFinite (in_height input) (fun h => h) 500.

Definition outdoorOf (input : Input) : Outdoor :=
  match in_outdoor input with Some o => o | None => mkOutdoor JAbsent JAbsent end.

Definition outdoorCO2Of (input : Input) : R :=
  ifFinite (out_co2 (outdoorOf input)) (fun c => c) CO2_LIMITS_outdoor.

Definition outdoorTempOf (input : Input) : R :=
  ifFinite (out_temp (outdoorOf input)) (fun t => t) 10.

(** The state of [simulate input] after [n] timesteps. *)
Definition stateAfter (input : Input) (n : nat)
  : option ((Field * Field) * (Field * Field * Field)) :=
  runSteps (roomWidth input) (roomHeight input)
           (orEmpty (in_fans input)) (orEmpty (in_windows input))
           (orEmpty (in_occupants input))
           (outdoorCO2Of input) (outdoorTempOf input) n.

(** The ranges of the three quantities of a cell. *)
Definition cellInRange (outdoorCO2 : R) (cell : Cell) : Prop :=
  outdoorCO2 <= cell_co2 cell <= 5000 /\
  0 <= cell_virus cell <= 1000 /\
  -10 <= cell_temp cell <= 40.

(** The input with other dimensions. *)
Definition withSize (w h : jsnum) (input : Input) : Input :=
  mkInput w h (in_fans input) (in_windows input) (in_occupants input)
          (in_outdoor input).

(** Trial [i] of the optimizer, run on its own. *)
Definition runTrial (random : nat -> R) (width height : R) (windows : list Window)
           (occupants : list Occupant) (outdoor : Outdoor) (i : nat) : option Result :=
  simulate (trialInput width height windows occupants outdoor
                       (trialFan random width height i)).

Definition trialRun (random : nat -> R) (input : Input) (i : nat) : option Result :=
  runTrial random (roomWidth input) (roomHeight input)
           (orEmpty (in_windows input)) (orEmpty (in_occupants input))
           (outdoorOf input) i.

(** ** Further vocabulary for the fields *)

(** A field of [rows] rows of [cols] numbers. *)
Definition shaped (a : Field) : Prop :=
  length a = rows /\ forall row, In row a -> length row = cols.

(** The number at [(y, x)], 0 outside the field. *)
Definition cellOf (a : Field) (y x : nat) : R := nth x (nth y a []) 0.

(** Every number of the field lies in [lo, hi]. *)
Definition allIn (lo hi : R) (a : Field) : Prop :=
  forall row v, In row a -> In v row -> lo <= v <= hi.

(** The field that holds [g]. *)
Definition tabulate (g : nat -> nat -> R) : Field :=
  map (fun y => map (fun x => g y x) (seq 0 cols)) (seq 0 rows).

(** The arrows drawn from a velocity field: every fourth cell, row by row. *)
Definition arrowsOf (gx gy : nat -> nat -> R) : list Arrow :=
  flat_map (fun y => map (fun x => mkArrow x y (gx y x) (gy y x)) (strided cols 4))
           (strided rows 4).

(** The sum of [f 0], ..., [f (n - 1)]. *)
Fixpoint sumTo (n : nat) (f : nat -> R) : R :=
  match n with
  | O => 0
  | S k => sumTo k f + f k
  end.

(** ** The same room in another unit of length *)

Definition scaleCoord (k : R) (c : option R) : option R := option_map (Rmult k) c.

Definition scaleFan (k : R) (f : Fan) : Fan :=
  mkFan (scaleCoord k (fan_x f)) (scaleCoord k (fan_y f)) (fan_strength f).

(** The width of the scaled window is written out: a window without a width
    has the default width of 120 in the units of the original room. *)
Definition scaleWindow (k : R) (win : Window) : Window :=
  mkWindow (scaleCoord k (win_x win)) (scaleCoord k (win_y win))
           (JNum (k * ifFinite (win_w win) (fun w => w) 120)) (win_open win).

Definition scaleOccupant (k : R) (p : Occupant) : Occupant :=
  mkOccupant (scaleCoord k (occ_x p)) (scaleCoord k (occ_y p)) (occ_intensity p).

Definition scaleInput (k : R) (input : Input) : Input :=
  mkInput (JNum (k * roomWidth input)) (JNum (k * roomHeight input))
          (Some (map (scaleFan k) (orEmpty (in_fans input))))
          (Some (map (scaleWindow k) (orEmpty (in_windows input))))
          (Some (map (scaleOccupant k) (orEmpty (in_occupants input))))
          (in_outdoor input).

(** The input with other fans. *)
Definition withFans (fans : option (list Fan)) (input : Input) : Input :=
  mkInput (in_width input) (in_height input) fans (in_windows input)
          (in_occupants input) (in_outdoor input).

(** The answer of the optimizer in another unit of length. *)
Definition scaleOptResult (k : R) (r : OptResult) : OptResult :=
  mkOptResult (scaleFan k (opt_bestFan r)) (opt_score r) (opt_stats r).

(** ** The levels of CO2 ([backend/standards.js]) *)

Definition CO2_LIMITS_good : R := 800.
Definition CO2_LIMITS_moderate : R := 1200.
Definition CO2_LIMITS_poor : R := 2000.
Definition CO2_LIMITS_dangerous : R := 5000.

Record Verdict : Type := mkVerdict { level : string; color : string }.

Definition interpretCO2 (avg : R) : Verdict :=
  if Rleb avg CO2_LIMITS_good then mkVerdict "Good" "green"
  else if Rleb avg CO2_LIMITS_moderate then mkVerdict "Moderate" "yellow"
  else if Rleb avg CO2_LIMITS_poor then mkVerdict "Poor" "orange"
  else mkVerdict "Dangerous" "red".

(** ** What the server sends ([backend/server.js])

    The server answers with [JSON.stringify] of what [simulate] or
    [optimizeFan] returns, and the page reads the answer with [res.json()].
    A finite number is the same number on both sides; [Infinity], [NaN] and
    [null] all arrive as [null]. *)

#[local] Unset Elimination Schemes.

Inductive jsval : Type :=
| VNull
| VBool (b : bool)
| VNum (r : R)
| VStr (s : string)
| VArr (items : list jsval)
| VObj (props : list (string * jsval)).

#[local] Set Elimination Schemes.

(** A property [key: v] of an object. *)
Definition prop (key : string) (v : jsval) : string * jsval := (key, v).

Fixpoint lookup (key : string) (props : list (string * jsval)) : option jsval :=
  match props with
  | [] => None
  | (k, v) :: rest => if String.eqb k key then Some v else lookup key rest
  end.

(** [v.key], for a [v] that is not [null]; [None] is [undefined]. *)
Definition getProp (v : jsval) (key : string) : option jsval :=
  match v with VObj props => lookup key props | _ => None end.

(** Whether a value, or [undefined], counts as true. *)
Definition truthy (v : option jsval) : bool :=
  match v with
  | None | Some VNull => false
  | Some (VBool b) => b
  | Some (VNum r) => if Req_dec_T r 0 then false else true
  | Some (VStr s) => negb (String.eqb s "")
  | Some (VArr _) | Some (VObj _) => true
  end.

(** [Number.isFinite(v) ? v : null] *)
Definition finiteOrNull (v : option jsval) : option R :=
  match v with Some (VNum r) => Some r | _ => None end.

Definition jsnumJSON (v : jsnum) : jsval :=
  match v with JNum r => VNum r | _ => VNull end.

Definition coordJSON (c : option R) : jsval :=
  match c with Some r => VNum r | None => VNull end.

Definition cellJSON (c : Cell) : jsval :=
  VObj [prop "co2" (VNum (cell_co2 c)); prop "virus" (VNum (cell_virus c));
        prop "temp" (VNum (cell_temp c))].

Definition arrowJSON (a : Arrow) : jsval :=
  VObj [prop "x" (VNum (INR (arrow_x a))); prop "y" (VNum (INR (arrow_y a)));
        prop "ux" (VNum (arrow_ux a)); prop "uy" (VNum (arrow_uy a))].

Definition statsJSON (s : Stats) : jsval :=
  VObj [prop "avgCO2" (VNum (avgCO2 s)); prop "maxCO2" (VNum (maxCO2 s));
        prop "avgVirus" (VNum (avgVirus s)); prop "maxVirus" (VNum (maxVirus s));
        prop "avgTemp" (VNum (avgTemp s))].

(** The object that [simulate] returns. *)
Definition resultJSON (res : Result) : jsval :=
  VObj [prop "grid" (VArr (map (fun row => VArr (map cellJSON row)) (grid res)));
        prop "vectors" (VArr (map arrowJSON (vectors res)));
        prop "stats" (statsJSON (stats res));
        prop "meta" (VObj [prop "rows" (VNum (INR (meta_rows (meta res))));
                       prop "cols" (VNum (INR (meta_cols (meta res))));
                       prop "outdoor" (VObj [prop "co2" (VNum (meta_co2 (meta res)));
                                         prop "temp" (VNum (meta_temp (meta res)))])])].

Definition fanJSON (f : Fan) : jsval :=
  VObj [prop "x" (coordJSON (fan_x f)); prop "y" (coordJSON (fan_y f));
        prop "strength" (jsnumJSON (fan_strength f))].

(** The object that [optimizeFan] returns. *)
Definition optResultJSON (r : OptResult) : jsval :=
  VObj [prop "bestFan" (fanJSON (opt_bestFan r));
        prop "score" (match opt_score r with Some s => VNum s | None => VNull end);
        prop "stats" (match opt_stats r with Some s => statsJSON s | None => VNull end)].

(** ** The page ([frontend/sim.js])

    The functions of the page that compute; the canvas, the document and the
    network are not modelled.  The numbers are finite numbers; [clamp] is
    the one of [simulation.js], written the same way in both files. *)

Definition FEET_TO_UNITS : R := 25.

Definition dist (ax ay bx b_y : R) : R :=
  let dx := ax - bx in
  let dy := ay - b_y in
  sqrt (dx * dx + dy * dy).

Definition feetToUnits (ft : R) : R := ft * FEET_TO_UNITS.

Definition unitsToFeet (u : R) : R := u / FEET_TO_UNITS.

Definition colorForCO2 (v : R) : string :=
  if Rltb v 800 then "rgba(40, 200, 120, 0.92)"
  else if Rltb v 1200 then "rgba(245, 210, 80, 0.92)"
  else "rgba(245, 90, 90, 0.92)".

(** [Math.round]: the nearest integer, the larger one of two that are as
    near. *)
Definition Math_round (x : R) : Z := Zfloor (x + 1 / 2).

(** The line that [runSimulation] writes under the canvas: its wording, and
    the number it shows. *)
Inductive Recommendation : Type :=
| RunCompleted
| GoodAir (avgText : Z)
| ModerateAir (avgText : Z)
| HighCO2 (avgText : Z).

Definition recommendation (data : jsval) : Recommendation :=
  let avg := getProp data "avgCO2" in
  let avgText := option_map Math_round (finiteOrNull avg) in
  match avgText with
  | None => RunCompleted
  | Some avgText =>
      if (avgText <? 800)%Z then GoodAir avgText
      else if (avgText <? 1200)%Z then ModerateAir avgText
      else HighCO2 avgText
  end.

(** [avgCO2] in [optimize]. *)
Definition optimize_avgCO2 (data : jsval) : option R :=
  let stats := getProp data "stats" in
  match (if truthy stats
         then finiteOrNull
                (match stats with Some s => getProp s "avgCO2" | None => None end)
         else None) with
  | Some a => Some a
  | None => finiteOrNull (getProp data "avgCO2")
  end.

(** [statusLevel] in [optimize]. *)
Definition optimize_statusLevel (data : jsval) : jsval :=
  let status := getProp data "status" in
  let lvl := if truthy status
             then match status with Some s => getProp s "level" | None => None end
             else None in
  let byAverage :=
    match truthy (getProp data "stats"), optimize_avgCO2 data with
    | true, Some a =>
        VStr (if Rleb a 800 then "Good"
              else if Rleb a 1200 then "Moderate"
              else if Rleb a 2000 then "Poor" else "Dangerous")
    | _, _ => VStr "N/A"
    end in
  match lvl with
  | Some l => if truthy lvl then l else byAverage
  | None => byAverage
  end.

Record Room : Type := mkRoom { room_width : R; room_height : R }.

(** A fan of the page: [{ x, y }] when [addFan] made it, with the strength
    that the optimizer gave it when [optimize] put it there. *)
Record PageFan : Type := mkPageFan { pf_x : R; pf_y : R; pf_strength : jsnum }.

(** [createRoomFromInputs], on what the two fields hold: [None] for an empty
    field, [Some ft] for a field that reads as the number [ft]. *)
Definition createRoomFromInputs (widthValue heightValue : option R) : Room :=
  let wFt := match widthValue with Some v => v | None => 20 end in
  let hFt := match heightValue with Some v => v | None => 12 end in
  let wUnits := feetToUnits wFt in
  let hUnits := feetToUnits hFt in
  mkRoom (clamp wUnits 250 1800) (clamp hUnits 250 1100).

(** The fan that [addFan] pushes. *)
Definition addFan (room : Room) : PageFan :=
  mkPageFan (room_width room * 0.5) (room_height room * 0.5) JAbsent.

(** What the handler of [mousemove] does to the fan [f] that is dragged:
    [(mx, my)] is the mouse, [(dx, dy)] the offset taken at [mousedown]. *)
Definition dragFan (room : Room) (f : PageFan) (mx my dx dy : R) : PageFan :=
  mkPageFan (clamp (mx - dx) 15 (room_width room - 15))
            (clamp (my - dy) 15 (room_height room - 15))
            (pf_strength f).

(** [hitFan] *)
Fixpoint hitFan (fans : list PageFan) (mx my : R) : option PageFan :=
  match fans with
  | [] => None
  | f :: rest =>
      if Rleb (dist mx my (pf_x f) (pf_y f)) 14 then Some f else hitFan rest mx my
  end.

(** The body that [runSimulation] posts to [/simulate]: the room and the
    fans, and nothing else. *)
Definition runSimulation_body (room : Room) (fans : list PageFan) : Input :=
  mkInput (JNum (room_width room)) (JNum (room_height room))
          (Some (map (fun f => mkFan (Some (pf_x f)) (Some (pf_y f)) (pf_strength f))
                     fans))
          None None None.

(** The body that [optimize] posts to [/optimize]. *)
Definition optimize_body (room : Room) : Input :=
  mkInput (JNum (room_width room)) (JNum (room_height room)) None None None None.

(** ** The outdoor air ([backend/airquality.js])

    [getOutdoorAirQuality] asks Open-Meteo for five hourly series and
    reports one hour of them.  The network is a parameter: [fetch] is absent
    where the runtime has none, and what it returns for a latitude and a
    longitude is a response, or nothing when the request fails.  The address
    it is called with is not modelled. *)

Record Response : Type := mkResponse
  { res_ok : bool;
    res_status : Z;
    res_json : option jsval }.          (* [None]: the body is no JSON *)

Inductive AirError : Type :=
| InvalidLatLon                 (* "Invalid lat/lon" *)
| FetchUnavailable              (* "fetch not available. Use Node 18+." *)
| OpenMeteoFailed (status : Z)  (* "Open-Meteo failed (status)" *)
| NoData                        (* "No air-quality data returned." *)
| Rejected.                     (* [fetch] or [res.json()] rejects, a [TypeError] *)

Record Reading : Type := mkReading
  { source : string; time : jsval;
    pm25 : jsval; pm10 : jsval; no2 : jsval; o3 : jsval; co : jsval }.

(** The name of the property [i] of an object. *)
Definition keyOf (i : nat) : string := NilZero.string_of_uint (Nat.to_uint i).

(** [v?.[i]] *)
Definition optIndex (v : option jsval) (i : nat) : option jsval :=
  match v with
  | Some (VArr items) => nth_error items i
  | Some (VObj props) => lookup (keyOf i) props
  | Some (VStr s) => option_map (fun c => VStr (String c EmptyString)) (String.get i s)
  | _ => None
  end.

(** [v == null] *)
Definition isNull (v : option jsval) : bool :=
  match v with None | Some VNull => true | _ => false end.

(** [v ?? null] *)
Definition orNull (v : option jsval) : jsval :=
  match v with Some v => v | None => VNull end.

(** The five series at the hour [i]. *)
Definition seriesAt (h : jsval) (name : string) (i : nat) : option jsval :=
  optIndex (getProp h name) i.

(** The test of the [while] loop, without [i > 0]: no series has a value at
    the hour [i]. *)
Definition noReading (h : jsval) (i : nat) : bool :=
  isNull (seriesAt h "pm2_5" i) && isNull (seriesAt h "pm10" i) &&
  isNull (seriesAt h "nitrogen_dioxide" i) && isNull (seriesAt h "ozone" i) &&
  isNull (seriesAt h "carbon_monoxide" i).

(** [while (i > 0 && ...) i--], from [i]. *)
Fixpoint latest (h : jsval) (i : nat) : nat :=
  match i with
  | O => O
  | S j => if noReading h i then latest h j else i
  end.

Definition getOutdoorAirQuality (fetch : option (R -> R -> option Response))
           (lat lon : jsnum) : AirError + Reading :=
  if negb (Number_isFinite lat) || negb (Number_isFinite lon) then inl InvalidLatLon
  else
    match fetch with
    | None => inl FetchUnavailable
    | Some fetch =>
        match fetch (ifFinite lat (fun r => r) 0) (ifFinite lon (fun r => r) 0) with
        | None => inl Rejected
        | Some res =>
            if negb (res_ok res) then inl (OpenMeteoFailed (res_status res))
            else
              match res_json res with
              | None | Some VNull => inl Rejected
              | Some data =>
                  let h := getProp data "hourly" in
                  match (if truthy h
                         then match h with Some h => getProp h "time" | None => None end
                         else None) with
                  | Some (VArr (t :: ts)) =>
                      let h := orNull h in
                      let i := latest h (List.length (t :: ts) - 1) in
                      inr (mkReading "Open-Meteo"
                             (orNull (nth_error (t :: ts) i))
                             (orNull (seriesAt h "pm2_5" i))
                             (orNull (seriesAt h "pm10" i))
                             (orNull (seriesAt h "nitrogen_dioxide" i))
                             (orNull (seriesAt h "ozone" i))
                             (orNull (seriesAt h "carbon_monoxide" i)))
                  | _ => inl NoData
                  end
              end
        end
    end.

(** The grid and the statistics of a room in which nothing but fans acts. *)
Definition stillCO2 (outdoorCO2 : R) : R := clamp (outdoorCO2 + 600) outdoorCO2 5000.

Definition stillGrid (outdoorCO2 : R) : list (list Cell) :=
  cellsOf (fun _ _ => stillCO2 outdoorCO2) (fun _ _ => 0) (fun _ _ => 21).

Definition stillStats (outdoorCO2 : R) : Stats :=
  mkStats (stillCO2 outdoorCO2) (Rmax 0 (stillCO2 outdoorCO2)) 0 0 21.

(** ** Inputs of moderate size

    A room of positive width and height, with its fans, windows and
    occupants inside it, and with fan strengths and an outdoor air of at most
    a million in magnitude.  On such an input the grid positions of the
    source lie in [0, 43] and [0, 27], the velocities, the fields and the
    sums of the statistics are far from the largest binary64 number, and no
    operation of the source yields [Infinity] or [NaN]: its run is the run
    read over the reals, up to rounding. *)

Definition moderateBound : R := 1000000.

(** A point of the room, the coordinates read as the source reads them
    ([x || 0]). *)
Definition inRoom (width height : R) (x y : option R) : Prop :=
  0 <= orZero x <= width /\ 0 <= orZero y <= height.

Definition moderateFan (width height : R) (f : Fan) : Prop :=
  inRoom width height (fan_x f) (fan_y f) /\
  Rabs (ifFinite (fan_strength f) (fun s => s) 1.0) <= moderateBound.

Definition moderateRoom (width height : R) (windows : list Window)
           (occupants : list Occupant) (outdoorCO2 outdoorTemp : R) : Prop :=
  0 < width /\ 0 < height /\
  (forall win, In win windows -> inRoom width height (win_x win) (win_y win)) /\
  (forall p, In p occupants -> inRoom width height (occ_x p) (occ_y p)) /\
  Rabs outdoorCO2 <= moderateBound /\ Rabs outdoorTemp <= moderateBound.

Definition moderate (input : Input) : Prop :=
  moderateRoom (roomWidth input) (roomHeight input)
               (orEmpty (in_windows input)) (orEmpty (in_occupants input))
               (outdoorCO2Of input) (outdoorTempOf input) /\
  (forall f, In f (orEmpty (in_fans input)) ->
     moderateFan (roomWidth input) (roomHeight input) f).

(** * Properties *)

(** ** Inputs of moderate size *)

Lemma moderate_dims (input : Input) :
  moderate input -> roomWidth input <> 0 /\ roomHeight input <> 0.
Proof. intros [[Pw [Ph _]] _]; split; lra. Qed.

(** Settles [moderate] and [moderateRoom] on an input that is written out. *)
Ltac moderate_holds :=
  unfold moderate, moderateRoom, moderateFan, inRoom, moderateBound,
         roomWidth, roomHeight, outdoorCO2Of, outdoorTempOf, outdoorOf,
         CO2_LIMITS_outdoor;
  cbn [orEmpty ifFinite in_width in_height in_fans in_windows in_occupants
       in_outdoor out_co2 out_temp In];
  repeat match goal with
         | |- _ /\ _ => split
         | |- forall _, _ => intro
         | H : _ \/ _ |- _ => destruct H
         | H : False |- _ => destruct H
         | H : _ = ?e |- _ => subst e
         | |- Rabs _ <= _ => apply Rabs_le
         end;
  cbn [orZero ifFinite fan_x fan_y fan_strength win_x win_y occ_x occ_y];
  try lra.

(** ** Loops *)

(** The rule of the counting loop: an invariant indexed by the counter. *)
Lemma forEach_seq_from {St : Type} (body : nat -> St -> option St)
      (Inv : nat -> St -> Prop) (n a : nat) (s0 : St) :
  Inv a s0 ->
  (forall i s, (a <= i < a + n)%nat -> Inv i s ->
               exists s', body i s = Some s' /\ Inv (S i) s') ->
  exists s', forEach body (seq a n) s0 = Some s' /\ Inv (a + n)%nat s'.
Proof.
  revert a s0; induction n as [|n IH]; intros a s0 H0 Hstep; simpl.
  - exists s0; rewrite Nat.add_0_r; auto.
  - destruct (Hstep a s0 ltac:(lia) H0) as [s1 [E1 I1]]; rewrite E1.
    destruct (IH (S a) s1 I1) as [s' [E' I']].
    + intros i s Hi; apply Hstep; lia.
    + exists s'; split; [exact E'|].
      replace (a + S n)%nat with (S a + n)%nat by lia; exact I'.
Qed.

Lemma forEach_seq_inv {St : Type} (body : nat -> St -> option St)
      (Inv : nat -> St -> Prop) (n : nat) (s0 : St) :
  Inv O s0 ->
  (forall i s, (i < n)%nat -> Inv i s ->
               exists s', body i s = Some s' /\ Inv (S i) s') ->
  exists s', forEach body (seq 0 n) s0 = Some s' /\ Inv n s'.
Proof.
  intros H0 Hstep.
  apply (forEach_seq_from body Inv n O s0 H0).
  intros i s Hi; apply Hstep; lia.
Qed.

(** The rule of the loop over the cells: the invariant is indexed by the
    number of cells done. *)
Lemma for_cells_inv {St : Type} (body : nat -> nat -> St -> option St)
      (Inv : nat -> St -> Prop) (s0 : St) :
  Inv O s0 ->
  (forall y x s, (y < rows)%nat -> (x < cols)%nat -> Inv (y * cols + x)%nat s ->
                 exists s', body y x s = Some s' /\ Inv (S (y * cols + x)) s') ->
  exists s', for_cells body s0 = Some s' /\ Inv (rows * cols)%nat s'.
Proof.
  intros H0 Hstep; unfold for_cells.
  apply (forEach_seq_inv _ (fun y s => Inv (y * cols)%nat s)); [exact H0|].
  intros y s Hy Hs.
  destruct (forEach_seq_inv (fun x => body y x)
              (fun x s => Inv (y * cols + x)%nat s) cols s) as [s' [E I]].
  - rewrite Nat.add_0_r; exact Hs.
  - intros x s1 Hx H1; rewrite Nat.add_succ_r; apply Hstep; assumption.
  - exists s'; split; [exact E|].
    replace (S y * cols)%nat with (y * cols + cols)%nat by lia; exact I.
Qed.

(** ** Arrays and fields *)

Lemma upd_length {A : Type} (n : nat) (v : A) (l : list A) :
  length (upd n v l) = length l.
Proof.
  revert n; induction l as [|e l IH]; intros [|n]; simpl; auto.
Qed.

Lemma nth_error_upd_same {A : Type} (n : nat) (v : A) (l : list A) :
  (n < length l)%nat -> nth_error (upd n v l) n = Some v.
Proof.
  revert n; induction l as [|e l IH]; intros [|n] H; simpl in *; try lia; auto.
  apply IH; lia.
Qed.

Lemma nth_error_upd_other {A : Type} (n m : nat) (v : A) (l : list A) :
  n <> m -> nth_error (upd n v l) m = nth_error l m.
Proof.
  revert n m; induction l as [|e l IH]; intros [|n] [|m] H; simpl; auto; try lia.
Qed.

Lemma In_upd {A : Type} (n : nat) (v e : A) (l : list A) :
  In e (upd n v l) -> e = v \/ In e l.
Proof.
  revert n; induction l as [|e' l IH]; intros [|n]; simpl; auto.
  - intros [H|H]; auto.
  - intros [H|H]; auto. destruct (IH n H); auto.
Qed.

Lemma reps_get (a : Field) (g : nat -> nat -> R) (y x : nat) :
  reps a g -> (y < rows)%nat -> (x < cols)%nat -> get2 a y x = Some (g y x).
Proof. intros [_ [_ H]]; apply H. Qed.

Lemma reps_ext (a : Field) (g g' : nat -> nat -> R) :
  reps a g ->
  (forall y x, (y < rows)%nat -> (x < cols)%nat -> g y x = g' y x) ->
  reps a g'.
Proof.
  intros [Hl [Hr Hg]] E; split; [|split]; auto.
  intros y x Hy Hx; rewrite <- E by assumption; auto.
Qed.

Lemma reps_row (a : Field) (g : nat -> nat -> R) (y : nat) :
  reps a g -> (y < rows)%nat ->
  exists row, nth_error a y = Some row /\ length row = cols /\
              forall x, (x < cols)%nat -> nth_error row x = Some (g y x).
Proof.
  intros [Hl [Hr Hg]] Hy.
  destruct (nth_error a y) as [row|] eqn:E.
  - exists row; split; [|split]; auto.
    + apply Hr; eapply nth_error_In; eauto.
    + intros x Hx; specialize (Hg y x Hy Hx); unfold get2 in Hg; rewrite E in Hg; auto.
  - apply nth_error_None in E; lia.
Qed.

Lemma reps_make2D (v : R) : reps (make2D rows cols v) (fun _ _ => v).
Proof.
  unfold make2D; split; [|split].
  - apply repeat_length.
  - intros row H; apply (repeat_spec rows (repeat v cols) row) in H; subst; apply repeat_length.
  - intros y x Hy Hx; unfold get2.
    rewrite nth_error_repeat by assumption.
    apply nth_error_repeat; assumption.
Qed.

Lemma reps_set (a : Field) (g : nat -> nat -> R) (y x : nat) (v : R) :
  reps a g -> (y < rows)%nat -> (x < cols)%nat ->
  exists a', set2 a y x v = Some a' /\
             reps a' (fun y' x' => if ((y' =? y) && (x' =? x))%nat then v else g y' x').
Proof.
  intros H Hy Hx.
  destruct (reps_row a g y H Hy) as [row [Er [Lr Gr]]].
  destruct H as [Hl [Hr Hg]].
  unfold set2; rewrite Er.
  assert (Hlt : (x <? length row)%nat = true) by (apply Nat.ltb_lt; lia).
  rewrite Hlt; eexists; split; [reflexivity|].
  split; [|split].
  - rewrite upd_length; assumption.
  - intros r Hin; apply In_upd in Hin; destruct Hin as [->|Hin]; auto.
    rewrite upd_length; assumption.
  - intros y' x' Hy' Hx'; unfold get2.
    destruct (Nat.eqb_spec y' y) as [->|Ny].
    + rewrite nth_error_upd_same by lia.
      destruct (Nat.eqb_spec x' x) as [->|Nx]; simpl.
      * apply nth_error_upd_same; lia.
      * rewrite nth_error_upd_other by auto; apply Gr; assumption.
    + rewrite nth_error_upd_other by auto; simpl. apply Hg; assumption.
Qed.

Lemma upto_all (new old : nat -> nat -> R) (y x : nat) :
  (y < rows)%nat -> (x < cols)%nat -> upto (rows * cols) new old y x = new y x.
Proof.
  intros Hy Hx; unfold upto.
  assert (H : (y * cols + x <? rows * cols)%nat = true) by (apply Nat.ltb_lt; unfold rows, cols in *; lia).
  rewrite H; reflexivity.
Qed.

(** Writing the next cell of a loop over the cells. *)
Lemma set_upto (a : Field) (new old : nat -> nat -> R) (y x : nat) (v : R) :
  reps a (upto (y * cols + x) new old) -> (y < rows)%nat -> (x < cols)%nat ->
  new y x = v ->
  exists a', set2 a y x v = Some a' /\ reps a' (upto (S (y * cols + x)) new old).
Proof.
  intros H Hy Hx E.
  destruct (reps_set a _ y x v H Hy Hx) as [a' [Ea Ha]].
  exists a'; split; [exact Ea|].
  apply (reps_ext _ _ _ Ha); intros y' x' Hy' Hx'; unfold upto.
  destruct (Nat.eqb_spec y' y) as [->|Ny]; simpl.
  - destruct (Nat.eqb_spec x' x) as [->|Nx].
    + assert (T : (y * cols + x <? S (y * cols + x))%nat = true) by (apply Nat.ltb_lt; lia).
      rewrite T; auto.
    + destruct (Nat.ltb_spec (y * cols + x') (y * cols + x)), (Nat.ltb_spec (y * cols + x') (S (y * cols + x))); auto; lia.
  - destruct (Nat.ltb_spec (y' * cols + x') (y * cols + x)), (Nat.ltb_spec (y' * cols + x') (S (y * cols + x))); auto; unfold cols in *; lia.
Qed.

Lemma modify_upto (a : Field) (new old : nat -> nat -> R) (y x : nat) (h : R -> R) :
  reps a (upto (y * cols + x) new old) -> (y < rows)%nat -> (x < cols)%nat ->
  new y x = h (old y x) ->
  exists a', modify2 a y x h = Some a' /\ reps a' (upto (S (y * cols + x)) new old).
Proof.
  intros H Hy Hx E; unfold modify2.
  rewrite (reps_get _ _ _ _ H Hy Hx).
  apply set_upto; auto.
  rewrite E; unfold upto.
  rewrite Nat.ltb_irrefl; reflexivity.
Qed.

Lemma skip_upto (a : Field) (new old : nat -> nat -> R) (y x : nat) :
  reps a (upto (y * cols + x) new old) -> (y < rows)%nat -> (x < cols)%nat ->
  new y x = old y x ->
  reps a (upto (S (y * cols + x)) new old).
Proof.
  intros H Hy Hx E.
  apply (reps_ext _ _ _ H); intros y' x' Hy' Hx'; unfold upto.
  destruct (Nat.ltb_spec (y' * cols + x') (y * cols + x)), (Nat.ltb_spec (y' * cols + x') (S (y * cols + x))); auto; try lia.
  assert (y' = y /\ x' = x) as [-> ->] by (unfold cols in *; lia).
  auto.
Qed.

(** ** The velocity field *)

Lemma fdiv_some (a b : R) : b <> 0 -> fdiv a b = Some (a / b).
Proof. intros H; unfold fdiv; destruct (Req_dec_T b 0); [contradiction|reflexivity]. Qed.

Lemma fdiv_pos (a b : R) : 0 < b -> fdiv a b = Some (a / b).
Proof. intros H; apply fdiv_some; lra. Qed.

Lemma radial_pos (dx dy c : R) : 0 < c -> 0 < dx * dx + dy * dy + c.
Proof. intros H; pose proof (Rle_0_sqr dx); pose proof (Rle_0_sqr dy); unfold Rsqr in *; lra. Qed.

(** One in-place update at the head of a loop body. *)
Ltac modify_next Hy Hx :=
  match goal with
  | I : reps ?a (upto _ _ _)
    |- exists _, match modify2 ?a ?y ?x ?h with Some _ => _ | None => None end = Some _ /\ _ =>
      let a' := fresh "a" in
      let E := fresh "E" in
      let I' := fresh "I" in
      destruct (modify_upto a _ _ y x h I Hy Hx) as [a' [E I']];
      [ try reflexivity | rewrite E; clear E I ]
  end.

Ltac loop_done Ix :=
  apply (reps_ext _ _ _ Ix); intros; apply upto_all; assumption.

Section Velocity.

Variables width height : R.
Hypothesis width_nz : width <> 0.
Hypothesis height_nz : height <> 0.

Lemma pxToGX_some (px : R) : pxToGX width px = Some (gridX width px).
Proof. unfold pxToGX; rewrite fdiv_some by assumption; reflexivity. Qed.

Lemma pxToGY_some (px : R) : pxToGY height px = Some (gridY height px).
Proof. unfold pxToGY; rewrite fdiv_some by assumption; reflexivity. Qed.

Lemma fanPush_spec (f : Fan) (vx vy : Field) (gx gy : nat -> nat -> R) :
  reps vx gx -> reps vy gy ->
  exists vx' vy',
    fanPush width height f (vx, vy) = Some (vx', vy') /\
    reps vx' (fun y x => gx y x + fst (fanVelocity width height f y x)) /\
    reps vy' (fun y x => gy y x + snd (fanVelocity width height f y x)).
Proof.
  intros Hx Hy; unfold fanPush; rewrite pxToGX_some, pxToGY_some.
  match goal with |- context [for_cells ?b _] => set (body := b) end.
  destruct (for_cells_inv body
    (fun k v => reps (fst v) (upto k (fun y x => gx y x + fst (fanVelocity width height f y x)) gx) /\
                reps (snd v) (upto k (fun y x => gy y x + snd (fanVelocity width height f y x)) gy))
    (vx, vy)) as [[vx' vy'] [E [Ix Iy]]].
  - split; assumption.
  - intros y x [ax ay] Hy' Hx' [Ix Iy]; unfold fst, snd in Ix, Iy; unfold body; cbv beta zeta.
    rewrite !fdiv_pos by (apply radial_pos; lra).
    do 2 modify_next Hy' Hx'.
    eexists; split; [reflexivity|split; assumption].
  - exists vx', vy'; split; [exact E|]. split; [loop_done Ix | loop_done Iy].
Qed.

Lemma windowFlow_spec (win : Window) (vx vy : Field) (gx gy : nat -> nat -> R) :
  reps vx gx -> reps vy gy ->
  exists vx' vy',
    windowFlow width height win (vx, vy) = Some (vx', vy') /\
    reps vx' (fun y x => gx y x + fst (windowVelocity width height win y x)) /\
    reps vy' (fun y x => gy y x + snd (windowVelocity width height win y x)).
Proof.
  intros Hx Hy; unfold windowFlow; rewrite pxToGX_some, pxToGY_some, fdiv_some by assumption.
  match goal with |- context [for_cells ?b _] => set (body := b) end.
  destruct (for_cells_inv body
    (fun k v => reps (fst v) (upto k (fun y x => gx y x + fst (windowVelocity width height win y x)) gx) /\
                reps (snd v) (upto k (fun y x => gy y x + snd (windowVelocity width height win y x)) gy))
    (vx, vy)) as [[vx' vy'] [E [Ix Iy]]].
  - split; assumption.
  - intros y x [ax ay] Hy' Hx' [Ix Iy]; unfold fst, snd in Ix, Iy; unfold body; cbv beta zeta.
    fold (halfWidth width win) (inBand width height 2.2 win y x).
    destruct (inBand width height 2.2 win y x) eqn:B; simpl negb; cbv iota.
    + modify_next Hy' Hx'; [unfold windowVelocity; rewrite B; reflexivity|].
      modify_next Hy' Hx'; [unfold windowVelocity; rewrite B; reflexivity|].
      eexists; split; [reflexivity|split; assumption].
    + eexists; split; [reflexivity|].
      split; apply skip_upto; auto; unfold windowVelocity; rewrite B; simpl; lra.
  - exists vx', vy'; split; [exact E|]. split; [loop_done Ix | loop_done Iy].
Qed.

Lemma fans_loop_spec (fans : list Fan) (vx vy : Field) (gx gy : nat -> nat -> R) :
  reps vx gx -> reps vy gy ->
  exists vx' vy',
    forEach (fanPush width height) fans (vx, vy) = Some (vx', vy') /\
    reps vx' (fun y x =>
      fold_left (fun acc f => acc + fst (fanVelocity width height f y x)) fans (gx y x)) /\
    reps vy' (fun y x =>
      fold_left (fun acc f => acc + snd (fanVelocity width height f y x)) fans (gy y x)).
Proof.
  revert vx vy gx gy; induction fans as [|f fs IH]; intros vx vy gx gy Hx Hy; simpl.
  - exists vx, vy; auto.
  - destruct (fanPush_spec f vx vy gx gy Hx Hy) as [vx1 [vy1 [E [Hx1 Hy1]]]]; rewrite E.
    apply (IH vx1 vy1 _ _ Hx1 Hy1).
Qed.

Lemma windows_loop_spec (windows : list Window) (vx vy : Field) (gx gy : nat -> nat -> R) :
  reps vx gx -> reps vy gy ->
  exists vx' vy',
    forEach (windowFlow width height) windows (vx, vy) = Some (vx', vy') /\
    reps vx' (fun y x =>
      fold_left (fun acc win => acc + fst (windowVelocity width height win y x)) windows (gx y x)) /\
    reps vy' (fun y x =>
      fold_left (fun acc win => acc + snd (windowVelocity width height win y x)) windows (gy y x)).
Proof.
  revert vx vy gx gy; induction windows as [|w ws IH]; intros vx vy gx gy Hx Hy; simpl.
  - exists vx, vy; auto.
  - destruct (windowFlow_spec w vx vy gx gy Hx Hy) as [vx1 [vy1 [E [Hx1 Hy1]]]]; rewrite E.
    apply (IH vx1 vy1 _ _ Hx1 Hy1).
Qed.

Lemma computeVelocity_spec (fans : list Fan) (windows : list Window) :
  exists vx vy,
    computeVelocity width height fans windows = Some (vx, vy) /\
    reps vx (velocityX width height fans windows) /\
    reps vy (velocityY width height fans windows).
Proof.
  unfold computeVelocity.
  destruct (fans_loop_spec fans _ _ _ _ (reps_make2D 0) (reps_make2D 0))
    as [vx1 [vy1 [E1 [Hx1 Hy1]]]]; rewrite E1.
  apply (windows_loop_spec windows vx1 vy1 _ _ Hx1 Hy1).
Qed.

End Velocity.

(** ** Sampling *)

Lemma clamp_bounds (v a b : R) : a <= b -> a <= clamp v a b <= b.
Proof.
  intros H; unfold clamp, Rmax, Rmin.
  destruct (Rle_dec b v), (Rle_dec a _); lra.
Qed.

Lemma clamp_inside (v a b : R) : a <= v <= b -> clamp v a b = v.
Proof.
  intros H; unfold clamp, Rmax, Rmin.
  destruct (Rle_dec b v), (Rle_dec a _); lra.
Qed.

Lemma clamp_above (v a b : R) : a <= b -> b <= v -> clamp v a b = b.
Proof.
  intros H1 H2; unfold clamp, Rmax, Rmin.
  destruct (Rle_dec b v), (Rle_dec a _); lra.
Qed.

Lemma clamp_below (v a b : R) : v <= a -> a <= b -> clamp v a b = a.
Proof.
  intros H1 H2; unfold clamp, Rmax, Rmin.
  destruct (Rle_dec b v), (Rle_dec a _); lra.
Qed.

Lemma lerp_zero (a b : R) : lerp a b 0 = a.
Proof. unfold lerp; lra. Qed.

Lemma index_INR (n : nat) : index (INR n) = Some n.
Proof.
  unfold index; rewrite INR_IZR_INZ, ZfloorZ.
  destruct (Req_dec_T _ _) as [_|N]; [|contradiction N; reflexivity].
  destruct (Z.leb_spec 0 (Z.of_nat n)); [|lia].
  rewrite Nat2Z.id; reflexivity.
Qed.

Lemma aget_INR {A : Type} (a : list A) (n : nat) : aget a (INR n) = nth_error a n.
Proof. unfold aget; rewrite index_INR; reflexivity. Qed.

Lemma INR_pred_1 (m : nat) : (0 < m)%nat -> INR m - 1 = INR (m - 1).
Proof. intros H; rewrite minus_INR by lia; simpl; lra. Qed.

(** The floor of a number clamped into [0, m-1] is an index below [m]. *)
Lemma floor_clamped (v : R) (m : nat) :
  (0 < m)%nat ->
  let c := clamp v 0 (INR m - 1) in
  Math_floor c = INR (Z.to_nat (Zfloor c)) /\ (Z.to_nat (Zfloor c) < m)%nat.
Proof.
  intros Hm c.
  assert (Hc : 0 <= c <= INR m - 1).
  { apply clamp_bounds; rewrite INR_pred_1 by assumption; apply pos_INR. }
  assert (H0 : (0 <= Zfloor c)%Z) by (apply Zfloor_lub; simpl; lra).
  assert (H1 : (Zfloor c < Z.of_nat m)%Z).
  { apply lt_IZR; rewrite <- INR_IZR_INZ.
    pose proof (Zfloor_bound c); lra. }
  split; [|lia].
  unfold Math_floor; rewrite INR_IZR_INZ, Z2Nat.id by assumption; reflexivity.
Qed.

Lemma clamp_succ_INR (n m : nat) :
  (n < m)%nat -> clamp (INR n + 1) 0 (INR m - 1) = INR (Nat.min (S n) (m - 1)).
Proof.
  intros H.
  pose proof (pos_INR n) as Pn.
  assert (Hm : INR m - 1 = INR (m - 1)) by (apply INR_pred_1; lia).
  destruct (Nat.le_gt_cases (S n) (m - 1)) as [L|G].
  - rewrite Nat.min_l by assumption; rewrite S_INR.
    apply clamp_inside; split; [lra|].
    rewrite Hm, <- S_INR; apply le_INR; assumption.
  - rewrite Nat.min_r by lia.
    rewrite Hm; apply clamp_above; [apply pos_INR|].
    rewrite <- S_INR; apply le_INR; lia.
Qed.

Lemma clamp_pred_INR (n m : nat) :
  (n < m)%nat -> clamp (INR n - 1) 0 (INR m - 1) = INR (Nat.pred n).
Proof.
  intros H.
  assert (Hm : INR m - 1 = INR (m - 1)) by (apply INR_pred_1; lia).
  destruct n as [|n].
  - simpl; apply clamp_below; [lra|]. rewrite Hm; apply pos_INR.
  - rewrite S_INR; simpl Nat.pred.
    replace (INR n + 1 - 1) with (INR n) by lra.
    apply clamp_inside; pose proof (pos_INR n); split; [lra|].
    rewrite Hm; apply le_INR; lia.
Qed.

Lemma bilinearOn_integer (nr nc : nat) (g : nat -> nat -> R) (x y : nat) :
  (y < nr)%nat -> (x < nc)%nat -> bilinearOn nr nc g (INR x) (INR y) = g y x.
Proof.
  intros Hy Hx; unfold bilinearOn.
  assert (Cx : clamp (INR x) 0 (INR nc - 1) = INR x).
  { apply clamp_inside; split; [apply pos_INR|].
    rewrite INR_pred_1 by lia; apply le_INR; lia. }
  assert (Cy : clamp (INR y) 0 (INR nr - 1) = INR y).
  { apply clamp_inside; split; [apply pos_INR|].
    rewrite INR_pred_1 by lia; apply le_INR; lia. }
  cbv zeta; rewrite Cx, Cy.
  rewrite !INR_IZR_INZ, !ZfloorZ, !Nat2Z.id, <- !INR_IZR_INZ.
  rewrite !Rminus_diag, !lerp_zero; reflexivity.
Qed.

Section Sampling.

Variables nr nc : nat.
Hypothesis nr_pos : (0 < nr)%nat.
Hypothesis nc_pos : (0 < nc)%nat.

Variable a : Field.
Variable g : nat -> nat -> R.
Hypothesis a_rows : length a = nr.
Hypothesis a_cols : forall row, In row a -> length row = nc.
Hypothesis a_holds :
  forall y x, (y < nr)%nat -> (x < nc)%nat -> get2 a y x = Some (g y x).

Lemma field_row (y : nat) :
  (y < nr)%nat ->
  exists row, nth_error a y = Some row /\
              forall x, (x < nc)%nat -> nth_error row x = Some (g y x).
Proof.
  intros Hy.
  destruct (nth_error a y) as [row|] eqn:E.
  - exists row; split; [reflexivity|].
    intros x Hx; specialize (a_holds y x Hy Hx); unfold get2 in a_holds.
    rewrite E in a_holds; exact a_holds.
  - apply nth_error_None in E; lia.
Qed.

Lemma sampleScalar_on (x y : R) :
  sampleScalar a x y = Some (bilinearOn nr nc g x y).
Proof.
  unfold sampleScalar, bilinearOn.
  destruct (field_row 0 nr_pos) as [row0 [E0 _]]; rewrite E0.
  assert (L0 : length row0 = nc) by (apply a_cols; eapply nth_error_In; eauto).
  rewrite a_rows, L0.
  destruct (floor_clamped x nc nc_pos) as [Fx Bx].
  destruct (floor_clamped y nr nr_pos) as [Fy By].
  cbv zeta in Fx, Bx, Fy, By. cbv zeta.
  rewrite Fx, Fy.
  set (x0 := Z.to_nat (Zfloor (clamp x 0 (INR nc - 1)))) in *.
  set (y0 := Z.to_nat (Zfloor (clamp y 0 (INR nr - 1)))) in *.
  rewrite (clamp_succ_INR x0 nc Bx), (clamp_succ_INR y0 nr By).
  rewrite !aget_INR.
  destruct (field_row y0 By) as [r0 [Er0 G0]]; rewrite Er0.
  destruct (field_row (Nat.min (S y0) (nr - 1)) ltac:(lia)) as [r1 [Er1 G1]]; rewrite Er1.
  rewrite !aget_INR.
  rewrite (G0 x0 Bx), (G0 (Nat.min (S x0) (nc - 1)) ltac:(lia)).
  rewrite (G1 x0 Bx), (G1 (Nat.min (S x0) (nc - 1)) ltac:(lia)).
  reflexivity.
Qed.

End Sampling.

Lemma sampleScalar_reps (a : Field) (g : nat -> nat -> R) (x y : R) :
  reps a g -> sampleScalar a x y = Some (bilinear g x y).
Proof.
  intros [Hl [Hr Hg]]; apply sampleScalar_on; auto; unfold rows, cols; lia.
Qed.

Lemma bilinear_integer (g : nat -> nat -> R) (x y : nat) :
  (y < rows)%nat -> (x < cols)%nat -> bilinear g (INR x) (INR y) = g y x.
Proof.
  intros Hy Hx; apply bilinearOn_integer; auto; unfold rows, cols; lia.
Qed.

(** ** Transport *)

Ltac set_next Hy Hx :=
  match goal with
  | I : reps ?a (upto _ _ _) |- exists _, set2 ?a ?y ?x ?v = Some _ /\ _ =>
      apply (set_upto a _ _ y x v I Hy Hx)
  end.

Lemma advect_spec (field vx vy : Field) (g ux uy : nat -> nat -> R) :
  reps field g -> reps vx ux -> reps vy uy ->
  exists out, advect field vx vy = Some out /\ reps out (advectAt g ux uy).
Proof.
  intros Hf Hx Hy; unfold advect.
  match goal with |- context [for_cells ?b _] => set (body := b) end.
  destruct (for_cells_inv body
    (fun k out => reps out (upto k (advectAt g ux uy) (fun _ _ => 0)))
    (make2D rows cols 0)) as [out [E I]].
  - apply reps_make2D.
  - intros y x out Hy' Hx' I; unfold body; cbv beta zeta.
    rewrite (reps_get _ _ _ _ Hx Hy' Hx'), (reps_get _ _ _ _ Hy Hy' Hx').
    rewrite (sampleScalar_reps _ _ _ _ Hf).
    set_next Hy' Hx'; reflexivity.
  - exists out; split; [exact E|loop_done I].
Qed.

Lemma diffuse_spec (field : Field) (g : nat -> nat -> R) :
  reps field g ->
  exists out, diffuse field = Some out /\ reps out (diffuseAt g).
Proof.
  intros Hf; unfold diffuse.
  match goal with |- context [for_cells ?b _] => set (body := b) end.
  destruct (for_cells_inv body
    (fun k out => reps out (upto k (diffuseAt g) (fun _ _ => 0)))
    (make2D rows cols 0)) as [out [E I]].
  - apply reps_make2D.
  - intros y x out Hy' Hx' I; unfold body; cbv beta zeta.
    rewrite (reps_get _ _ _ _ Hf Hy' Hx').
    rewrite (clamp_pred_INR y rows Hy'), (clamp_succ_INR y rows Hy').
    rewrite (clamp_pred_INR x cols Hx'), (clamp_succ_INR x cols Hx').
    rewrite !aget_INR.
    destruct (reps_row _ _ (Nat.pred y) Hf ltac:(lia)) as [rup [Eup [_ Gup]]].
    destruct (reps_row _ _ (Nat.min (S y) (rows - 1)) Hf ltac:(unfold rows; lia))
      as [rdn [Edn [_ Gdn]]].
    destruct (reps_row _ _ y Hf Hy') as [row [Er [_ Gr]]].
    rewrite Eup, (Gup x Hx'), Edn, (Gdn x Hx'), Er.
    rewrite !aget_INR.
    rewrite (Gr (Nat.pred x) ltac:(lia)).
    rewrite (Gr (Nat.min (S x) (cols - 1)) ltac:(unfold cols; lia)).
    set_next Hy' Hx'; reflexivity.
  - exists out; split; [exact E|loop_done I].
Qed.

(** ** Sources, sinks and the clamp *)

Section Steps.

Variables width height : R.
Hypothesis width_nz : width <> 0.
Hypothesis height_nz : height <> 0.

Lemma occupantEmit_spec (p : Occupant) (c v t : Field) (gc gv gt : nat -> nat -> R) :
  reps c gc -> reps v gv -> reps t gt ->
  exists c' v' t',
    occupantEmit width height p (c, v, t) = Some (c', v', t') /\
    reps c' (fun y x => gc y x + CO2_EMIT * intensityOf p * occupantWeight width height p y x) /\
    reps v' (fun y x => gv y x + VIRUS_EMIT * intensityOf p * occupantWeight width height p y x) /\
    reps t' (fun y x => gt y x + HEAT_EMIT * intensityOf p * occupantWeight width height p y x).
Proof.
  intros Hc Hv Ht; unfold occupantEmit.
  rewrite (pxToGX_some width width_nz), (pxToGY_some height height_nz).
  match goal with |- context [for_cells ?b _] => set (body := b) end.
  destruct (for_cells_inv body
    (fun k s => let '(c', v', t') := s in
       reps c' (upto k (fun y x => gc y x + CO2_EMIT * intensityOf p * occupantWeight width height p y x) gc) /\
       reps v' (upto k (fun y x => gv y x + VIRUS_EMIT * intensityOf p * occupantWeight width height p y x) gv) /\
       reps t' (upto k (fun y x => gt y x + HEAT_EMIT * intensityOf p * occupantWeight width height p y x) gt))
    (c, v, t)) as [[[c' v'] t'] [E [Ic [Iv It]]]].
  - auto.
  - intros y x [[ac av] at_] Hy' Hx' [Ic [Iv It]]; unfold body; cbv beta zeta.
    do 3 modify_next Hy' Hx'.
    eexists; split; [reflexivity|cbv beta iota; auto].
  - exists c', v', t'; split; [exact E|].
    split; [loop_done Ic | split; [loop_done Iv | loop_done It]].
Qed.

Lemma applyOccupants_spec (occupants : list Occupant) (c v t : Field)
      (gc gv gt : nat -> nat -> R) :
  reps c gc -> reps v gv -> reps t gt ->
  exists c' v' t',
    applyOccupants width height occupants (c, v, t) = Some (c', v', t') /\
    reps c' (emitAt width height CO2_EMIT occupants gc) /\
    reps v' (emitAt width height VIRUS_EMIT occupants gv) /\
    reps t' (emitAt width height HEAT_EMIT occupants gt).
Proof.
  unfold applyOccupants, emitAt.
  revert c v t gc gv gt; induction occupants as [|p ps IH];
    intros c v t gc gv gt Hc Hv Ht; simpl.
  - exists c, v, t; auto.
  - destruct (occupantEmit_spec p c v t gc gv gt Hc Hv Ht)
      as [c1 [v1 [t1 [E [Hc1 [Hv1 Ht1]]]]]]; rewrite E.
    apply (IH c1 v1 t1 _ _ _ Hc1 Hv1 Ht1).
Qed.

Variables outdoorCO2 outdoorTemp : R.

Lemma windowSink_spec (win : Window) (c v t : Field) (gc gv gt : nat -> nat -> R) :
  reps c gc -> reps v gv -> reps t gt ->
  exists c' v' t',
    windowSink width height outdoorCO2 outdoorTemp win (c, v, t) = Some (c', v', t') /\
    reps c' (fun y x => if inBand width height 2.8 win y x
                        then lerp (gc y x) outdoorCO2 (ventFactor win) else gc y x) /\
    reps v' (fun y x => if inBand width height 2.8 win y x
                        then lerp (gv y x) outdoorVirus (ventFactor win) else gv y x) /\
    reps t' (fun y x => if inBand width height 2.8 win y x
                        then lerp (gt y x) outdoorTemp (ventFactor win * 0.8) else gt y x).
Proof.
  intros Hc Hv Ht; unfold windowSink.
  rewrite (pxToGX_some width width_nz), (pxToGY_some height height_nz), fdiv_some by assumption.
  match goal with |- context [for_cells ?b _] => set (body := b) end.
  destruct (for_cells_inv body
    (fun k s => let '(c', v', t') := s in
       reps c' (upto k (fun y x => if inBand width height 2.8 win y x
                          then lerp (gc y x) outdoorCO2 (ventFactor win) else gc y x) gc) /\
       reps v' (upto k (fun y x => if inBand width height 2.8 win y x
                          then lerp (gv y x) outdoorVirus (ventFactor win) else gv y x) gv) /\
       reps t' (upto k (fun y x => if inBand width height 2.8 win y x
                          then lerp (gt y x) outdoorTemp (ventFactor win * 0.8) else gt y x) gt))
    (c, v, t)) as [[[c' v'] t'] [E [Ic [Iv It]]]].
  - auto.
  - intros y x [[ac av] at_] Hy' Hx' [Ic [Iv It]]; unfold body; cbv beta zeta.
    fold (halfWidth width win) (inBand width height 2.8 win y x) (ventFactor win).
    destruct (inBand width height 2.8 win y x) eqn:B; simpl negb; cbv iota.
    + modify_next Hy' Hx'; [rewrite B; reflexivity|].
      modify_next Hy' Hx'; [rewrite B; reflexivity|].
      modify_next Hy' Hx'; [rewrite B; reflexivity|].
      eexists; split; [reflexivity|cbv beta iota; auto].
    + eexists; split; [reflexivity|].
      split; [|split]; apply skip_upto; auto; rewrite B; reflexivity.
  - exists c', v', t'; split; [exact E|].
    split; [loop_done Ic | split; [loop_done Iv | loop_done It]].
Qed.

Lemma applyVentilation_spec (windows : list Window) (c v t : Field)
      (gc gv gt : nat -> nat -> R) :
  reps c gc -> reps v gv -> reps t gt ->
  exists c' v' t',
    applyVentilation width height windows outdoorCO2 outdoorTemp (c, v, t)
      = Some (c', v', t') /\
    reps c' (sinkAt width height outdoorCO2 ventFactor windows gc) /\
    reps v' (sinkAt width height outdoorVirus ventFactor windows gv) /\
    reps t' (sinkAt width height outdoorTemp (fun win => ventFactor win * 0.8) windows gt).
Proof.
  unfold applyVentilation, sinkAt.
  revert c v t gc gv gt; induction windows as [|w ws IH];
    intros c v t gc gv gt Hc Hv Ht; simpl.
  - exists c, v, t; auto.
  - destruct (windowSink_spec w c v t gc gv gt Hc Hv Ht)
      as [c1 [v1 [t1 [E [Hc1 [Hv1 Ht1]]]]]]; rewrite E.
    apply (IH c1 v1 t1 _ _ _ Hc1 Hv1 Ht1).
Qed.

End Steps.

Lemma clampFields_spec (outdoorCO2 : R) (c v t : Field) (gc gv gt : nat -> nat -> R) :
  reps c gc -> reps v gv -> reps t gt ->
  exists c' v' t',
    clampFields outdoorCO2 (c, v, t) = Some (c', v', t') /\
    reps c' (fun y x => clamp (gc y x) outdoorCO2 5000) /\
    reps v' (fun y x => clamp (gv y x) 0 1000) /\
    reps t' (fun y x => clamp (gt y x) (-10) 40).
Proof.
  intros Hc Hv Ht; unfold clampFields.
  match goal with |- context [for_cells ?b _] => set (body := b) end.
  destruct (for_cells_inv body
    (fun k s => let '(c', v', t') := s in
       reps c' (upto k (fun y x => clamp (gc y x) outdoorCO2 5000) gc) /\
       reps v' (upto k (fun y x => clamp (gv y x) 0 1000) gv) /\
       reps t' (upto k (fun y x => clamp (gt y x) (-10) 40) gt))
    (c, v, t)) as [[[c' v'] t'] [E [Ic [Iv It]]]].
  - auto.
  - intros y x [[ac av] at_] Hy' Hx' [Ic [Iv It]]; unfold body; cbv beta zeta.
    do 3 modify_next Hy' Hx'.
    eexists; split; [reflexivity|cbv beta iota; auto].
  - exists c', v', t'; split; [exact E|].
    split; [loop_done Ic | split; [loop_done Iv | loop_done It]].
Qed.

(** ** Timesteps *)

Section Run.

Variables width height : R.
Hypothesis width_nz : width <> 0.
Hypothesis height_nz : height <> 0.
Variable fans : list Fan.
Variable windows : list Window.
Variable occupants : list Occupant.
Variables outdoorCO2 outdoorTemp : R.

Lemma timestep_spec (n : nat) (lastV : Field * Field) (c v t : Field)
      (gc gv gt : nat -> nat -> R) :
  reps c gc -> reps v gv -> reps t gt ->
  exists vx vy c' v' t',
    timestep width height fans windows occupants outdoorCO2 outdoorTemp n
             (lastV, (c, v, t)) = Some ((vx, vy), (c', v', t')) /\
    reps vx (velocityX width height fans windows) /\
    reps vy (velocityY width height fans windows) /\
    reps c' (evolve width height fans windows occupants
                    CO2_EMIT outdoorCO2 (ventFactor) outdoorCO2 5000 gc) /\
    reps v' (evolve width height fans windows occupants
                    VIRUS_EMIT outdoorVirus (ventFactor) 0 1000 gv) /\
    reps t' (evolve width height fans windows occupants
                    HEAT_EMIT outdoorTemp (fun win => ventFactor win * 0.8) (-10) 40 gt).
Proof.
  intros Hc Hv Ht; unfold timestep.
  destruct (computeVelocity_spec width height width_nz height_nz fans windows)
    as [vx [vy [EV [Hx Hy]]]]; rewrite EV; unfold fst, snd.
  destruct (advect_spec c vx vy _ _ _ Hc Hx Hy) as [c1 [E Hc1]]; rewrite E; clear E.
  destruct (advect_spec v vx vy _ _ _ Hv Hx Hy) as [v1 [E Hv1]]; rewrite E; clear E.
  destruct (advect_spec t vx vy _ _ _ Ht Hx Hy) as [t1 [E Ht1]]; rewrite E; clear E.
  destruct (diffuse_spec c1 _ Hc1) as [c2 [E Hc2]]; rewrite E; clear E.
  destruct (diffuse_spec v1 _ Hv1) as [v2 [E Hv2]]; rewrite E; clear E.
  destruct (diffuse_spec t1 _ Ht1) as [t2 [E Ht2]]; rewrite E; clear E.
  destruct (applyOccupants_spec width height width_nz height_nz occupants
              c2 v2 t2 _ _ _ Hc2 Hv2 Ht2) as [c3 [v3 [t3 [E [Hc3 [Hv3 Ht3]]]]]].
  rewrite E; clear E.
  destruct (applyVentilation_spec width height width_nz height_nz outdoorCO2 outdoorTemp
              windows c3 v3 t3 _ _ _ Hc3 Hv3 Ht3) as [c4 [v4 [t4 [E [Hc4 [Hv4 Ht4]]]]]].
  rewrite E; clear E.
  destruct (clampFields_spec outdoorCO2 c4 v4 t4 _ _ _ Hc4 Hv4 Ht4)
    as [c5 [v5 [t5 [E [Hc5 [Hv5 Ht5]]]]]].
  rewrite E; clear E.
  exists vx, vy, c5, v5, t5; split; [reflexivity|].
  repeat (split; [assumption|]); assumption.
Qed.

(** The simulation runs any number of timesteps, and the fields it holds
    after [n] of them are [co2After n], [virusAfter n] and [tempAfter n]. *)
Lemma runSteps_spec (n : nat) :
  exists vx vy c v t,
    runSteps width height fans windows occupants outdoorCO2 outdoorTemp n
      = Some ((vx, vy), (c, v, t)) /\
    reps vx (velocityX width height fans windows) /\
    reps vy (velocityY width height fans windows) /\
    reps c (co2After width height fans windows occupants outdoorCO2 n) /\
    reps v (virusAfter width height fans windows occupants n) /\
    reps t (tempAfter width height fans windows occupants outdoorTemp n).
Proof.
  unfold runSteps.
  destruct (computeVelocity_spec width height width_nz height_nz fans windows)
    as [vx0 [vy0 [EV [Hx0 Hy0]]]]; rewrite EV.
  destruct (forEach_seq_inv
    (timestep width height fans windows occupants outdoorCO2 outdoorTemp)
    (fun k st =>
       reps (fst (fst st)) (velocityX width height fans windows) /\
       reps (snd (fst st)) (velocityY width height fans windows) /\
       reps (fst (fst (snd st))) (co2After width height fans windows occupants outdoorCO2 k) /\
       reps (snd (fst (snd st))) (virusAfter width height fans windows occupants k) /\
       reps (snd (snd st)) (tempAfter width height fans windows occupants outdoorTemp k))
    n (vx0, vy0, (make2D rows cols (outdoorCO2 + 600), make2D rows cols 0.0,
                  make2D rows cols 21.0)))
    as [[[vx vy] [[c v] t]] [E I]].
  - simpl; repeat (split; [first [assumption | apply reps_make2D]|]); apply reps_make2D.
  - intros i [lastV [[c v] t]] Hi [_ [_ [Hc [Hv Ht]]]]; simpl in Hc, Hv, Ht.
    destruct (timestep_spec i lastV c v t _ _ _ Hc Hv Ht)
      as [vx [vy [c' [v' [t' [E H]]]]]].
    exists ((vx, vy), (c', v', t')); split; [exact E|exact H].
  - exists vx, vy, c, v, t; split; [exact E|exact I].
Qed.

End Run.

(** ** Packing *)

Lemma forEach_total {A St : Type} (body : A -> St -> option St) (l : list A) (s : St) :
  (forall e s, In e l -> exists s', body e s = Some s') ->
  exists s', forEach body l s = Some s'.
Proof.
  revert s; induction l as [|e l IH]; intros s H; simpl.
  - exists s; reflexivity.
  - destruct (H e s (or_introl eq_refl)) as [s1 E]; rewrite E.
    apply IH; intros; apply H; right; assumption.
Qed.

Lemma tally_snoc (cells : list Cell) (cell : Cell) :
  tally (cells ++ [cell]) = addCell (tally cells) cell.
Proof. unfold tally; rewrite fold_left_app; reflexivity. Qed.

Lemma tally_fields (cells : list Cell) :
  sumCO2 (tally cells) = sumList (map cell_co2 cells) /\
  accMaxCO2 (tally cells) = maxList (map cell_co2 cells) /\
  sumV (tally cells) = sumList (map cell_virus cells) /\
  accMaxV (tally cells) = maxList (map cell_virus cells) /\
  sumT (tally cells) = sumList (map cell_temp cells).
Proof.
  induction cells as [|cell cells IH] using rev_ind.
  - repeat split.
  - destruct IH as [H1 [H2 [H3 [H4 H5]]]].
    rewrite tally_snoc, !map_app; unfold sumList, maxList in *; rewrite !fold_left_app.
    simpl; rewrite H1, H2, H3, H4, H5; repeat split.
Qed.

Lemma pack_spec (c v t : Field) (gc gv gt : nat -> nat -> R) :
  reps c gc -> reps v gv -> reps t gt ->
  pack c v t = Some (cellsOf gc gv gt, tally (concat (cellsOf gc gv gt))).
Proof.
  intros Hc Hv Ht; unfold pack, cellsOf.
  set (cellAt := fun y x => mkCell (gc y x) (gv y x) (gt y x)).
  set (rowAt := fun y => map (cellAt y) (seq 0 cols)).
  destruct (forEach_seq_inv (packRow c v t)
    (fun y st => fst st = map rowAt (seq 0 y) /\ snd st = tally (concat (fst st)))
    rows ([], mkSums 0 0 0 0 0)) as [[grid a] [E [Hg Ha]]].
  - split; reflexivity.
  - intros y [grid a] Hy [Hg Ha]; simpl in Hg, Ha; unfold packRow.
    destruct (forEach_seq_inv (packCell c v t y)
      (fun x st => fst st = map (cellAt y) (seq 0 x) /\
                   snd st = fold_left addCell (fst st) a)
      cols ([], a)) as [[row a'] [E [Hr Ha']]].
    + split; reflexivity.
    + intros x [row a'] Hx [Hr Ha']; simpl in Hr, Ha'; unfold packCell.
      rewrite (reps_get _ _ _ _ Hc Hy Hx), (reps_get _ _ _ _ Hv Hy Hx),
              (reps_get _ _ _ _ Ht Hy Hx).
      eexists; split; [reflexivity|]; cbn [fst snd]; split.
      * rewrite seq_S, map_app, Hr; reflexivity.
      * rewrite fold_left_app, <- Ha'; reflexivity.
    + rewrite E; eexists; split; [reflexivity|]; cbn [fst snd] in *; split.
      * rewrite seq_S, map_app, Hg, Hr; reflexivity.
      * rewrite concat_app; simpl; rewrite app_nil_r.
        unfold tally; rewrite fold_left_app; fold (tally (concat grid)).
        rewrite <- Ha; exact Ha'.
  - rewrite E; simpl in Hg, Ha; subst grid; rewrite Ha; reflexivity.
Qed.

Lemma cellsOf_length (gc gv gt : nat -> nat -> R) :
  length (cellsOf gc gv gt) = rows /\
  (forall row, In row (cellsOf gc gv gt) -> length row = cols) /\
  length (concat (cellsOf gc gv gt)) = (rows * cols)%nat.
Proof.
  unfold cellsOf; split; [|split].
  - rewrite length_map, length_seq; reflexivity.
  - intros row H; apply in_map_iff in H; destruct H as [y [<- _]].
    rewrite length_map, length_seq; reflexivity.
  - assert (G : forall l : list nat,
      length (concat (map (fun y => map (fun x => mkCell (gc y x) (gv y x) (gt y x))
                                         (seq 0 cols)) l)) = (length l * cols)%nat).
    { induction l as [|y l IH]; [reflexivity|].
      cbn [map concat length]; rewrite length_app, length_map, length_seq, IH; lia. }
    rewrite G, length_seq; reflexivity.
Qed.

Lemma sampleArrows_total (vx vy : Field) (gx gy : nat -> nat -> R) :
  reps vx gx -> reps vy gy -> exists vectors, sampleArrows (vx, vy) = Some vectors.
Proof.
  intros Hx Hy; unfold sampleArrows.
  apply forEach_total; intros y s Iy.
  apply forEach_total; intros x s' Ix.
  assert (By : (y < rows)%nat).
  { apply in_map_iff in Iy; destruct Iy as [k [<- Hk]]; apply in_seq in Hk.
    change ((rows + 4 - 1) / 4)%nat with 7%nat in Hk; unfold rows; lia. }
  assert (Bx : (x < cols)%nat).
  { apply in_map_iff in Ix; destruct Ix as [k [<- Hk]]; apply in_seq in Hk.
    change ((cols + 4 - 1) / 4)%nat with 11%nat in Hk; unfold cols; lia. }
  unfold fst, snd.
  rewrite (reps_get _ _ _ _ Hx By Bx), (reps_get _ _ _ _ Hy By Bx).
  eexists; reflexivity.
Qed.

Section Whole.

Variables width height : R.
Hypothesis width_nz : width <> 0.
Hypothesis height_nz : height <> 0.
Variable fans : list Fan.
Variable windows : list Window.
Variable occupants : list Occupant.
Variables outdoorCO2 outdoorTemp : R.

(** The whole run: it returns, its grid packs the fields of the fortieth
    timestep, and its statistics are the accumulators of the packing loop
    over that grid. *)
Lemma simulateWith_spec :
  let cells := cellsOf (co2After width height fans windows occupants outdoorCO2 STEPS)
                       (virusAfter width height fans windows occupants STEPS)
                       (tempAfter width height fans windows occupants outdoorTemp STEPS) in
  let a := tally (concat cells) in
  exists vectors,
    simulateWith width height fans windows occupants outdoorCO2 outdoorTemp
    = Some (mkResult cells vectors
              (mkStats (sumCO2 a / INR (rows * cols)) (accMaxCO2 a)
                       (sumV a / INR (rows * cols)) (accMaxV a)
                       (sumT a / INR (rows * cols)))
              (mkMeta rows cols outdoorCO2 outdoorTemp)).
Proof.
  intros cells a; unfold simulateWith.
  destruct (runSteps_spec width height width_nz height_nz fans windows occupants
              outdoorCO2 outdoorTemp STEPS)
    as [vx [vy [c [v [t [E [Hx [Hy [Hc [Hv Ht]]]]]]]]]]; rewrite E.
  rewrite (pack_spec c v t _ _ _ Hc Hv Ht).
  destruct (sampleArrows_total vx vy _ _ Hx Hy) as [vectors EA]; rewrite EA.
  exists vectors; reflexivity.
Qed.

End Whole.

(** * The claims *)

(** ** Sampling at a cell *)

Lemma get2_bounds (a : Field) (y x : nat) (v : R) :
  rectangular a -> get2 a y x = Some v ->
  (y < length a)%nat /\ (x < length (hd [] a))%nat.
Proof.
  intros Hr H; unfold get2 in H.
  destruct (nth_error a y) as [row|] eqn:E; [|discriminate].
  assert (Hy : (y < length a)%nat) by (apply nth_error_Some; congruence).
  split; [exact Hy|].
  rewrite <- (Hr row) by (eapply nth_error_In; eauto).
  apply nth_error_Some; congruence.
Qed.

Lemma rectangular_holds (a : Field) (y x : nat) :
  rectangular a -> (y < length a)%nat -> (x < length (hd [] a))%nat ->
  get2 a y x = Some (nth x (nth y a []) 0).
Proof.
  intros Hr Hy Hx; unfold get2.
  rewrite (nth_error_nth' a [] Hy).
  apply nth_error_nth'.
  rewrite (Hr (nth y a [])) by (apply nth_In; assumption); exact Hx.
Qed.

(** C6.  Bilinear sampling at an integer coordinate inside the grid returns
    the value stored at that cell: for every field whose rows have one
    length and every cell [(y, x)] that holds [v], [sampleScalar] at
    [(x, y)] is [v]. *)
Theorem sampleScalar_at_cell (a : Field) (y x : nat) (v : R) :
  rectangular a -> get2 a y x = Some v ->
  sampleScalar a (INR x) (INR y) = Some v.
Proof.
  intros Hr H.
  destruct (get2_bounds a y x v Hr H) as [Hy Hx].
  rewrite (sampleScalar_on (length a) (length (hd [] a)) ltac:(lia) ltac:(lia)
             a (fun y x => nth x (nth y a []) 0) eq_refl Hr
             (fun y x Hy Hx => rectangular_holds a y x Hr Hy Hx)).
  rewrite bilinearOn_integer by assumption.
  rewrite (rectangular_holds a y x Hr Hy Hx) in H; exact H.
Qed.

Lemma sampleScalar_at_cell_witness :
  sampleScalar [[1; 2; 3]; [4; 5; 6]] (INR 2) (INR 1) = Some 6.
Proof.
  apply sampleScalar_at_cell.
  - intros row [<-|[<-|[]]]; reflexivity.
  - reflexivity.
Defined.

(** ** The nearest wall *)

Lemma Rleb_true (a b : R) : a <= b -> Rleb a b = true.
Proof. intros H; unfold Rleb; destruct (Rle_dec a b); [reflexivity|contradiction]. Qed.

Lemma Rleb_false (a b : R) : b < a -> Rleb a b = false.
Proof. intros H; unfold Rleb; destruct (Rle_dec a b); [lra|reflexivity]. Qed.

Lemma Rleb_spec (a b : R) : Bool.reflect (a <= b) (Rleb a b).
Proof. unfold Rleb; destruct (Rle_dec a b); constructor; assumption. Qed.

Lemma min4_below (a b c d : R) :
  Rmin (Rmin (Rmin a b) c) d <= a /\ Rmin (Rmin (Rmin a b) c) d <= b /\
  Rmin (Rmin (Rmin a b) c) d <= c /\ Rmin (Rmin (Rmin a b) c) d <= d.
Proof.
  pose proof (Rmin_l a b); pose proof (Rmin_r a b).
  pose proof (Rmin_l (Rmin a b) c); pose proof (Rmin_r (Rmin a b) c).
  pose proof (Rmin_l (Rmin (Rmin a b) c) d); pose proof (Rmin_r (Rmin (Rmin a b) c) d).
  repeat split; lra.
Qed.

Lemma min4_first (a b c d : R) :
  Rmin (Rmin (Rmin a b) c) d = a <-> a <= b /\ a <= c /\ a <= d.
Proof.
  pose proof (min4_below a b c d) as [Ha [Hb [Hc Hd]]]; split.
  - intros E; rewrite E in Ha, Hb, Hc, Hd; repeat split; assumption.
  - intros [H1 [H2 H3]]; rewrite (Rmin_left a b), (Rmin_left a c), (Rmin_left a d); auto.
Qed.

Lemma min4_second (a b c d : R) :
  Rmin (Rmin (Rmin a b) c) d = b <-> b <= a /\ b <= c /\ b <= d.
Proof.
  pose proof (min4_below a b c d) as [Ha [Hb [Hc Hd]]]; split.
  - intros E; rewrite E in Ha, Hb, Hc, Hd; repeat split; assumption.
  - intros [H1 [H2 H3]]; rewrite (Rmin_right a b), (Rmin_left b c), (Rmin_left b d); auto.
Qed.

Lemma min4_third (a b c d : R) :
  Rmin (Rmin (Rmin a b) c) d = c <-> c <= a /\ c <= b /\ c <= d.
Proof.
  pose proof (min4_below a b c d) as [Ha [Hb [Hc Hd]]]; split.
  - intros E; rewrite E in Ha, Hb, Hc, Hd; repeat split; assumption.
  - intros [H1 [H2 H3]]; rewrite (Rmin_right (Rmin a b) c), (Rmin_left c d); auto.
    apply Rmin_glb; assumption.
Qed.

Lemma Rleb3 (a b c d : R) :
  Rleb a b && Rleb a c && Rleb a d = true <-> a <= b /\ a <= c /\ a <= d.
Proof.
  destruct (Rleb_spec a b), (Rleb_spec a c), (Rleb_spec a d); simpl; split;
    intros H; try discriminate; try reflexivity; tauto.
Qed.

(** C7.  The wall of a window is the nearest of the four walls, by the
    distances of the window centre to the left, right, top and bottom walls;
    when several are as near, left wins over right, right over top and top
    over bottom.  The direction injected is the one pointing inwards from
    that wall. *)
Theorem wallDir_nearest_left_first (width height wx wy : R) :
  wallDir width height wx wy = nearestWallDir width height wx wy.
Proof.
  unfold wallDir, nearestWallDir; cbv zeta.
  generalize (width - wx) as dr, (height - wy) as db; intros dr db.
  destruct (Req_dec_T _ wx) as [E|N].
  - apply min4_first in E; apply Rleb3 in E; rewrite E; reflexivity.
  - rewrite min4_first, <- Rleb3 in N; apply not_true_is_false in N; rewrite N.
    destruct (Req_dec_T _ dr) as [E1|N1].
    + apply min4_second in E1; apply Rleb3 in E1; rewrite E1; reflexivity.
    + rewrite min4_second, <- Rleb3 in N1; apply not_true_is_false in N1; rewrite N1.
      destruct (Req_dec_T _ wy) as [E2|N2].
      * apply min4_third in E2; apply Rleb3 in E2; rewrite E2; reflexivity.
      * rewrite min4_third, <- Rleb3 in N2; apply not_true_is_false in N2; rewrite N2.
        reflexivity.
Qed.

(** ** The open fraction of a window *)

Lemma openFraction_range (open : jsnum) : 0 <= openFraction open <= 1.
Proof.
  destruct open; simpl; try lra.
  apply clamp_bounds; lra.
Qed.



(** ** The push of a fan *)

(** C5, as the code has it.  A fan adds to the velocity at each cell the
    vector whose x (resp. y) component is
    [(offset / (dx * dx + dy * dy + 6)) * FAN_STRENGTH * strength], [offset] being
    the x (resp. y) offset of the cell from the fan: the two components share
    the denominator, which holds both offsets. *)
Theorem fan_push_radial (width height : R) (f : Fan) (vx vy : Field)
        (gx gy : nat -> nat -> R) :
  width <> 0 -> height <> 0 -> reps vx gx -> reps vy gy ->
  exists vx' vy',
    fanPush width height f (vx, vy) = Some (vx', vy') /\
    forall y x, (y < rows)%nat -> (x < cols)%nat ->
      let dx := INR x - orZero (fan_x f) / width * (INR cols - 1) in
      let dy := INR y - orZero (fan_y f) / height * (INR rows - 1) in
      let strength := ifFinite (fan_strength f) (fun s => s) 1 in
      get2 vx' y x
      = Some (gx y x + dx / (dx * dx + dy * dy + 6) * FAN_STRENGTH * strength) /\
      get2 vy' y x
      = Some (gy y x + dy / (dx * dx + dy * dy + 6) * FAN_STRENGTH * strength).
Proof.
  intros Hw Hh Hx Hy.
  destruct (fanPush_spec width height Hw Hh f vx vy gx gy Hx Hy)
    as [vx' [vy' [E [Hx' Hy']]]].
  exists vx', vy'; split; [exact E|].
  intros y x By Bx; cbv zeta.
  rewrite (reps_get _ _ _ _ Hx' By Bx), (reps_get _ _ _ _ Hy' By Bx).
  unfold fanVelocity, gridX, gridY; simpl fst; simpl snd.
  replace 1.0 with 1 by lra; split; reflexivity.
Qed.

Lemma fan_push_radial_witness :
  let f := mkFan (Some 0) (Some 0) (JNum 1) in
  let zero := make2D rows cols 0 in
  exists vx' vy',
    fanPush 800 500 f (zero, zero) = Some (vx', vy') /\
    forall y x, (y < rows)%nat -> (x < cols)%nat ->
      let dx := INR x - orZero (fan_x f) / 800 * (INR cols - 1) in
      let dy := INR y - orZero (fan_y f) / 500 * (INR rows - 1) in
      let strength := ifFinite (fan_strength f) (fun s => s) 1 in
      get2 vx' y x
      = Some (0 + dx / (dx * dx + dy * dy + 6) * FAN_STRENGTH * strength) /\
      get2 vy' y x
      = Some (0 + dy / (dx * dx + dy * dy + 6) * FAN_STRENGTH * strength).
Proof.
  intros f zero.
  apply (fan_push_radial 800 500 f zero zero (fun _ _ => 0) (fun _ _ => 0)).
  - lra.
  - lra.
  - apply reps_make2D.
  - apply reps_make2D.
Defined.

(** C5 as stated fails.  A fan at the corner of an 800 by 500 room, cell
    [(1, 1)]: both offsets are 1, the code adds [1 / 8 * 2.8] to the x
    component, and the stated formula gives [1 / 7 * 2.8]. *)
Lemma fan_push_not_per_axis :
  let f := mkFan (Some 0) (Some 0) (JNum 1) in
  let zero := make2D rows cols 0 in
  exists vx vy,
    fanPush 800 500 f (zero, zero) = Some (vx, vy) /\
    get2 vx 1 1 = Some (1 / (1 * 1 + 1 * 1 + 6) * FAN_STRENGTH * 1) /\
    get2 vx 1 1 <> Some (1 / (1 * 1 + 6) * FAN_STRENGTH * 1).
Proof.
  intros f zero.
  destruct (fanPush_spec 800 500 ltac:(lra) ltac:(lra) f zero zero _ _
              (reps_make2D 0) (reps_make2D 0)) as [vx [vy [E [Hx _]]]].
  exists vx, vy; split; [exact E|].
  assert (G : get2 vx 1 1 = Some (1 / (1 * 1 + 1 * 1 + 6) * FAN_STRENGTH * 1)).
  { rewrite (reps_get _ _ 1%nat 1%nat Hx) by (unfold rows, cols; lia).
    f_equal; unfold fanVelocity, gridX, gridY, f; simpl; lra. }
  split; [exact G|].
  rewrite G; intros H; injection H; unfold FAN_STRENGTH; lra.
Qed.

(** ** The band of a window *)

Lemma inBand_wider (width height h1 h2 : R) (win : Window) (y x : nat) :
  h1 <= h2 -> inBand width height h1 win y x = true ->
  inBand width height h2 win y x = true.
Proof.
  unfold inBand; intros H B; apply andb_true_iff in B; destruct B as [B1 B2].
  rewrite B1; simpl.
  destruct (Rleb_spec (Rabs (INR y - gridY height (orZero (win_y win)))) h1);
    [|discriminate].
  apply Rleb_true; lra.
Qed.



Lemma Rabs_le_iff (a b : R) : Rabs a <= b <-> - b <= a <= b.
Proof.
  unfold Rabs; destruct (Rcase_abs a); split; intros; lra.
Qed.

Lemma Rabs_above (a b : R) : a < - b -> b < Rabs a.
Proof.
  unfold Rabs; destruct (Rcase_abs a); intros; lra.
Qed.


(** ** The statistics *)

(** The rule of the counting loop for a run that returns. *)
Lemma forEach_seq_post_from {St : Type} (body : nat -> St -> option St)
      (Inv : nat -> St -> Prop) (n a : nat) (s0 s' : St) :
  Inv a s0 ->
  (forall i s s1, (a <= i < a + n)%nat -> Inv i s -> body i s = Some s1 -> Inv (S i) s1) ->
  forEach body (seq a n) s0 = Some s' -> Inv (a + n)%nat s'.
Proof.
  revert a s0; induction n as [|n IH]; intros a s0 H0 Hstep E; simpl in E.
  - injection E as <-; rewrite Nat.add_0_r; exact H0.
  - destruct (body a s0) as [s1|] eqn:E1; [|discriminate].
    replace (a + S n)%nat with (S a + n)%nat by lia.
    apply (IH (S a) s1); [apply (Hstep a s0); auto; lia| |exact E].
    intros i s s2 Hi; apply Hstep; lia.
Qed.

Lemma forEach_seq_post {St : Type} (body : nat -> St -> option St)
      (Inv : nat -> St -> Prop) (n : nat) (s0 s' : St) :
  Inv O s0 ->
  (forall i s s1, (i < n)%nat -> Inv i s -> body i s = Some s1 -> Inv (S i) s1) ->
  forEach body (seq 0 n) s0 = Some s' -> Inv n s'.
Proof.
  intros H0 Hstep E.
  apply (forEach_seq_post_from body Inv n O s0 s' H0); [|exact E].
  intros i s s1 Hi; apply Hstep; lia.
Qed.

(** Whatever the fields, a packing loop that returns has counted every cell
    it packed. *)
Lemma pack_post (c v t : Field) (grid : list (list Cell)) (a : Sums) :
  pack c v t = Some (grid, a) ->
  a = tally (concat grid) /\ length (concat grid) = (rows * cols)%nat.
Proof.
  intros E; unfold pack in E.
  apply (forEach_seq_post (packRow c v t)
    (fun y st => snd st = tally (concat (fst st)) /\
                 length (concat (fst st)) = (y * cols)%nat)
    rows ([], mkSums 0 0 0 0 0) (grid, a)) in E;
    [exact E|split; reflexivity|].
  intros y [g0 a0] [g1 a1] Hy [Ha Hl] Er; cbn [fst snd] in *.
  unfold packRow in Er.
  destruct (forEach (packCell c v t y) (seq 0 cols) ([], a0)) as [[row a']|] eqn:Ec;
    [|discriminate].
  injection Er as <- <-.
  apply (forEach_seq_post (packCell c v t y)
    (fun x st => snd st = fold_left addCell (fst st) a0 /\ length (fst st) = x)
    cols ([], a0) (row, a')) in Ec; [|split; reflexivity|].
  - destruct Ec as [Ha' Hr]; cbn [fst snd] in *.
    rewrite concat_app, length_app; cbn [concat]; rewrite app_nil_r, Hl, Hr.
    split; [|lia].
    unfold tally; rewrite fold_left_app; fold (tally (concat g0)).
    rewrite <- Ha; exact Ha'.
  - intros x [r0 b0] [r1 b1] Hx [Hb Hr] Ex; cbn [fst snd] in *.
    unfold packCell in Ex.
    destruct (get2 c y x), (get2 v y x), (get2 t y x); try discriminate.
    injection Ex as <- <-.
    rewrite fold_left_app, length_app, <- Hb, Hr; split; [reflexivity|simpl; lia].
Qed.

Lemma simulate_unfold (input : Input) :
  simulate input
  = simulateWith (roomWidth input) (roomHeight input)
                 (orEmpty (in_fans input)) (orEmpty (in_windows input))
                 (orEmpty (in_occupants input))
                 (outdoorCO2Of input) (outdoorTempOf input).
Proof. reflexivity. Qed.

(** C3.  In every result of the simulation, [avgCO2], [avgVirus] and
    [avgTemp] are the arithmetic means of the CO2, virus and temperature of
    the cells of the returned grid: their sum divided by the number of cells,
    which is [rows * cols]. *)
Theorem stats_are_means (input : Input) (res : Result) :
  simulate input = Some res ->
  let cells := concat (grid res) in
  length cells = (rows * cols)%nat /\
  avgCO2 (stats res) = mean (map cell_co2 cells) /\
  avgVirus (stats res) = mean (map cell_virus cells) /\
  avgTemp (stats res) = mean (map cell_temp cells).
Proof.
  rewrite simulate_unfold; unfold simulateWith; intros E.
  destruct (runSteps _ _ _ _ _ _ _ _) as [[lastV [[c v] t]]|]; [|discriminate].
  destruct (pack c v t) as [[g a]|] eqn:Ep; [|discriminate].
  destruct (sampleArrows lastV) as [vectors|]; [|discriminate].
  injection E as <-; cbn [grid stats avgCO2 avgVirus avgTemp].
  destruct (pack_post c v t g a Ep) as [-> Hl].
  destruct (tally_fields (concat g)) as [H1 [_ [H3 [_ H5]]]].
  unfold mean; rewrite !length_map, Hl, H1, H3, H5; auto.
Qed.

Lemma stats_are_means_witness :
  let input := mkInput JAbsent JAbsent None None None None in
  exists res,
    simulate input = Some res /\
    length (concat (grid res)) = (rows * cols)%nat /\
    avgCO2 (stats res) = mean (map cell_co2 (concat (grid res))) /\
    avgVirus (stats res) = mean (map cell_virus (concat (grid res))) /\
    avgTemp (stats res) = mean (map cell_temp (concat (grid res))).
Proof.
  intros input.
  destruct (simulateWith_spec 800 500 ltac:(lra) ltac:(lra) [] [] [] 420 10)
    as [vectors E].
  eexists; split; [exact E|].
  exact (stats_are_means input _ E).
Defined.

(** ** The ranges of the fields *)

Lemma in_cellsOf (gc gv gt : nat -> nat -> R) (row : list Cell) (cell : Cell) :
  In row (cellsOf gc gv gt) -> In cell row ->
  exists y x, (y < rows)%nat /\ (x < cols)%nat /\
              cell = mkCell (gc y x) (gv y x) (gt y x).
Proof.
  unfold cellsOf; intros Hr Hc.
  apply in_map_iff in Hr; destruct Hr as [y [<- Hy]].
  apply in_map_iff in Hc; destruct Hc as [x [<- Hx]].
  apply in_seq in Hy; apply in_seq in Hx.
  exists y, x; repeat split; lia.
Qed.

Lemma in_concat_cellsOf (gc gv gt : nat -> nat -> R) (cell : Cell) :
  In cell (concat (cellsOf gc gv gt)) ->
  exists y x, (y < rows)%nat /\ (x < cols)%nat /\
              cell = mkCell (gc y x) (gv y x) (gt y x).
Proof.
  intros H; apply in_concat in H; destruct H as [row [Hr Hc]].
  apply (in_cellsOf gc gv gt row cell Hr Hc).
Qed.

Lemma stateAfter_spec (input : Input) (n : nat) :
  roomWidth input <> 0 -> roomHeight input <> 0 ->
  exists vx vy c v t,
    stateAfter input n = Some ((vx, vy), (c, v, t)) /\
    reps c (co2After (roomWidth input) (roomHeight input) (orEmpty (in_fans input))
              (orEmpty (in_windows input)) (orEmpty (in_occupants input))
              (outdoorCO2Of input) n) /\
    reps v (virusAfter (roomWidth input) (roomHeight input) (orEmpty (in_fans input))
              (orEmpty (in_windows input)) (orEmpty (in_occupants input)) n) /\
    reps t (tempAfter (roomWidth input) (roomHeight input) (orEmpty (in_fans input))
              (orEmpty (in_windows input)) (orEmpty (in_occupants input))
              (outdoorTempOf input) n).
Proof.
  intros Hw Hh; unfold stateAfter.
  destruct (runSteps_spec _ _ Hw Hh (orEmpty (in_fans input)) (orEmpty (in_windows input))
              (orEmpty (in_occupants input)) (outdoorCO2Of input) (outdoorTempOf input) n)
    as [vx [vy [c [v [t [E [_ [_ H]]]]]]]].
  exists vx, vy, c, v, t; split; [exact E|exact H].
Qed.

Lemma simulate_spec (input : Input) :
  roomWidth input <> 0 -> roomHeight input <> 0 ->
  exists res,
    simulate input = Some res /\
    grid res
    = cellsOf (co2After (roomWidth input) (roomHeight input) (orEmpty (in_fans input))
                 (orEmpty (in_windows input)) (orEmpty (in_occupants input))
                 (outdoorCO2Of input) STEPS)
              (virusAfter (roomWidth input) (roomHeight input) (orEmpty (in_fans input))
                 (orEmpty (in_windows input)) (orEmpty (in_occupants input)) STEPS)
              (tempAfter (roomWidth input) (roomHeight input) (orEmpty (in_fans input))
                 (orEmpty (in_windows input)) (orEmpty (in_occupants input))
                 (outdoorTempOf input) STEPS) /\
    avgCO2 (stats res) = sumList (map cell_co2 (concat (grid res))) / INR (rows * cols) /\
    maxCO2 (stats res) = maxList (map cell_co2 (concat (grid res))) /\
    avgVirus (stats res) = sumList (map cell_virus (concat (grid res))) / INR (rows * cols) /\
    maxVirus (stats res) = maxList (map cell_virus (concat (grid res))) /\
    avgTemp (stats res) = sumList (map cell_temp (concat (grid res))) / INR (rows * cols).
Proof.
  intros Hw Hh; rewrite simulate_unfold.
  destruct (simulateWith_spec _ _ Hw Hh (orEmpty (in_fans input))
              (orEmpty (in_windows input)) (orEmpty (in_occupants input))
              (outdoorCO2Of input) (outdoorTempOf input)) as [vectors E].
  rewrite E; eexists; split; [reflexivity|].
  cbn [grid stats avgCO2 maxCO2 avgVirus maxVirus avgTemp].
  split; [reflexivity|].
  match goal with |- context [tally ?l] =>
    destruct (tally_fields l) as [H1 [H2 [H3 [H4 H5]]]] end.
  rewrite H1, H2, H3, H4, H5; repeat split.
Qed.

(** C2, as the code has it.  On an input of moderate size with an outdoor CO2
    of at most 5000, the simulation runs every timestep, and after each of
    them, as in the grid it returns, every cell has its CO2 in
    [outdoorCO2, 5000], its virus in [0, 1000] and its temperature in
    [-10, 40].  The bound on the outdoor CO2 is what the clamp needs; the
    moderate size is what keeps the run of the source among the finite
    numbers, where a fan far outside the room gives [NaN] in every cell. *)
Theorem fields_in_range (input : Input) :
  moderate input -> outdoorCO2Of input <= 5000 ->
  (forall n, (1 <= n <= STEPS)%nat ->
     exists lastV c v t,
       stateAfter input n = Some (lastV, (c, v, t)) /\
       forall y x, (y < rows)%nat -> (x < cols)%nat ->
         exists kc kv kt,
           get2 c y x = Some kc /\ get2 v y x = Some kv /\ get2 t y x = Some kt /\
           cellInRange (outdoorCO2Of input) (mkCell kc kv kt)) /\
  (exists res,
     simulate input = Some res /\
     forall row cell, In row (grid res) -> In cell row ->
       cellInRange (outdoorCO2Of input) cell).
Proof.
  intros M Hco2; destruct (moderate_dims input M) as [Hw Hh].
  assert (R : forall n y x, (1 <= n)%nat ->
    cellInRange (outdoorCO2Of input)
      (mkCell (co2After (roomWidth input) (roomHeight input) (orEmpty (in_fans input))
                 (orEmpty (in_windows input)) (orEmpty (in_occupants input))
                 (outdoorCO2Of input) n y x)
              (virusAfter (roomWidth input) (roomHeight input) (orEmpty (in_fans input))
                 (orEmpty (in_windows input)) (orEmpty (in_occupants input)) n y x)
              (tempAfter (roomWidth input) (roomHeight input) (orEmpty (in_fans input))
                 (orEmpty (in_windows input)) (orEmpty (in_occupants input))
                 (outdoorTempOf input) n y x))).
  { intros [|n] y x Hn; [lia|].
    unfold cellInRange, co2After, virusAfter, tempAfter; cbn [Nat.iter cell_co2 cell_virus cell_temp].
    unfold evolve at 1 3 5; cbv zeta.
    repeat split; apply clamp_bounds; lra. }
  split.
  - intros n [Hn _].
    destruct (stateAfter_spec input n Hw Hh) as [vx [vy [c [v [t [E [Hc [Hv Ht]]]]]]]].
    exists (vx, vy), c, v, t; split; [exact E|].
    intros y x By Bx.
    rewrite (reps_get _ _ _ _ Hc By Bx), (reps_get _ _ _ _ Hv By Bx),
            (reps_get _ _ _ _ Ht By Bx).
    do 3 eexists; repeat (split; [reflexivity|]); apply R; exact Hn.
  - destruct (simulate_spec input Hw Hh) as [res [E [G _]]].
    exists res; split; [exact E|].
    intros row cell Hr Hcell; rewrite G in Hr.
    destruct (in_cellsOf _ _ _ row cell Hr Hcell) as [y [x [_ [_ ->]]]].
    apply R; unfold STEPS; lia.
Qed.

Lemma fields_in_range_witness :
  let input := mkInput (JNum 800) (JNum 500)
                 (Some [mkFan (Some 100) (Some 50) JAbsent])
                 (Some [mkWindow (Some 0) (Some 250) JAbsent (JNum 1)])
                 (Some [mkOccupant (Some 400) (Some 250) (JNum 1)]) None in
  (forall n, (1 <= n <= STEPS)%nat ->
     exists lastV c v t,
       stateAfter input n = Some (lastV, (c, v, t)) /\
       forall y x, (y < rows)%nat -> (x < cols)%nat ->
         exists kc kv kt,
           get2 c y x = Some kc /\ get2 v y x = Some kv /\ get2 t y x = Some kt /\
           cellInRange (outdoorCO2Of input) (mkCell kc kv kt)) /\
  (exists res,
     simulate input = Some res /\
     forall row cell, In row (grid res) -> In cell row ->
       cellInRange (outdoorCO2Of input) cell).
Proof.
  intros input; apply (fields_in_range input).
  - subst input; moderate_holds.
  - unfold input, outdoorCO2Of, outdoorOf, CO2_LIMITS_outdoor; simpl; lra.
Defined.

(** C2 as stated fails.  With an outdoor CO2 of 6000 and nothing else in the
    input, every cell of the returned grid holds a CO2 of 6000: the clamp
    [max(6000, min(5000, v))] is 6000, above the bound 5000. *)
Lemma co2_above_5000 :
  let input := mkInput JAbsent JAbsent None None None
                       (Some (mkOutdoor (JNum 6000) JAbsent)) in
  exists res,
    simulate input = Some res /\
    length (concat (grid res)) = (rows * cols)%nat /\
    forall row cell, In row (grid res) -> In cell row ->
      cell_co2 cell = 6000 /\ ~ cellInRange 6000 cell.
Proof.
  intros input.
  destruct (simulate_spec input) as [res [E [G _]]].
  - unfold input, roomWidth; simpl; lra.
  - unfold input, roomHeight; simpl; lra.
  - exists res; split; [exact E|]; rewrite G; split; [apply cellsOf_length|].
    intros row cell Hr Hc.
    destruct (in_cellsOf _ _ _ row cell Hr Hc) as [y [x [_ [_ ->]]]].
    assert (V : forall w, clamp w 6000 5000 = 6000).
    { intros w; unfold clamp, Rmax; destruct (Rle_dec 6000 (Rmin 5000 w)) as [L|_];
        [|reflexivity].
      pose proof (Rmin_l 5000 w); lra. }
    assert (C : cell_co2 (mkCell
      (co2After (roomWidth input) (roomHeight input) (orEmpty (in_fans input))
         (orEmpty (in_windows input)) (orEmpty (in_occupants input))
         (outdoorCO2Of input) STEPS y x)
      (virusAfter (roomWidth input) (roomHeight input) (orEmpty (in_fans input))
         (orEmpty (in_windows input)) (orEmpty (in_occupants input)) STEPS y x)
      (tempAfter (roomWidth input) (roomHeight input) (orEmpty (in_fans input))
         (orEmpty (in_windows input)) (orEmpty (in_occupants input))
         (outdoorTempOf input) STEPS y x)) = 6000).
    { cbn [cell_co2]; unfold co2After, STEPS; cbn [Nat.iter].
      unfold evolve at 1; cbv zeta.
      replace (outdoorCO2Of input) with 6000 by reflexivity. apply V. }
    split; [exact C|].
    unfold cellInRange; rewrite C; lra.
Qed.

(** ** A room with occupants and no fan or window *)

Lemma sumList_from (l : list R) (c : R) : fold_left Rplus l c = c + sumList l.
Proof.
  unfold sumList; revert c; induction l as [|v l IH]; intros c; simpl; [lra|].
  rewrite (IH (c + v)), (IH (0 + v)); lra.
Qed.

Lemma sumList_cons (v : R) (l : list R) : sumList (v :: l) = v + sumList l.
Proof. unfold sumList; simpl; rewrite sumList_from; unfold sumList; lra. Qed.

Lemma sumList_lower (lo : R) (l : list R) :
  (forall v, In v l -> lo <= v) -> lo * INR (length l) <= sumList l.
Proof.
  induction l as [|v l IH]; intros H.
  - unfold sumList; simpl; lra.
  - rewrite sumList_cons; change (length (v :: l)) with (S (length l)); rewrite S_INR.
    pose proof (H v (or_introl eq_refl)).
    pose proof (IH (fun w Hw => H w (or_intror Hw))); lra.
Qed.

Lemma sumList_upper (hi : R) (l : list R) :
  (forall v, In v l -> v <= hi) -> sumList l <= hi * INR (length l).
Proof.
  induction l as [|v l IH]; intros H.
  - unfold sumList; simpl; lra.
  - rewrite sumList_cons; change (length (v :: l)) with (S (length l)); rewrite S_INR.
    pose proof (H v (or_introl eq_refl)).
    pose proof (IH (fun w Hw => H w (or_intror Hw))); lra.
Qed.

Lemma sumList_above (lo : R) (l : list R) :
  l <> [] -> (forall v, In v l -> lo < v) -> lo * INR (length l) < sumList l.
Proof.
  destruct l as [|v l]; intros N H; [contradiction|].
  rewrite sumList_cons; change (length (v :: l)) with (S (length l)); rewrite S_INR.
  pose proof (H v (or_introl eq_refl)).
  pose proof (sumList_lower lo l (fun w Hw => Rlt_le _ _ (H w (or_intror Hw)))); lra.
Qed.

Lemma maxList_from (l : list R) (m : R) :
  m <= fold_left (fun m c => if Rltb m c then c else m) l m /\
  forall v, In v l -> v <= fold_left (fun m c => if Rltb m c then c else m) l m.
Proof.
  revert m; induction l as [|w l IH]; intros m; simpl.
  - split; [lra|intros v []].
  - destruct (IH (if Rltb m w then w else m)) as [H1 H2].
    assert (B : m <= (if Rltb m w then w else m) /\ w <= (if Rltb m w then w else m)).
    { unfold Rltb; destruct (Rlt_dec m w); lra. }
    split; [lra|].
    intros v [<-|Hv]; [lra|apply H2; exact Hv].
Qed.

Lemma maxList_ge (l : list R) (v : R) : In v l -> v <= maxList l.
Proof. intros H; apply (proj2 (maxList_from l 0)); exact H. Qed.

Section Still.

Variables width height : R.
Variable occupants : list Occupant.

Lemma no_flow_X (y x : nat) : velocityX width height [] [] y x = 0.
Proof. reflexivity. Qed.

Lemma no_flow_Y (y x : nat) : velocityY width height [] [] y x = 0.
Proof. reflexivity. Qed.

(** In still air the advection leaves every cell as it is. *)
Lemma advect_still (g : nat -> nat -> R) (y x : nat) :
  (y < rows)%nat -> (x < cols)%nat ->
  advectAt g (velocityX width height [] []) (velocityY width height [] []) y x = g y x.
Proof.
  intros Hy Hx; unfold advectAt; rewrite no_flow_X, no_flow_Y.
  replace (INR x - 0 * ADVECT) with (INR x) by lra.
  replace (INR y - 0 * ADVECT) with (INR y) by lra.
  apply bilinear_integer; assumption.
Qed.

Lemma diffuse_lower (g : nat -> nat -> R) (lo : R) (y x : nat) :
  (forall y x, (y < rows)%nat -> (x < cols)%nat -> lo <= g y x) ->
  (y < rows)%nat -> (x < cols)%nat -> lo <= diffuseAt g y x.
Proof.
  intros H Hy Hx; unfold diffuseAt, lerp, DIFF; cbv zeta.
  pose proof (H y x Hy Hx).
  pose proof (H (Nat.pred y) x ltac:(lia) Hx).
  pose proof (H (Nat.min (S y) (rows - 1)) x ltac:(unfold rows; lia) Hx).
  pose proof (H y (Nat.pred x) Hy ltac:(lia)).
  pose proof (H y (Nat.min (S x) (cols - 1)) Hy ltac:(unfold cols; lia)).
  lra.
Qed.

Lemma intensityOf_pos (p : Occupant) : 0 < intensityOf p.
Proof.
  unfold intensityOf; destruct (occ_intensity p); simpl; try lra.
  pose proof (clamp_bounds r 0.2 3.0 ltac:(lra)); lra.
Qed.

Lemma emission_pos (emit : R) (p : Occupant) (y x : nat) :
  0 < emit -> 0 < emit * intensityOf p * occupantWeight width height p y x.
Proof.
  intros H; apply Rmult_lt_0_compat; [apply Rmult_lt_0_compat|];
    [exact H|apply intensityOf_pos|apply exp_pos].
Qed.

Lemma emit_raises (emit : R) (g : nat -> nat -> R) (y x : nat) :
  0 < emit ->
  g y x <= emitAt width height emit occupants g y x /\
  (occupants <> [] -> g y x < emitAt width height emit occupants g y x).
Proof.
  intros He; unfold emitAt; generalize (g y x) as c.
  induction occupants as [|p ps IH]; intros c; simpl.
  - split; [lra|intros N; contradiction].
  - pose proof (emission_pos emit p y x He).
    destruct (IH (c + emit * intensityOf p * occupantWeight width height p y x)) as [H1 _].
    split; [lra|intros _; lra].
Qed.

(** One timestep in a room with no fan and no window keeps a lower bound
    that is under the ceiling of the clamp, and with an occupant lifts every
    cell above it. *)
Lemma evolve_still_lower (emit target : R) (factor : Window -> R) (lo hi b : R)
      (g : nat -> nat -> R) (y x : nat) :
  0 < emit -> lo <= b -> b < hi ->
  (forall y x, (y < rows)%nat -> (x < cols)%nat -> b <= g y x) ->
  (y < rows)%nat -> (x < cols)%nat ->
  b <= evolve width height [] [] occupants emit target factor lo hi g y x <= hi /\
  (occupants <> [] ->
   b < evolve width height [] [] occupants emit target factor lo hi g y x).
Proof.
  intros He Hlo Hhi H Hy Hx; unfold evolve; cbv zeta.
  unfold sinkAt; cbn [fold_left].
  set (g1 := advectAt g (velocityX width height [] []) (velocityY width height [] [])).
  assert (H1 : forall y x, (y < rows)%nat -> (x < cols)%nat -> b <= g1 y x).
  { intros y' x' Hy' Hx'; unfold g1; rewrite advect_still by assumption; auto. }
  pose proof (diffuse_lower g1 b y x H1 Hy Hx) as H2.
  destruct (emit_raises emit (diffuseAt g1) y x He) as [H3 H4].
  set (w := emitAt width height emit occupants (diffuseAt g1) y x) in *.
  assert (C : lo <= clamp w lo hi <= hi) by (apply clamp_bounds; lra).
  assert (D : forall c, c <= w -> c <= hi -> c <= clamp w lo hi).
  { intros c Hc1 Hc2; unfold clamp, Rmax, Rmin.
    destruct (Rle_dec hi w), (Rle_dec lo _); lra. }
  assert (D' : forall c, c < w -> c < hi -> c < clamp w lo hi).
  { intros c Hc1 Hc2; unfold clamp, Rmax, Rmin.
    destruct (Rle_dec hi w), (Rle_dec lo _); lra. }
  split; [split; [apply D; lra|lra]|].
  intros N; specialize (H4 N); apply D'; lra.
Qed.

End Still.

Lemma cellsOf_in (gc gv gt : nat -> nat -> R) (y x : nat) :
  (y < rows)%nat -> (x < cols)%nat ->
  In (mkCell (gc y x) (gv y x) (gt y x)) (concat (cellsOf gc gv gt)).
Proof.
  intros Hy Hx; apply in_concat.
  exists (map (fun x => mkCell (gc y x) (gv y x) (gt y x)) (seq 0 cols)); split.
  - unfold cellsOf.
    apply (in_map (fun y => map (fun x => mkCell (gc y x) (gv y x) (gt y x)) (seq 0 cols))).
    apply in_seq; lia.
  - apply (in_map (fun x => mkCell (gc y x) (gv y x) (gt y x))); apply in_seq; lia.
Qed.

Lemma mean_above (lo s n : R) : 0 < n -> lo * n < s -> lo < s / n.
Proof.
  intros Hn H; apply (Rmult_lt_reg_r n); [exact Hn|].
  unfold Rdiv; rewrite Rmult_assoc, Rinv_l by lra; lra.
Qed.

Lemma mean_lower (lo s n : R) : 0 < n -> lo * n <= s -> lo <= s / n.
Proof.
  intros Hn H; apply (Rmult_le_reg_r n); [exact Hn|].
  unfold Rdiv; rewrite Rmult_assoc, Rinv_l by lra; lra.
Qed.

Lemma mean_upper (hi s n : R) : 0 < n -> s <= hi * n -> s / n <= hi.
Proof.
  intros Hn H; apply (Rmult_le_reg_r n); [exact Hn|].
  unfold Rdiv; rewrite Rmult_assoc, Rinv_l by lra; lra.
Qed.

(** C8.  The room of 800 by 500 with no fan, no window, one occupant of
    intensity 1 at (400, 250) and the default outdoor air: the run of 40
    timesteps returns, its average CO2 is above 1020 and at most 5000, its
    maximal virus is positive and its average temperature is at least 21. *)
Theorem one_occupant_scenario :
  let input := mkInput (JNum 800) (JNum 500) (Some []) (Some [])
                       (Some [mkOccupant (Some 400) (Some 250) (JNum 1)]) None in
  exists res,
    simulate input = Some res /\
    1020 < avgCO2 (stats res) <= 5000 /\
    0 < maxVirus (stats res) /\
    21 <= avgTemp (stats res).
Proof.
  intros input.
  set (occ := [mkOccupant (Some 400) (Some 250) (JNum 1)]).
  assert (Nocc : occ <> []) by discriminate.
  assert (C : forall n y x, (y < rows)%nat -> (x < cols)%nat ->
            1020 <= co2After 800 500 [] [] occ 420 n y x).
  { induction n as [|n IH]; intros y x Hy Hx.
    - unfold co2After; simpl; lra.
    - unfold co2After; cbn [Nat.iter].
      apply (evolve_still_lower 800 500 occ); auto; unfold CO2_EMIT; lra. }
  assert (V : forall n y x, (y < rows)%nat -> (x < cols)%nat ->
            0 <= virusAfter 800 500 [] [] occ n y x).
  { induction n as [|n IH]; intros y x Hy Hx.
    - unfold virusAfter; simpl; lra.
    - unfold virusAfter; cbn [Nat.iter].
      apply (evolve_still_lower 800 500 occ); auto; unfold VIRUS_EMIT; lra. }
  assert (T : forall n y x, (y < rows)%nat -> (x < cols)%nat ->
            21 <= tempAfter 800 500 [] [] occ 10 n y x).
  { induction n as [|n IH]; intros y x Hy Hx.
    - unfold tempAfter; simpl; lra.
    - unfold tempAfter; cbn [Nat.iter].
      apply (evolve_still_lower 800 500 occ); auto; unfold HEAT_EMIT; lra. }
  destruct (simulate_spec input) as [res [E [G [A1 [_ [_ [A4 A5]]]]]]].
  { unfold input, roomWidth; simpl; lra. }
  { unfold input, roomHeight; simpl; lra. }
  exists res; split; [exact E|].
  change (grid res = cellsOf (co2After 800 500 [] [] occ 420 STEPS)
                             (virusAfter 800 500 [] [] occ STEPS)
                             (tempAfter 800 500 [] [] occ 10 STEPS)) in G.
  rewrite A1, A4, A5, G; clear A1 A4 A5 G E.
  set (cells := concat (cellsOf (co2After 800 500 [] [] occ 420 STEPS)
                                (virusAfter 800 500 [] [] occ STEPS)
                                (tempAfter 800 500 [] [] occ 10 STEPS))).
  assert (L : length cells = (rows * cols)%nat) by apply cellsOf_length.
  assert (P : 0 < INR (rows * cols)) by (apply lt_0_INR; unfold rows, cols; lia).
  assert (S40 : STEPS = S 39) by reflexivity.
  assert (C40 : forall v, In v (map cell_co2 cells) -> 1020 < v /\ v <= 5000).
  { intros v Hv; apply in_map_iff in Hv; destruct Hv as [cell [<- Hc]].
    apply in_concat_cellsOf in Hc; destruct Hc as [y [x [Hy [Hx ->]]]].
    cbn [cell_co2]; rewrite S40; unfold co2After; cbn [Nat.iter].
    destruct (evolve_still_lower 800 500 occ CO2_EMIT 420 (ventFactor) 420 5000 1020
                (Nat.iter 39 (evolve 800 500 [] [] occ CO2_EMIT 420 (ventFactor) 420 5000)
                          (fun _ _ => 420 + 600)) y x) as [[_ U] S'];
      auto; try (unfold CO2_EMIT; lra).
    intros y' x' Hy' Hx'; apply (C 39%nat); assumption. }
  assert (T40 : forall v, In v (map cell_temp cells) -> 21 <= v).
  { intros v Hv; apply in_map_iff in Hv; destruct Hv as [cell [<- Hc]].
    apply in_concat_cellsOf in Hc; destruct Hc as [y [x [Hy [Hx ->]]]].
    cbn [cell_temp]; apply T; assumption. }
  assert (V40 : 0 < virusAfter 800 500 [] [] occ STEPS 0 0).
  { rewrite S40; unfold virusAfter; cbn [Nat.iter].
    apply (evolve_still_lower 800 500 occ); auto; try (unfold VIRUS_EMIT; lra);
      try (unfold rows, cols; lia).
    intros y' x' Hy' Hx'; apply (V 39%nat); assumption. }
  split; [split|split].
  - apply mean_above; [exact P|].
    rewrite <- L, <- (length_map cell_co2).
    apply sumList_above.
    + intros N; apply (f_equal (@length R)) in N; rewrite length_map, L in N; discriminate.
    + intros v Hv; apply C40; exact Hv.
  - apply mean_upper; [exact P|].
    rewrite <- L, <- (length_map cell_co2).
    apply sumList_upper; intros v Hv; apply C40; exact Hv.
  - apply (Rlt_le_trans _ _ _ V40).
    apply maxList_ge.
    apply (in_map cell_virus cells
             (mkCell (co2After 800 500 [] [] occ 420 STEPS 0 0)
                     (virusAfter 800 500 [] [] occ STEPS 0 0)
                     (tempAfter 800 500 [] [] occ 10 STEPS 0 0))).
    apply cellsOf_in; unfold rows, cols; lia.
  - apply mean_lower; [exact P|].
    rewrite <- L, <- (length_map cell_temp).
    apply sumList_lower; exact T40.
Qed.

(** ** The entry points on their inputs *)

Lemma simulate_total (input : Input) :
  roomWidth input <> 0 -> roomHeight input <> 0 ->
  exists res, simulate input = Some res.
Proof.
  intros Hw Hh; destruct (simulate_spec input Hw Hh) as [res [E _]].
  exists res; exact E.
Qed.

Lemma optimizeFan_unfold (random : nat -> R) (input : Input) :
  optimizeFan random input
  = (b <- searchFan random (roomWidth input) (roomHeight input)
                    (orEmpty (in_windows input)) (orEmpty (in_occupants input))
                    (outdoorOf input) TRIES ;;
     Some (mkOptResult (bestFan b) (option_map toFixed3 (bestScore b)) (bestStats b))).
Proof. reflexivity. Qed.

Lemma trial_total (random : nat -> R) (width height : R) (windows : list Window)
      (occupants : list Occupant) (outdoor : Outdoor) (i : nat) (b : Best) :
  width <> 0 -> height <> 0 ->
  exists b', trial random width height windows occupants outdoor i b = Some b'.
Proof.
  intros Hw Hh; unfold trial.
  destruct (simulate_total
              (trialInput width height windows occupants outdoor
                          (trialFan random width height i)) Hw Hh) as [res E].
  rewrite E; destruct (belowBest _ _); eexists; reflexivity.
Qed.

Lemma searchFan_total (random : nat -> R) (width height : R) (windows : list Window)
      (occupants : list Occupant) (outdoor : Outdoor) (n : nat) :
  width <> 0 -> height <> 0 ->
  exists b, searchFan random width height windows occupants outdoor n = Some b.
Proof.
  intros Hw Hh; unfold searchFan; apply forEach_total.
  intros i b _; apply trial_total; assumption.
Qed.

Lemma optimizeFan_total (random : nat -> R) (input : Input) :
  roomWidth input <> 0 -> roomHeight input <> 0 ->
  exists best, optimizeFan random input = Some best.
Proof.
  intros Hw Hh; rewrite optimizeFan_unfold.
  destruct (searchFan_total random _ _ (orEmpty (in_windows input))
              (orEmpty (in_occupants input)) (outdoorOf input) TRIES Hw Hh) as [b E].
  rewrite E; eexists; reflexivity.
Qed.

(** ** The optimizer *)

Lemma Rltb_true (a b : R) : Rltb a b = true -> a < b.
Proof. unfold Rltb; destruct (Rlt_dec a b); [auto|discriminate]. Qed.

Lemma Rltb_false (a b : R) : Rltb a b = false -> b <= a.
Proof. unfold Rltb; destruct (Rlt_dec a b); [discriminate|lra]. Qed.

(** [toFixed3] is a multiple of 1/1000 within 1/2000 of its argument. *)
Lemma toFixed3_rounds (x : R) :
  (exists z, toFixed3 x = IZR z / 1000) /\ Rabs (toFixed3 x - x) <= 1 / 2000.
Proof.
  unfold toFixed3; destruct (Rlt_dec x 0) as [N|P].
  - pose proof (Zfloor_bound (- x * 1000 + 1 / 2)) as B.
    set (z := Zfloor (- x * 1000 + 1 / 2)) in *; split.
    + exists (- z)%Z; rewrite opp_IZR; lra.
    + apply Rabs_le_iff; lra.
  - pose proof (Zfloor_bound (x * 1000 + 1 / 2)) as B.
    set (z := Zfloor (x * 1000 + 1 / 2)) in *; split.
    + exists z; reflexivity.
    + apply Rabs_le_iff; lra.
Qed.

Section Search.

Variable random : nat -> R.
Variables width height : R.
Variable windows : list Window.
Variable occupants : list Occupant.
Variable outdoor : Outdoor.

Local Abbreviation run := (runTrial random width height windows occupants outdoor).

(** After [n] trials the loop holds the first trial of least score. *)
Lemma searchFan_spec (n : nat) (b : Best) :
  searchFan random width height windows occupants outdoor n = Some b ->
  (n = O /\ bestScore b = None) \/
  (exists k r,
     (k < n)%nat /\ run k = Some r /\
     b = mkBest (trialFan random width height k) (Some (scoreOf (stats r)))
                (Some (stats r)) /\
     forall i, (i < n)%nat ->
       exists ri, run i = Some ri /\
                  scoreOf (stats r) <= scoreOf (stats ri) /\
                  ((i < k)%nat -> scoreOf (stats r) < scoreOf (stats ri))).
Proof.
  unfold searchFan.
  apply (forEach_seq_post (trial random width height windows occupants outdoor)
    (fun n b =>
       (n = O /\ bestScore b = None) \/
       (exists k r,
          (k < n)%nat /\ run k = Some r /\
          b = mkBest (trialFan random width height k) (Some (scoreOf (stats r)))
                     (Some (stats r)) /\
          forall i, (i < n)%nat ->
            exists ri, run i = Some ri /\
                       scoreOf (stats r) <= scoreOf (stats ri) /\
                       ((i < k)%nat -> scoreOf (stats r) < scoreOf (stats ri))))).
  - left; split; reflexivity.
  - intros i b0 b1 Hi Inv E; right; unfold trial in E.
    fold (run i) in E.
    destruct (run i) as [res|] eqn:Er; [|discriminate].
    destruct (belowBest (scoreOf (stats res)) (bestScore b0)) eqn:Below.
    + injection E as <-.
      exists i, res; split; [lia|split; [exact Er|split; [reflexivity|]]].
      intros j Hj.
      destruct (Nat.eq_dec j i) as [->|Nj].
      * exists res; split; [exact Er|split; [lra|lia]].
      * destruct Inv as [[-> _]|[k [r [Hk [Erk [-> Hall]]]]]]; [lia|].
        destruct (Hall j ltac:(lia)) as [rj [Ej [Hle _]]].
        cbn [bestScore belowBest] in Below; apply Rltb_true in Below.
        exists rj; split; [exact Ej|split; [lra|intros _; lra]].
    + injection E as <-.
      destruct Inv as [[_ Hnone]|[k [r [Hk [Erk [-> Hall]]]]]].
      * rewrite Hnone in Below; discriminate.
      * cbn [bestScore belowBest] in Below; apply Rltb_false in Below.
        exists k, r; split; [lia|split; [exact Erk|split; [reflexivity|]]].
        intros j Hj.
        destruct (Nat.eq_dec j i) as [->|Nj].
        -- exists res; split; [exact Er|split; [lra|lia]].
        -- apply Hall; lia.
Qed.

End Search.

(** ** The dimensions that are missing *)

Lemma forEach_append {A B : Type} (body : A -> list B -> option (list B))
      (f : A -> list B) (l : list A) (s : list B) :
  (forall e s, In e l -> body e s = Some (s ++ f e)) ->
  forEach body l s = Some (s ++ flat_map f l).
Proof.
  revert s; induction l as [|e l IH]; intros s H; simpl.
  - rewrite app_nil_r; reflexivity.
  - rewrite (H e s (or_introl eq_refl)).
    rewrite IH by (intros; apply H; right; assumption).
    rewrite app_assoc; reflexivity.
Qed.

Lemma strided_rows_in (y : nat) : In y (strided rows 4) -> (y < rows)%nat.
Proof.
  intros H; apply in_map_iff in H; destruct H as [k [<- Hk]]; apply in_seq in Hk.
  change ((rows + 4 - 1) / 4)%nat with 7%nat in Hk; unfold rows; lia.
Qed.

Lemma strided_cols_in (x : nat) : In x (strided cols 4) -> (x < cols)%nat.
Proof.
  intros H; apply in_map_iff in H; destruct H as [k [<- Hk]]; apply in_seq in Hk.
  change ((cols + 4 - 1) / 4)%nat with 11%nat in Hk; unfold cols; lia.
Qed.

Lemma sampleArrows_spec (vx vy : Field) (gx gy : nat -> nat -> R) :
  reps vx gx -> reps vy gy -> sampleArrows (vx, vy) = Some (arrowsOf gx gy).
Proof.
  intros Hx Hy; unfold sampleArrows, arrowsOf, fst, snd.
  rewrite (forEach_append _
    (fun y => map (fun x => mkArrow x y (gx y x) (gy y x)) (strided cols 4)));
    [reflexivity|].
  intros y s Iy.
  rewrite (forEach_append _ (fun x => [mkArrow x y (gx y x) (gy y x)])).
  - assert (F : forall l : list nat,
      flat_map (fun x => [mkArrow x y (gx y x) (gy y x)]) l
      = map (fun x => mkArrow x y (gx y x) (gy y x)) l).
    { induction l as [|x l IH]; simpl; [reflexivity|rewrite IH; reflexivity]. }
    rewrite F; reflexivity.
  - intros x s' Ix.
    rewrite (reps_get _ _ _ _ Hx (strided_rows_in y Iy) (strided_cols_in x Ix)),
            (reps_get _ _ _ _ Hy (strided_rows_in y Iy) (strided_cols_in x Ix)).
    reflexivity.
Qed.

Lemma simulateWith_full (width height : R) (fans : list Fan) (windows : list Window)
      (occupants : list Occupant) (outdoorCO2 outdoorTemp : R) :
  width <> 0 -> height <> 0 ->
  let cells := cellsOf (co2After width height fans windows occupants outdoorCO2 STEPS)
                       (virusAfter width height fans windows occupants STEPS)
                       (tempAfter width height fans windows occupants outdoorTemp STEPS) in
  let a := tally (concat cells) in
  simulateWith width height fans windows occupants outdoorCO2 outdoorTemp
  = Some (mkResult cells
            (arrowsOf (velocityX width height fans windows)
                      (velocityY width height fans windows))
            (mkStats (sumCO2 a / INR (rows * cols)) (accMaxCO2 a)
                     (sumV a / INR (rows * cols)) (accMaxV a)
                     (sumT a / INR (rows * cols)))
            (mkMeta rows cols outdoorCO2 outdoorTemp)).
Proof.
  intros Hw Hh cells a; unfold simulateWith.
  destruct (runSteps_spec width height Hw Hh fans windows occupants
              outdoorCO2 outdoorTemp STEPS)
    as [vx [vy [c [v [t [E [Hx [Hy [Hc [Hv Ht]]]]]]]]]]; rewrite E.
  rewrite (pack_spec c v t _ _ _ Hc Hv Ht), (sampleArrows_spec vx vy _ _ Hx Hy).
  reflexivity.
Qed.

Lemma fanPush_flat (width : R) (f : Fan) (v : Field * Field) :
  fanPush width 0 f v = None.
Proof.
  unfold fanPush; destruct (pxToGX width (orZero (fan_x f))); [|reflexivity].
  unfold pxToGY, fdiv; destruct (Req_dec_T 0 0) as [_|N]; [reflexivity|].
  contradiction N; reflexivity.
Qed.

Lemma simulateWith_flat (width : R) (f : Fan) (fans : list Fan) (windows : list Window)
      (occupants : list Occupant) (outdoorCO2 outdoorTemp : R) :
  simulateWith width 0 (f :: fans) windows occupants outdoorCO2 outdoorTemp = None.
Proof.
  unfold simulateWith, runSteps, computeVelocity; cbn [forEach].
  rewrite fanPush_flat; reflexivity.
Qed.




(** ** The fan that is returned *)



(** * Further properties of the code *)

(** ** Fields as lists *)

Lemma reps_tabulate (g : nat -> nat -> R) : reps (tabulate g) g.
Proof.
  unfold tabulate; split; [|split].
  - rewrite length_map, length_seq; reflexivity.
  - intros row H; apply in_map_iff in H; destruct H as [y [<- _]].
    rewrite length_map, length_seq; reflexivity.
  - intros y x Hy Hx; unfold get2.
    rewrite nth_error_map, nth_error_seq.
    destruct (Nat.ltb_spec y rows) as [_|]; [|lia]; cbn [option_map].
    rewrite nth_error_map, nth_error_seq.
    destruct (Nat.ltb_spec x cols) as [_|]; [|lia]; reflexivity.
Qed.

(** Two fields that hold the same function are the same list. *)
Lemma reps_unique (a b : Field) (g : nat -> nat -> R) :
  reps a g -> reps b g -> a = b.
Proof.
  intros Ha Hb.
  apply (nth_ext a b [] []).
  - destruct Ha as [La _], Hb as [Lb _]; congruence.
  - intros y Hy.
    assert (By : (y < rows)%nat) by (destruct Ha as [La _]; lia).
    destruct (reps_row a g y Ha By) as [ra [Ea [La Ga]]].
    destruct (reps_row b g y Hb By) as [rb [Eb [Lb Gb]]].
    rewrite (nth_error_nth a y [] Ea), (nth_error_nth b y [] Eb).
    apply (nth_ext ra rb 0 0); [congruence|].
    intros x Hx.
    rewrite (nth_error_nth ra x 0 (Ga x ltac:(lia))),
            (nth_error_nth rb x 0 (Gb x ltac:(lia))); reflexivity.
Qed.

Lemma reps_eq (a : Field) (g : nat -> nat -> R) : reps a g -> a = tabulate g.
Proof. intros H; apply (reps_unique a (tabulate g) g H (reps_tabulate g)). Qed.

Lemma shaped_reps (a : Field) : shaped a -> reps a (cellOf a).
Proof.
  intros [Hl Hr]; split; [exact Hl|split; [exact Hr|]].
  intros y x Hy Hx; unfold get2, cellOf.
  rewrite (nth_error_nth' a []) by lia.
  apply nth_error_nth'.
  rewrite (Hr (nth y a [])); [exact Hx|apply nth_In; lia].
Qed.

Lemma reps_shaped (a : Field) (g : nat -> nat -> R) : reps a g -> shaped a.
Proof. intros [Hl [Hr _]]; split; assumption. Qed.

(** The numbers of a field that holds [g] are the values of [g] on the grid. *)
Lemma reps_In (a : Field) (g : nat -> nat -> R) (row : list R) (v : R) :
  reps a g -> In row a -> In v row ->
  exists y x, (y < rows)%nat /\ (x < cols)%nat /\ v = g y x.
Proof.
  intros H Hr Hv.
  apply In_nth_error in Hr; destruct Hr as [y Ey].
  apply In_nth_error in Hv; destruct Hv as [x Ex].
  assert (By : (y < rows)%nat).
  { destruct H as [Hl _]; rewrite <- Hl; apply nth_error_Some; congruence. }
  destruct (reps_row a g y H By) as [row' [Er [Lr Gr]]].
  assert (row' = row) by congruence; subst row'.
  assert (Bx : (x < cols)%nat) by (rewrite <- Lr; apply nth_error_Some; congruence).
  exists y, x; split; [exact By|split; [exact Bx|]].
  specialize (Gr x Bx); congruence.
Qed.

Lemma reps_allIn (a : Field) (g : nat -> nat -> R) (lo hi : R) :
  reps a g ->
  (forall y x, (y < rows)%nat -> (x < cols)%nat -> lo <= g y x <= hi) ->
  allIn lo hi a.
Proof.
  intros H B row v Hr Hv.
  destruct (reps_In a g row v H Hr Hv) as [y [x [Hy [Hx ->]]]]; auto.
Qed.

Lemma allIn_cellOf (a : Field) (lo hi : R) (y x : nat) :
  shaped a -> allIn lo hi a -> (y < rows)%nat -> (x < cols)%nat ->
  lo <= cellOf a y x <= hi.
Proof.
  intros [Hl Hr] B Hy Hx; unfold cellOf.
  assert (Ir : In (nth y a []) a) by (apply nth_In; lia).
  apply (B (nth y a [])); [exact Ir|].
  apply nth_In; rewrite (Hr _ Ir); exact Hx.
Qed.

(** ** The result of a run *)

Lemma pack_shape (c v t : Field) (grid : list (list Cell)) (a : Sums) :
  pack c v t = Some (grid, a) ->
  length grid = rows /\ forall row, In row grid -> length row = cols.
Proof.
  intros E; unfold pack in E.
  apply (forEach_seq_post (packRow c v t)
    (fun y st => length (fst st) = y /\
                 forall row, In row (fst st) -> length row = cols)
    rows ([], mkSums 0 0 0 0 0) (grid, a)) in E; [exact E| |].
  - split; [reflexivity|intros row []].
  - intros y [g0 a0] [g1 a1] Hy [Hl Hr] Er; cbn [fst] in *.
    unfold packRow in Er.
    destruct (forEach (packCell c v t y) (seq 0 cols) ([], a0)) as [[row a']|] eqn:Ec;
      [|discriminate].
    injection Er as <- <-.
    apply (forEach_seq_post (packCell c v t y)
      (fun x st => length (fst st) = x) cols ([], a0) (row, a')) in Ec;
      [|reflexivity|].
    + cbn [fst] in Ec; split.
      * rewrite length_app, Hl; simpl; lia.
      * intros r Hin; apply in_app_or in Hin; destruct Hin as [Hin|[<-|[]]]; auto.
    + intros x [r0 b0] [r1 b1] Hx Hlen Ex; cbn [fst] in *.
      unfold packCell in Ex.
      destruct (get2 c y x), (get2 v y x), (get2 t y x); try discriminate.
      injection Ex as <- <-.
      rewrite length_app, Hlen; simpl; lia.
Qed.

(** X1.  Every run that returns gives a grid of 28 rows of 44 cells, whatever the
    size of the room, and says so in [meta]. *)
Theorem grid_dimensions (input : Input) (res : Result) :
  simulate input = Some res ->
  length (grid res) = 28%nat /\
  (forall row, In row (grid res) -> length row = 44%nat) /\
  meta_rows (meta res) = 28%nat /\ meta_cols (meta res) = 44%nat.
Proof.
  rewrite simulate_unfold; unfold simulateWith; intros E.
  destruct (runSteps _ _ _ _ _ _ _ _) as [[lastV [[c v] t]]|]; [|discriminate].
  destruct (pack c v t) as [[g a]|] eqn:Ep; [|discriminate].
  destruct (sampleArrows lastV) as [vectors|]; [|discriminate].
  injection E as <-; cbn [grid meta meta_rows meta_cols].
  destruct (pack_shape c v t g a Ep) as [Hl Hr].
  repeat split; auto.
Qed.

Lemma grid_dimensions_witness :
  let input := mkInput (JNum 300) JAbsent None None None None in
  exists res,
    simulate input = Some res /\
    length (grid res) = 28%nat /\
    (forall row, In row (grid res) -> length row = 44%nat) /\
    meta_rows (meta res) = 28%nat /\ meta_cols (meta res) = 44%nat.
Proof.
  intros input.
  destruct (simulateWith_spec 300 500 ltac:(lra) ltac:(lra) [] [] [] 420 10)
    as [vectors E].
  eexists; split; [exact E|].
  exact (grid_dimensions input _ E).
Defined.

Lemma maxList_pick (l : list R) (m : R) :
  fold_left (fun m c => if Rltb m c then c else m) l m = m \/
  In (fold_left (fun m c => if Rltb m c then c else m) l m) l.
Proof.
  revert m; induction l as [|w l IH]; intros m; simpl; [left; reflexivity|].
  destruct (IH (if Rltb m w then w else m)) as [E|I].
  - rewrite E; unfold Rltb; destruct (Rlt_dec m w); auto.
  - right; right; exact I.
Qed.

Lemma mean_le_bound (l : list R) (hi : R) :
  l <> [] -> (forall v, In v l -> v <= hi) -> mean l <= hi.
Proof.
  intros N H; unfold mean; apply mean_upper.
  - apply lt_0_INR; destruct l; [contradiction|simpl; lia].
  - apply sumList_upper; exact H.
Qed.





(** ** Sampling, advection and diffusion keep the range of a field *)

Lemma lerp_between (a b t lo hi : R) :
  0 <= t <= 1 -> lo <= a <= hi -> lo <= b <= hi -> lo <= lerp a b t <= hi.
Proof.
  intros Ht Ha Hb; unfold lerp.
  replace (a + (b - a) * t) with ((1 - t) * a + t * b) by lra.
  split.
  - assert (0 <= (1 - t) * (a - lo)) by (apply Rmult_le_pos; lra).
    assert (0 <= t * (b - lo)) by (apply Rmult_le_pos; lra).
    lra.
  - assert (0 <= (1 - t) * (hi - a)) by (apply Rmult_le_pos; lra).
    assert (0 <= t * (hi - b)) by (apply Rmult_le_pos; lra).
    lra.
Qed.

Lemma clamp_idem (v a b : R) : clamp (clamp v a b) a b = clamp v a b.
Proof.
  unfold clamp, Rmax, Rmin.
  repeat match goal with
         | |- context [Rle_dec ?u ?w] =>
             lazymatch u with context [Rle_dec] => fail | _ =>
             lazymatch w with context [Rle_dec] => fail | _ =>
               destruct (Rle_dec u w) end end
         end; lra.
Qed.

(** The fractional part used by [sampleScalar] lies in [0, 1). *)
Lemma frac_clamped (v : R) (m : nat) :
  (0 < m)%nat ->
  let c := clamp v 0 (INR m - 1) in
  0 <= c - INR (Z.to_nat (Zfloor c)) < 1.
Proof.
  intros Hm c.
  destruct (floor_clamped v m Hm) as [F _]; fold c in F.
  unfold Math_floor in F; rewrite <- F.
  pose proof (Zfloor_bound c); lra.
Qed.

Lemma bilinearOn_between (nr nc : nat) (g : nat -> nat -> R) (lo hi x y : R) :
  (0 < nr)%nat -> (0 < nc)%nat ->
  (forall y x, (y < nr)%nat -> (x < nc)%nat -> lo <= g y x <= hi) ->
  lo <= bilinearOn nr nc g x y <= hi.
Proof.
  intros Hr Hc B; unfold bilinearOn; cbv zeta.
  destruct (floor_clamped x nc Hc) as [_ Bx].
  destruct (floor_clamped y nr Hr) as [_ By].
  pose proof (frac_clamped x nc Hc) as Fx.
  pose proof (frac_clamped y nr Hr) as Fy.
  cbv zeta in Bx, By, Fx, Fy.
  apply lerp_between; [lra| |]; apply lerp_between; try lra; apply B; lia.
Qed.

(** X4.  [sampleScalar] returns a value at every point, inside or outside the
    grid, and the value lies between the least and the greatest number of
    the field: interpolation does not overshoot. *)
Theorem sampleScalar_within (a : Field) (lo hi x y : R) :
  rectangular a -> (0 < length a)%nat -> (0 < length (hd [] a))%nat ->
  (forall y x v, get2 a y x = Some v -> lo <= v <= hi) ->
  exists v, sampleScalar a x y = Some v /\ lo <= v <= hi.
Proof.
  intros Hr Hn Hm B.
  rewrite (sampleScalar_on (length a) (length (hd [] a)) Hn Hm
             a (fun y x => nth x (nth y a []) 0) eq_refl Hr
             (fun y x Hy Hx => rectangular_holds a y x Hr Hy Hx)).
  eexists; split; [reflexivity|].
  apply bilinearOn_between; auto.
  intros y' x' Hy Hx; apply (B y' x'); apply rectangular_holds; assumption.
Qed.

Lemma sampleScalar_within_witness :
  exists v, sampleScalar [[1; 2; 3]; [4; 5; 6]] 1.5 (-7) = Some v /\ 1 <= v <= 6.
Proof.
  apply sampleScalar_within.
  - intros row [<-|[<-|[]]]; reflexivity.
  - simpl; lia.
  - simpl; lia.
  - intros y0 x0 v H.
    assert (Hb : (y0 < 2)%nat /\ (x0 < 3)%nat).
    { apply (get2_bounds [[1; 2; 3]; [4; 5; 6]] y0 x0 v); [|exact H].
      intros row [<-|[<-|[]]]; reflexivity. }
    destruct Hb as [Hy Hx].
    destruct y0 as [|[|y0]]; [| |lia];
      (destruct x0 as [|[|[|x0]]]; [| | |lia]);
      cbv in H; injection H as <-; lra.
Defined.

(** X5.  No wraparound: a point whose coordinates clamp onto a cell reads that
    cell, so a point left of the grid reads column 0, a point below it the
    last row, and so on. *)
Theorem sampleScalar_edge (a : Field) (y x : nat) (v px py : R) :
  rectangular a -> get2 a y x = Some v ->
  clamp px 0 (INR (length (hd [] a)) - 1) = INR x ->
  clamp py 0 (INR (length a) - 1) = INR y ->
  sampleScalar a px py = Some v.
Proof.
  intros Hr H Ex Ey.
  destruct (get2_bounds a y x v Hr H) as [Hy Hx].
  rewrite (sampleScalar_on (length a) (length (hd [] a)) ltac:(lia) ltac:(lia)
             a (fun y x => nth x (nth y a []) 0) eq_refl Hr
             (fun y x Hy Hx => rectangular_holds a y x Hr Hy Hx)).
  assert (Cx : clamp (INR x) 0 (INR (length (hd [] a)) - 1) = INR x)
    by (rewrite <- Ex; apply clamp_idem).
  assert (Cy : clamp (INR y) 0 (INR (length a) - 1) = INR y)
    by (rewrite <- Ey; apply clamp_idem).
  assert (E : bilinearOn (length a) (length (hd [] a))
                (fun y x => nth x (nth y a []) 0) px py
              = bilinearOn (length a) (length (hd [] a))
                  (fun y x => nth x (nth y a []) 0) (INR x) (INR y)).
  { unfold bilinearOn; cbv zeta; rewrite Ex, Ey, Cx, Cy; reflexivity. }
  rewrite E, bilinearOn_integer by assumption.
  rewrite (rectangular_holds a y x Hr Hy Hx) in H; exact H.
Qed.

Lemma sampleScalar_edge_witness :
  sampleScalar [[1; 2; 3]; [4; 5; 6]] (-2.5) 9 = Some 4.
Proof.
  apply (sampleScalar_edge [[1; 2; 3]; [4; 5; 6]] 1 0 4 (-2.5) 9).
  - intros row [<-|[<-|[]]]; reflexivity.
  - reflexivity.
  - rewrite clamp_below by (cbn [length hd INR]; lra); reflexivity.
  - rewrite clamp_above by (cbn [length INR]; lra); cbn [length INR]; lra.
Defined.

Lemma bilinear_between (g : nat -> nat -> R) (lo hi x y : R) :
  (forall y x, (y < rows)%nat -> (x < cols)%nat -> lo <= g y x <= hi) ->
  lo <= bilinear g x y <= hi.
Proof.
  intros B; apply bilinearOn_between; auto; unfold rows, cols; lia.
Qed.

(** X6.  Advection creates no new extreme: whatever the velocity field, every
    advected cell lies in the range of the cells it is drawn from. *)
Theorem advect_within (field vx vy : Field) (lo hi : R) :
  shaped field -> shaped vx -> shaped vy -> allIn lo hi field ->
  exists out, advect field vx vy = Some out /\ shaped out /\ allIn lo hi out.
Proof.
  intros Hf Hx Hy B.
  destruct (advect_spec field vx vy _ _ _ (shaped_reps _ Hf) (shaped_reps _ Hx)
              (shaped_reps _ Hy)) as [out [E Ho]].
  exists out; split; [exact E|split; [exact (reps_shaped _ _ Ho)|]].
  apply (reps_allIn _ _ _ _ Ho); intros y x By Bx; unfold advectAt.
  apply bilinear_between; intros; apply allIn_cellOf; assumption.
Qed.

Lemma shaped_make2D (v : R) : shaped (make2D rows cols v).
Proof. exact (reps_shaped _ _ (reps_make2D v)). Qed.

Lemma allIn_make2D (v lo hi : R) : lo <= v <= hi -> allIn lo hi (make2D rows cols v).
Proof. intros H; apply (reps_allIn _ _ _ _ (reps_make2D v)); auto. Qed.

Lemma advect_within_witness :
  exists out,
    advect (make2D rows cols 21) (make2D rows cols 3) (make2D rows cols (-50))
    = Some out /\ shaped out /\ allIn 20 22 out.
Proof.
  apply advect_within.
  - apply shaped_make2D.
  - apply shaped_make2D.
  - apply shaped_make2D.
  - apply allIn_make2D; lra.
Defined.

Lemma diffuseAt_between (g : nat -> nat -> R) (lo hi : R) (y x : nat) :
  (forall y x, (y < rows)%nat -> (x < cols)%nat -> lo <= g y x <= hi) ->
  (y < rows)%nat -> (x < cols)%nat -> lo <= diffuseAt g y x <= hi.
Proof.
  intros H Hy Hx; unfold diffuseAt, lerp, DIFF; cbv zeta.
  pose proof (H y x Hy Hx).
  pose proof (H (Nat.pred y) x ltac:(lia) Hx).
  pose proof (H (Nat.min (S y) (rows - 1)) x ltac:(unfold rows; lia) Hx).
  pose proof (H y (Nat.pred x) Hy ltac:(lia)).
  pose proof (H y (Nat.min (S x) (cols - 1)) Hy ltac:(unfold cols; lia)).
  lra.
Qed.

(** X7.  Diffusion creates no new extreme either: every diffused cell lies in the
    range of the field, so a uniform field stays as it is. *)
Theorem diffuse_within (field : Field) (lo hi : R) :
  shaped field -> allIn lo hi field ->
  exists out, diffuse field = Some out /\ shaped out /\ allIn lo hi out.
Proof.
  intros Hf B.
  destruct (diffuse_spec field _ (shaped_reps _ Hf)) as [out [E Ho]].
  exists out; split; [exact E|split; [exact (reps_shaped _ _ Ho)|]].
  apply (reps_allIn _ _ _ _ Ho); intros y x By Bx.
  apply diffuseAt_between; auto; intros; apply allIn_cellOf; assumption.
Qed.

Lemma diffuse_within_witness :
  exists out, diffuse (make2D rows cols 21) = Some out /\ shaped out /\ allIn 21 21 out.
Proof.
  apply diffuse_within; [apply shaped_make2D|apply allIn_make2D; lra].
Defined.

(** X8.  In still air advection is the identity: with a velocity that is zero
    everywhere, [advect] returns the field it was given. *)
Theorem advect_still_air (field : Field) :
  shaped field ->
  advect field (make2D rows cols 0) (make2D rows cols 0) = Some field.
Proof.
  intros Hf.
  destruct (advect_spec field _ _ _ _ _ (shaped_reps _ Hf) (reps_make2D 0)
              (reps_make2D 0)) as [out [E Ho]].
  rewrite E; f_equal.
  apply (reps_unique out field (cellOf field)); [|apply shaped_reps; exact Hf].
  apply (reps_ext _ _ _ Ho); intros y x Hy Hx; unfold advectAt.
  replace (INR x - 0 * ADVECT) with (INR x) by lra.
  replace (INR y - 0 * ADVECT) with (INR y) by lra.
  apply bilinear_integer; assumption.
Qed.

Lemma advect_still_air_witness :
  advect (make2D rows cols 21) (make2D rows cols 0) (make2D rows cols 0)
  = Some (make2D rows cols 21).
Proof. apply advect_still_air; apply shaped_make2D. Defined.

(** ** Diffusion conserves the total *)

Lemma sumTo_ext (n : nat) (f g : nat -> R) :
  (forall i, (i < n)%nat -> f i = g i) -> sumTo n f = sumTo n g.
Proof.
  induction n as [|n IH]; intros H; simpl; [reflexivity|].
  rewrite IH by (intros; apply H; lia); rewrite (H n) by lia; reflexivity.
Qed.

Lemma sumTo_plus (n : nat) (f g : nat -> R) :
  sumTo n (fun i => f i + g i) = sumTo n f + sumTo n g.
Proof. induction n as [|n IH]; simpl; [lra|rewrite IH; lra]. Qed.

Lemma sumTo_scal (n : nat) (k : R) (f : nat -> R) :
  sumTo n (fun i => k * f i) = k * sumTo n f.
Proof. induction n as [|n IH]; simpl; [lra|rewrite IH; lra]. Qed.

Lemma sumTo_swap (n m : nat) (f : nat -> nat -> R) :
  sumTo n (fun y => sumTo m (fun x => f y x))
  = sumTo m (fun x => sumTo n (fun y => f y x)).
Proof.
  induction n as [|n IH]; simpl.
  - induction m as [|m IHm]; simpl; [reflexivity|rewrite <- IHm; lra].
  - rewrite IH, <- sumTo_plus; reflexivity.
Qed.

Lemma sumTo_shift (n : nat) (f : nat -> R) :
  sumTo n (fun i => f (S i)) = sumTo (S n) f - f O.
Proof.
  induction n as [|n IH]; simpl; [lra|].
  rewrite IH; simpl; lra.
Qed.

Lemma sumTo_pred (n : nat) (f : nat -> R) :
  sumTo (S n) (fun i => f (Nat.pred i)) = f O + sumTo n f.
Proof.
  induction n as [|n IH]; [simpl; lra|].
  change (sumTo (S (S n)) (fun i => f (Nat.pred i)))
    with (sumTo (S n) (fun i => f (Nat.pred i)) + f (Nat.pred (S n))).
  rewrite IH; simpl; lra.
Qed.

(** The two neighbours along an axis with clamped ends: every cell is the
    neighbour of two cells, the end cells of themselves. *)
Lemma sumTo_neighbours (n : nat) (f : nat -> R) :
  sumTo (S n) (fun i => f (Nat.pred i) + f (Nat.min (S i) n)) = 2 * sumTo (S n) f.
Proof.
  rewrite sumTo_plus, sumTo_pred.
  change (sumTo (S n) (fun i => f (Nat.min (S i) n)))
    with (sumTo n (fun i => f (Nat.min (S i) n)) + f (Nat.min (S n) n)).
  rewrite (sumTo_ext n (fun i => f (Nat.min (S i) n)) (fun i => f (S i)))
    by (intros i Hi; rewrite Nat.min_l by lia; reflexivity).
  rewrite sumTo_shift, Nat.min_r by lia; simpl; lra.
Qed.

Lemma sumList_app (l1 l2 : list R) : sumList (l1 ++ l2) = sumList l1 + sumList l2.
Proof.
  unfold sumList; rewrite fold_left_app, sumList_from; unfold sumList; reflexivity.
Qed.

Lemma sumList_map_seq (n : nat) (f : nat -> R) :
  sumList (map f (seq 0 n)) = sumTo n f.
Proof.
  induction n as [|n IH]; [reflexivity|].
  rewrite seq_S, map_app, sumList_app, IH; cbn [map Nat.add].
  rewrite sumList_cons; unfold sumList; simpl; lra.
Qed.

Lemma sumList_tabulate (g : nat -> nat -> R) :
  sumList (concat (tabulate g)) = sumTo rows (fun y => sumTo cols (fun x => g y x)).
Proof.
  unfold tabulate; generalize rows as n.
  induction n as [|n IH]; [reflexivity|].
  rewrite seq_S, map_app, concat_app, sumList_app, IH; cbn [map concat Nat.add].
  rewrite app_nil_r, sumList_map_seq; reflexivity.
Qed.

Lemma diffuseAt_total (g : nat -> nat -> R) :
  sumTo rows (fun y => sumTo cols (fun x => diffuseAt g y x))
  = sumTo rows (fun y => sumTo cols (fun x => g y x)).
Proof.
  set (T := sumTo rows (fun y => sumTo cols (fun x => g y x))).
  assert (H : sumTo rows (fun y => sumTo cols (fun x =>
                g y (Nat.pred x) + g y (Nat.min (S x) (cols - 1)))) = 2 * T).
  { unfold T; rewrite <- sumTo_scal; apply sumTo_ext; intros y _.
    apply (sumTo_neighbours 43 (fun x => g y x)). }
  assert (V : sumTo rows (fun y => sumTo cols (fun x =>
                g (Nat.pred y) x + g (Nat.min (S y) (rows - 1)) x)) = 2 * T).
  { rewrite sumTo_swap; unfold T; rewrite (sumTo_swap rows cols), <- sumTo_scal.
    apply sumTo_ext; intros x _.
    apply (sumTo_neighbours 27 (fun y => g y x)). }
  rewrite (sumTo_ext rows _ (fun y =>
    (1 - DIFF) * sumTo cols (fun x => g y x)
    + (DIFF * 0.25) * sumTo cols (fun x =>
        g (Nat.pred y) x + g (Nat.min (S y) (rows - 1)) x)
    + (DIFF * 0.25) * sumTo cols (fun x =>
        g y (Nat.pred x) + g y (Nat.min (S x) (cols - 1))))).
  - rewrite !sumTo_plus, !sumTo_scal, H, V; fold T; unfold DIFF; lra.
  - intros y _.
    rewrite <- !sumTo_scal, <- !sumTo_plus; apply sumTo_ext; intros x _.
    unfold diffuseAt, lerp; cbv zeta; lra.
Qed.

(** X9.  Diffusion only moves the quantity between neighbours: the sum of all
    cells is the same before and after [diffuse], the clamped edges
    included. *)
Theorem diffuse_conserves_total (field : Field) :
  shaped field ->
  exists out, diffuse field = Some out /\
              sumList (concat out) = sumList (concat field).
Proof.
  intros Hf.
  destruct (diffuse_spec field _ (shaped_reps _ Hf)) as [out [E Ho]].
  exists out; split; [exact E|].
  pose proof (reps_eq _ _ (shaped_reps _ Hf)) as Ef.
  set (g := cellOf field) in *.
  rewrite (reps_eq _ _ Ho), Ef, !sumList_tabulate.
  apply diffuseAt_total.
Qed.

Lemma diffuse_conserves_total_witness :
  exists out, diffuse (make2D rows cols 21) = Some out /\
              sumList (concat out) = sumList (concat (make2D rows cols 21)).
Proof. apply diffuse_conserves_total; apply shaped_make2D. Defined.

(** ** Sources and sinks *)

Lemma ventFactor_range (win : Window) : 0 <= ventFactor win <= VENT_PULL.
Proof.
  unfold ventFactor, VENT_PULL; pose proof (openFraction_range (win_open win)).
  split; [apply Rmult_le_pos; lra|].
  replace 0.08 with (0.08 * 1) at 2 by lra.
  apply Rmult_le_compat_l; lra.
Qed.

(** A chain of blends towards [target], each by a factor in [0, kmax], leaves
    a share of the gap between [(1 - kmax)^n] and 1. *)
Lemma sinkAt_share (width height target kmax : R) (factor : Window -> R)
      (windows : list Window) (g : nat -> nat -> R) (y x : nat) :
  0 <= kmax <= 1 ->
  (forall win, 0 <= factor win <= kmax) ->
  exists d, (1 - kmax) ^ length windows <= d <= 1 /\
            sinkAt width height target factor windows g y x - target
            = d * (g y x - target).
Proof.
  intros Hk Hf; unfold sinkAt; generalize (g y x) as c.
  induction windows as [|win ws IH]; intros c.
  - exists 1; simpl; split; lra.
  - cbn [fold_left length].
    assert (P : 0 <= (1 - kmax) ^ length ws) by (apply pow_le; lra).
    destruct (inBand width height 2.8 win y x).
    + destruct (IH (lerp c target (factor win))) as [d [[D1 D2] E]].
      exists (d * (1 - factor win)); pose proof (Hf win) as [F1 F2].
      split; [split|].
      * rewrite <- tech_pow_Rmult, Rmult_comm.
        apply Rmult_le_compat; lra.
      * replace 1 with (1 * 1) by lra; apply Rmult_le_compat; lra.
      * rewrite E; unfold lerp; lra.
    + destruct (IH c) as [d [[D1 D2] E]].
      exists d; split; [split; [|exact D2]|exact E].
      rewrite <- tech_pow_Rmult.
      apply (Rle_trans _ (1 * (1 - kmax) ^ length ws)); [|lra].
      apply Rmult_le_compat_r; lra.
Qed.

(** X10.  The sink pulls every cell towards the outdoor value and never past it:
    after [applyVentilation] the gap of a cell to the outdoor value is the
    old gap times a share between [0.92^n] and 1 ([n] windows) for CO2 and
    virus, between [0.936^n] and 1 for the temperature. *)
Theorem ventilation_shrinks_gap (width height outdoorCO2 outdoorTemp : R)
        (windows : list Window) (c v t : Field) :
  width <> 0 -> height <> 0 -> shaped c -> shaped v -> shaped t ->
  exists c' v' t',
    applyVentilation width height windows outdoorCO2 outdoorTemp (c, v, t)
    = Some (c', v', t') /\
    shaped c' /\ shaped v' /\ shaped t' /\
    forall y x, (y < rows)%nat -> (x < cols)%nat ->
      exists dc dv dt,
        0.92 ^ length windows <= dc <= 1 /\
        0.92 ^ length windows <= dv <= 1 /\
        0.936 ^ length windows <= dt <= 1 /\
        cellOf c' y x - outdoorCO2 = dc * (cellOf c y x - outdoorCO2) /\
        cellOf v' y x - 0 = dv * (cellOf v y x - 0) /\
        cellOf t' y x - outdoorTemp = dt * (cellOf t y x - outdoorTemp).
Proof.
  intros Hw Hh Hc Hv Ht.
  destruct (applyVentilation_spec width height Hw Hh outdoorCO2 outdoorTemp windows
              c v t _ _ _ (shaped_reps _ Hc) (shaped_reps _ Hv) (shaped_reps _ Ht))
    as [c' [v' [t' [E [Hc' [Hv' Ht']]]]]].
  exists c', v', t'; split; [exact E|].
  split; [exact (reps_shaped _ _ Hc')|].
  split; [exact (reps_shaped _ _ Hv')|].
  split; [exact (reps_shaped _ _ Ht')|].
  intros y x By Bx.
  assert (Gc : cellOf c' y x = sinkAt width height outdoorCO2 ventFactor windows (cellOf c) y x).
  { pose proof (reps_get _ _ _ _ (shaped_reps _ (reps_shaped _ _ Hc')) By Bx) as A.
    rewrite (reps_get _ _ _ _ Hc' By Bx) in A; congruence. }
  assert (Gv : cellOf v' y x = sinkAt width height outdoorVirus ventFactor windows (cellOf v) y x).
  { pose proof (reps_get _ _ _ _ (shaped_reps _ (reps_shaped _ _ Hv')) By Bx) as A.
    rewrite (reps_get _ _ _ _ Hv' By Bx) in A; congruence. }
  assert (Gt : cellOf t' y x
               = sinkAt width height outdoorTemp (fun win => ventFactor win * 0.8)
                        windows (cellOf t) y x).
  { pose proof (reps_get _ _ _ _ (shaped_reps _ (reps_shaped _ _ Ht')) By Bx) as A.
    rewrite (reps_get _ _ _ _ Ht' By Bx) in A; congruence. }
  destruct (sinkAt_share width height outdoorCO2 0.08 ventFactor windows (cellOf c) y x)
    as [dc [Dc Ec]]; [lra|apply ventFactor_range|].
  destruct (sinkAt_share width height outdoorVirus 0.08 ventFactor windows (cellOf v) y x)
    as [dv [Dv Ev]]; [lra|apply ventFactor_range|].
  destruct (sinkAt_share width height outdoorTemp 0.064 (fun win => ventFactor win * 0.8)
              windows (cellOf t) y x) as [dt [Dt Et]]; [lra| |].
  { intros win; pose proof (ventFactor_range win); unfold VENT_PULL in *; lra. }
  exists dc, dv, dt.
  replace (1 - 0.08) with 0.92 in * by lra.
  replace (1 - 0.064) with 0.936 in * by lra.
  rewrite Gc, Gv, Gt; unfold outdoorVirus in *; auto 10.
Qed.

Lemma ventilation_shrinks_gap_witness :
  let windows := [mkWindow (Some 0) (Some 250) (JNum 160) (JNum 1)] in
  exists c' v' t',
    applyVentilation 800 500 windows 420 10
      (make2D rows cols 1020, make2D rows cols 0, make2D rows cols 21)
    = Some (c', v', t') /\
    shaped c' /\ shaped v' /\ shaped t' /\
    forall y x, (y < rows)%nat -> (x < cols)%nat ->
      exists dc dv dt,
        0.92 ^ length windows <= dc <= 1 /\
        0.92 ^ length windows <= dv <= 1 /\
        0.936 ^ length windows <= dt <= 1 /\
        cellOf c' y x - 420 = dc * (cellOf (make2D rows cols 1020) y x - 420) /\
        cellOf v' y x - 0 = dv * (cellOf (make2D rows cols 0) y x - 0) /\
        cellOf t' y x - 10 = dt * (cellOf (make2D rows cols 21) y x - 10).
Proof.
  intros windows.
  apply (ventilation_shrinks_gap 800 500 420 10 windows).
  - lra.
  - lra.
  - apply shaped_make2D.
  - apply shaped_make2D.
  - apply shaped_make2D.
Defined.

Lemma reps_cellOf (a : Field) (g : nat -> nat -> R) (y x : nat) :
  reps a g -> (y < rows)%nat -> (x < cols)%nat -> cellOf a y x = g y x.
Proof.
  intros H By Bx.
  pose proof (reps_get _ _ _ _ (shaped_reps _ (reps_shaped _ _ H)) By Bx) as A.
  rewrite (reps_get _ _ _ _ H By Bx) in A; congruence.
Qed.

Lemma exp_nonpos_le_1 (z : R) : z <= 0 -> exp z <= 1.
Proof.
  intros H; destruct H as [H | ->]; [|rewrite exp_0; lra].
  rewrite <- exp_0; left; apply exp_increasing; exact H.
Qed.

Lemma occupantWeight_range (width height : R) (p : Occupant) (y x : nat) :
  0 < occupantWeight width height p y x <= 1.
Proof.
  unfold occupantWeight; cbv zeta; split; [apply exp_pos|].
  apply exp_nonpos_le_1.
  match goal with |- - (?a * ?a + ?b * ?b) / 10 <= 0 =>
    pose proof (Rle_0_sqr a); pose proof (Rle_0_sqr b); unfold Rsqr in *; lra end.
Qed.

Lemma intensityOf_range (p : Occupant) : 0.2 <= intensityOf p <= 3.
Proof.
  unfold intensityOf; destruct (occ_intensity p); simpl; try lra.
  pose proof (clamp_bounds r 0.2 3.0 ltac:(lra)); lra.
Qed.

Lemma emitAt_range (width height emit : R) (occupants : list Occupant)
      (g : nat -> nat -> R) (y x : nat) :
  0 < emit ->
  g y x <= emitAt width height emit occupants g y x
        <= g y x + 3 * emit * INR (length occupants) /\
  (occupants <> [] -> g y x < emitAt width height emit occupants g y x).
Proof.
  intros He; unfold emitAt; generalize (g y x) as c.
  induction occupants as [|p ps IH]; intros c.
  - simpl; split; [lra|intros N; contradiction].
  - cbn [fold_left]; change (length (p :: ps)) with (S (length ps)); rewrite S_INR.
    pose proof (occupantWeight_range width height p y x) as [W1 W2].
    pose proof (intensityOf_range p) as [I1 I2].
    assert (T1 : 0 < emit * intensityOf p * occupantWeight width height p y x).
    { apply Rmult_lt_0_compat; [apply Rmult_lt_0_compat|]; lra. }
    assert (T2 : emit * intensityOf p * occupantWeight width height p y x <= 3 * emit).
    { replace (3 * emit) with (emit * 3 * 1) by lra.
      apply Rmult_le_compat; try lra.
      - apply Rmult_le_pos; lra.
      - apply Rmult_le_compat_l; lra. }
    destruct (IH (c + emit * intensityOf p * occupantWeight width height p y x))
      as [[L U] _].
    split; [split|intros _]; lra.
Qed.

(** X11.  Occupants only add: [applyOccupants] raises every cell of every field,
    by a positive amount when there is an occupant, and by at most three
    times the emission constant for each occupant (54 for CO2, 3 for virus,
    0.12 for the temperature), the intensity being clamped to 3 and the
    Gaussian weight being at most 1. *)
Theorem occupants_only_add (width height : R) (occupants : list Occupant)
        (c v t : Field) :
  width <> 0 -> height <> 0 -> shaped c -> shaped v -> shaped t ->
  exists c' v' t',
    applyOccupants width height occupants (c, v, t) = Some (c', v', t') /\
    shaped c' /\ shaped v' /\ shaped t' /\
    forall y x, (y < rows)%nat -> (x < cols)%nat ->
      let n := INR (length occupants) in
      cellOf c y x <= cellOf c' y x <= cellOf c y x + 54 * n /\
      cellOf v y x <= cellOf v' y x <= cellOf v y x + 3 * n /\
      cellOf t y x <= cellOf t' y x <= cellOf t y x + 0.12 * n /\
      (occupants <> [] ->
       cellOf c y x < cellOf c' y x /\ cellOf v y x < cellOf v' y x /\
       cellOf t y x < cellOf t' y x).
Proof.
  intros Hw Hh Hc Hv Ht.
  destruct (applyOccupants_spec width height Hw Hh occupants
              c v t _ _ _ (shaped_reps _ Hc) (shaped_reps _ Hv) (shaped_reps _ Ht))
    as [c' [v' [t' [E [Hc' [Hv' Ht']]]]]].
  exists c', v', t'; split; [exact E|].
  split; [exact (reps_shaped _ _ Hc')|].
  split; [exact (reps_shaped _ _ Hv')|].
  split; [exact (reps_shaped _ _ Ht')|].
  intros y x By Bx n.
  rewrite (reps_cellOf _ _ _ _ Hc' By Bx), (reps_cellOf _ _ _ _ Hv' By Bx),
          (reps_cellOf _ _ _ _ Ht' By Bx).
  destruct (emitAt_range width height CO2_EMIT occupants (cellOf c) y x)
    as [[C1 C2] C3]; [unfold CO2_EMIT; lra|].
  destruct (emitAt_range width height VIRUS_EMIT occupants (cellOf v) y x)
    as [[V1 V2] V3]; [unfold VIRUS_EMIT; lra|].
  destruct (emitAt_range width height HEAT_EMIT occupants (cellOf t) y x)
    as [[T1 T2] T3]; [unfold HEAT_EMIT; lra|].
  fold n in C2, V2, T2; unfold CO2_EMIT, VIRUS_EMIT, HEAT_EMIT in *.
  repeat split; try lra; auto.
Qed.

Lemma occupants_only_add_witness :
  let occupants := [mkOccupant (Some 400) (Some 250) (JNum 7)] in
  let c := make2D rows cols 1020 in
  let v := make2D rows cols 0 in
  let t := make2D rows cols 21 in
  exists c' v' t',
    applyOccupants 800 500 occupants (c, v, t) = Some (c', v', t') /\
    shaped c' /\ shaped v' /\ shaped t' /\
    forall y x, (y < rows)%nat -> (x < cols)%nat ->
      let n := INR (length occupants) in
      cellOf c y x <= cellOf c' y x <= cellOf c y x + 54 * n /\
      cellOf v y x <= cellOf v' y x <= cellOf v y x + 3 * n /\
      cellOf t y x <= cellOf t' y x <= cellOf t y x + 0.12 * n /\
      (occupants <> [] ->
       cellOf c y x < cellOf c' y x /\ cellOf v y x < cellOf v' y x /\
       cellOf t y x < cellOf t' y x).
Proof.
  intros occupants c v t.
  apply (occupants_only_add 800 500 occupants c v t).
  - lra.
  - lra.
  - apply shaped_make2D.
  - apply shaped_make2D.
  - apply shaped_make2D.
Defined.

Lemma quarter_bound (dx dy : R) : Rabs (dx / (dx * dx + dy * dy + 6)) <= 1 / 4.
Proof.
  assert (P : 0 < dx * dx + dy * dy + 6) by (apply radial_pos; lra).
  unfold Rdiv; rewrite Rabs_mult, (Rabs_right (/ _))
    by (left; apply Rinv_0_lt_compat; exact P).
  apply (Rmult_le_reg_r (dx * dx + dy * dy + 6)); [exact P|].
  rewrite Rmult_assoc, Rinv_l by lra.
  pose proof (Rle_0_sqr dy) as Sy; unfold Rsqr in Sy.
  unfold Rabs; destruct (Rcase_abs dx).
  - pose proof (Rle_0_sqr (dx + 2)) as S; unfold Rsqr in S; lra.
  - pose proof (Rle_0_sqr (dx - 2)) as S; unfold Rsqr in S; lra.
Qed.

(** X12.  The push of a fan is radial and bounded.  What a fan adds at a cell is
    the offset of the cell from the fan times [q * strength], with one
    [q] in (0, FAN_STRENGTH / 6] for both components: it points away from a
    fan of positive strength, vanishes at the fan itself, and each component
    is at most [0.7 * |strength|]. *)
Theorem fan_push_bounded (width height : R) (f : Fan) (vx vy : Field) :
  width <> 0 -> height <> 0 -> shaped vx -> shaped vy ->
  exists vx' vy',
    fanPush width height f (vx, vy) = Some (vx', vy') /\
    shaped vx' /\ shaped vy' /\
    forall y x, (y < rows)%nat -> (x < cols)%nat ->
      let dx := INR x - orZero (fan_x f) / width * (INR cols - 1) in
      let dy := INR y - orZero (fan_y f) / height * (INR rows - 1) in
      let strength := ifFinite (fan_strength f) (fun s => s) 1 in
      exists q,
        0 < q <= FAN_STRENGTH / 6 /\
        cellOf vx' y x - cellOf vx y x = q * strength * dx /\
        cellOf vy' y x - cellOf vy y x = q * strength * dy /\
        Rabs (cellOf vx' y x - cellOf vx y x) <= 0.7 * Rabs strength /\
        Rabs (cellOf vy' y x - cellOf vy y x) <= 0.7 * Rabs strength.
Proof.
  intros Hw Hh Hx Hy.
  destruct (fanPush_spec width height Hw Hh f vx vy _ _
              (shaped_reps _ Hx) (shaped_reps _ Hy)) as [vx' [vy' [E [Hx' Hy']]]].
  exists vx', vy'; split; [exact E|].
  split; [exact (reps_shaped _ _ Hx')|split; [exact (reps_shaped _ _ Hy')|]].
  intros y x By Bx dx dy strength.
  rewrite (reps_cellOf _ _ _ _ Hx' By Bx), (reps_cellOf _ _ _ _ Hy' By Bx).
  unfold fanVelocity, gridX, gridY; cbv zeta; cbn [fst snd].
  replace 1.0 with 1 by lra; fold dx dy strength.
  assert (P : 0 < dx * dx + dy * dy + 6) by (apply radial_pos; lra).
  exists (FAN_STRENGTH / (dx * dx + dy * dy + 6)).
  assert (Q : 0 < FAN_STRENGTH / (dx * dx + dy * dy + 6) <= FAN_STRENGTH / 6).
  { unfold FAN_STRENGTH, Rdiv; split.
    - apply Rmult_lt_0_compat; [lra|apply Rinv_0_lt_compat; exact P].
    - apply Rmult_le_compat_l; [lra|].
      apply Rinv_le_contravar; [lra|].
      pose proof (Rle_0_sqr dx); pose proof (Rle_0_sqr dy); unfold Rsqr in *; lra. }
  split; [exact Q|].
  split; [unfold Rdiv; lra|split; [unfold Rdiv; lra|]].
  assert (B : forall d e : R,
    Rabs (cellOf vx y x - cellOf vx y x + d / (d * d + e * e + 6) * FAN_STRENGTH * strength)
    <= 0.7 * Rabs strength).
  { intros d e.
    replace (cellOf vx y x - cellOf vx y x + d / (d * d + e * e + 6) * FAN_STRENGTH * strength)
      with (d / (d * d + e * e + 6) * (FAN_STRENGTH * strength)) by lra.
    rewrite Rabs_mult, (Rabs_mult FAN_STRENGTH), (Rabs_right FAN_STRENGTH)
      by (unfold FAN_STRENGTH; lra).
    pose proof (quarter_bound d e); pose proof (Rabs_pos strength).
    unfold FAN_STRENGTH.
    apply (Rle_trans _ (1 / 4 * (2.8 * Rabs strength))); [|lra].
    apply Rmult_le_compat_r; [lra|assumption]. }
  split.
  - replace (cellOf vx y x + dx / (dx * dx + dy * dy + 6) * FAN_STRENGTH * strength
             - cellOf vx y x)
      with (cellOf vx y x - cellOf vx y x
            + dx / (dx * dx + dy * dy + 6) * FAN_STRENGTH * strength) by lra.
    apply B.
  - replace (cellOf vy y x + dy / (dx * dx + dy * dy + 6) * FAN_STRENGTH * strength
             - cellOf vy y x)
      with (cellOf vx y x - cellOf vx y x
            + dy / (dy * dy + dx * dx + 6) * FAN_STRENGTH * strength).
    + apply B.
    + replace (dy * dy + dx * dx + 6) with (dx * dx + dy * dy + 6) by lra; lra.
Qed.

Lemma fan_push_bounded_witness :
  let f := mkFan (Some 400) (Some 250) (JNum 2) in
  let zero := make2D rows cols 0 in
  exists vx' vy',
    fanPush 800 500 f (zero, zero) = Some (vx', vy') /\
    shaped vx' /\ shaped vy' /\
    forall y x, (y < rows)%nat -> (x < cols)%nat ->
      let dx := INR x - orZero (fan_x f) / 800 * (INR cols - 1) in
      let dy := INR y - orZero (fan_y f) / 500 * (INR rows - 1) in
      let strength := ifFinite (fan_strength f) (fun s => s) 1 in
      exists q,
        0 < q <= FAN_STRENGTH / 6 /\
        cellOf vx' y x - cellOf zero y x = q * strength * dx /\
        cellOf vy' y x - cellOf zero y x = q * strength * dy /\
        Rabs (cellOf vx' y x - cellOf zero y x) <= 0.7 * Rabs strength /\
        Rabs (cellOf vy' y x - cellOf zero y x) <= 0.7 * Rabs strength.
Proof.
  intros f zero.
  apply (fan_push_bounded 800 500 f zero zero).
  - lra.
  - lra.
  - apply shaped_make2D.
  - apply shaped_make2D.
Defined.

(** ** The whole result, arrows included *)

Lemma cellsOf_ext (gc gv gt gc' gv' gt' : nat -> nat -> R) :
  (forall y x, (y < rows)%nat -> (x < cols)%nat ->
     gc y x = gc' y x /\ gv y x = gv' y x /\ gt y x = gt' y x) ->
  cellsOf gc gv gt = cellsOf gc' gv' gt'.
Proof.
  intros H; unfold cellsOf.
  apply map_ext_in; intros y Hy; apply in_seq in Hy.
  apply map_ext_in; intros x Hx; apply in_seq in Hx.
  destruct (H y x ltac:(lia) ltac:(lia)) as [-> [-> ->]]; reflexivity.
Qed.

Lemma flat_map_ext_in {A B : Type} (f g : A -> list B) (l : list A) :
  (forall e, In e l -> f e = g e) -> flat_map f l = flat_map g l.
Proof.
  induction l as [|e l IH]; intros H; simpl; [reflexivity|].
  rewrite (H e (or_introl eq_refl)), IH; [reflexivity|].
  intros; apply H; right; assumption.
Qed.

Lemma arrowsOf_ext (gx gy gx' gy' : nat -> nat -> R) :
  (forall y x, (y < rows)%nat -> (x < cols)%nat ->
     gx y x = gx' y x /\ gy y x = gy' y x) ->
  arrowsOf gx gy = arrowsOf gx' gy'.
Proof.
  intros H; unfold arrowsOf.
  apply flat_map_ext_in; intros y Iy.
  apply map_ext_in; intros x Ix.
  destruct (H y x (strided_rows_in y Iy) (strided_cols_in x Ix)) as [-> ->].
  reflexivity.
Qed.

(** ** An empty room *)

Lemma make2D_unique (a : Field) (k : R) : reps a (fun _ _ => k) -> a = make2D rows cols k.
Proof. intros H; apply (reps_unique a _ _ H (reps_make2D k)). Qed.

Lemma diffuse_uniform (k : R) : diffuse (make2D rows cols k) = Some (make2D rows cols k).
Proof.
  destruct (diffuse_spec _ _ (reps_make2D k)) as [out [E Ho]]; rewrite E; f_equal.
  apply make2D_unique; apply (reps_ext _ _ _ Ho); intros y x _ _.
  unfold diffuseAt, lerp; cbv zeta; lra.
Qed.

Lemma timestep_uniform (width height outdoorCO2 outdoorTemp kc kv kt : R) (n : nat)
      (lastV : Field * Field) :
  timestep width height [] [] [] outdoorCO2 outdoorTemp n
           (lastV, (make2D rows cols kc, make2D rows cols kv, make2D rows cols kt))
  = Some ((make2D rows cols 0, make2D rows cols 0),
          (make2D rows cols (clamp kc outdoorCO2 5000),
           make2D rows cols (clamp kv 0 1000),
           make2D rows cols (clamp kt (-10) 40))).
Proof.
  unfold timestep.
  change (computeVelocity width height [] [])
    with (Some (make2D rows cols 0, make2D rows cols 0)).
  cbn [fst snd].
  rewrite !advect_still_air by apply shaped_make2D.
  rewrite !diffuse_uniform.
  change (applyOccupants width height [] ?s) with (Some s).
  cbn [applyOccupants applyVentilation forEach].
  destruct (clampFields_spec outdoorCO2 _ _ _ _ _ _
              (reps_make2D kc) (reps_make2D kv) (reps_make2D kt))
    as [c [v [t [E [Hc [Hv Ht]]]]]].
  unfold applyOccupants, applyVentilation; cbn [forEach]; rewrite E.
  rewrite (make2D_unique c _ Hc), (make2D_unique v _ Hv), (make2D_unique t _ Ht).
  reflexivity.
Qed.

Lemma runSteps_empty (width height outdoorCO2 outdoorTemp : R) (n : nat) :
  let k := clamp (outdoorCO2 + 600) outdoorCO2 5000 in
  runSteps width height [] [] [] outdoorCO2 outdoorTemp (S n)
  = Some ((make2D rows cols 0, make2D rows cols 0),
          (make2D rows cols k, make2D rows cols 0, make2D rows cols 21)).
Proof.
  intros k; unfold runSteps.
  change (computeVelocity width height [] [])
    with (Some (make2D rows cols 0, make2D rows cols 0)).
  cbn [seq forEach]; rewrite timestep_uniform.
  replace (clamp 0.0 0 1000) with 0 by (rewrite clamp_inside; lra).
  replace (clamp 21.0 (-10) 40) with 21 by (rewrite clamp_inside; lra).
  fold k.
  assert (G : forall m a,
    forEach (timestep width height [] [] [] outdoorCO2 outdoorTemp) (seq a m)
      ((make2D rows cols 0, make2D rows cols 0),
       (make2D rows cols k, make2D rows cols 0, make2D rows cols 21))
    = Some ((make2D rows cols 0, make2D rows cols 0),
            (make2D rows cols k, make2D rows cols 0, make2D rows cols 21))).
  { induction m as [|m IH]; intros a; [reflexivity|].
    cbn [seq forEach]; rewrite timestep_uniform.
    unfold k at 1; rewrite clamp_idem; fold k.
    rewrite (clamp_inside 0), (clamp_inside 21) by lra.
    apply IH. }
  apply G.
Qed.

Lemma maxList_const (l : list R) (k : R) :
  l <> [] -> (forall v, In v l -> v = k) -> maxList l = Rmax 0 k.
Proof.
  intros N H.
  pose proof (proj1 (maxList_from l 0)) as P; fold (maxList l) in P.
  assert (K : k <= maxList l).
  { destruct l as [|w l]; [contradiction|].
    rewrite <- (H w (or_introl eq_refl)); apply maxList_ge; left; reflexivity. }
  destruct (maxList_pick l 0) as [E|I]; fold (maxList l) in *.
  - rewrite E in *; unfold Rmax; destruct (Rle_dec 0 k); lra.
  - rewrite (H _ I) in *; unfold Rmax; destruct (Rle_dec 0 k); lra.
Qed.

Lemma mean_const (l : list R) (k : R) :
  l <> [] -> (forall v, In v l -> v = k) -> mean l = k.
Proof.
  intros N H.
  assert (P : 0 < INR (length l)) by (apply lt_0_INR; destruct l; [contradiction|simpl; lia]).
  apply Rle_antisym.
  - apply mean_le_bound; [exact N|]; intros v Hv; rewrite (H v Hv); lra.
  - unfold mean; apply mean_lower; [exact P|].
    apply sumList_lower; intros v Hv; rewrite (H v Hv); lra.
Qed.



(** ** Closed windows *)

Lemma bilinear_ext (g g' : nat -> nat -> R) (x y : R) :
  (forall y x, (y < rows)%nat -> (x < cols)%nat -> g y x = g' y x) ->
  bilinear g x y = bilinear g' x y.
Proof.
  intros H; unfold bilinear, bilinearOn; cbv zeta.
  destruct (floor_clamped x cols ltac:(unfold cols; lia)) as [_ Bx].
  destruct (floor_clamped y rows ltac:(unfold rows; lia)) as [_ By].
  cbv zeta in Bx, By.
  rewrite !H by (unfold rows, cols in *; lia); reflexivity.
Qed.

Lemma diffuseAt_ext (g g' : nat -> nat -> R) (y x : nat) :
  (forall y x, (y < rows)%nat -> (x < cols)%nat -> g y x = g' y x) ->
  (y < rows)%nat -> (x < cols)%nat -> diffuseAt g y x = diffuseAt g' y x.
Proof.
  intros H Hy Hx; unfold diffuseAt; cbv zeta.
  rewrite !H by (unfold rows, cols in *; lia); reflexivity.
Qed.

Section Closed.

Variables width height : R.
Variable fans : list Fan.
Variable windows : list Window.
Variable occupants : list Occupant.
Hypothesis closed : forall win, In win windows -> openFraction (win_open win) = 0.

Lemma closed_velocityX (y x : nat) :
  velocityX width height fans windows y x = velocityX width height fans [] y x.
Proof.
  unfold velocityX; cbn [fold_left].
  generalize (fold_left (fun acc f => acc + fst (fanVelocity width height f y x)) fans 0).
  induction windows as [|win ws IH]; intros c; [reflexivity|].
  cbn [fold_left]; rewrite IH by (intros; apply closed; right; assumption).
  unfold windowVelocity; rewrite (closed win (or_introl eq_refl)).
  destruct (inBand width height 2.2 win y x); cbn [fst]; lra.
Qed.

Lemma closed_velocityY (y x : nat) :
  velocityY width height fans windows y x = velocityY width height fans [] y x.
Proof.
  unfold velocityY; cbn [fold_left].
  generalize (fold_left (fun acc f => acc + snd (fanVelocity width height f y x)) fans 0).
  induction windows as [|win ws IH]; intros c; [reflexivity|].
  cbn [fold_left]; rewrite IH by (intros; apply closed; right; assumption).
  unfold windowVelocity; rewrite (closed win (or_introl eq_refl)).
  destruct (inBand width height 2.2 win y x); cbn [snd]; lra.
Qed.

Lemma closed_sinkAt (target scale : R) (g : nat -> nat -> R) (y x : nat) :
  sinkAt width height target (fun win => ventFactor win * scale) windows g y x = g y x.
Proof.
  unfold sinkAt; generalize (g y x) as c.
  induction windows as [|win ws IH]; intros c; [reflexivity|].
  cbn [fold_left]; rewrite IH by (intros; apply closed; right; assumption).
  unfold ventFactor; rewrite (closed win (or_introl eq_refl)).
  destruct (inBand width height 2.8 win y x); unfold lerp; lra.
Qed.

Lemma closed_evolve (emit target scale lo hi : R) (g g' : nat -> nat -> R) (y x : nat) :
  (forall y x, (y < rows)%nat -> (x < cols)%nat -> g y x = g' y x) ->
  (y < rows)%nat -> (x < cols)%nat ->
  evolve width height fans windows occupants emit target
         (fun win => ventFactor win * scale) lo hi g y x
  = evolve width height fans [] occupants emit target
           (fun win => ventFactor win * scale) lo hi g' y x.
Proof.
  intros H Hy Hx; unfold evolve; cbv zeta.
  rewrite closed_sinkAt; unfold sinkAt at 1; cbn [fold_left].
  f_equal; unfold emitAt; f_equal.
  apply diffuseAt_ext; [|assumption|assumption].
  intros y' x' Hy' Hx'; unfold advectAt.
  rewrite closed_velocityX, closed_velocityY.
  apply bilinear_ext; exact H.
Qed.

End Closed.

Lemma evolve_factor_ext (width height : R) (fans : list Fan) (windows : list Window)
      (occupants : list Occupant) (emit target lo hi : R) (f f' : Window -> R)
      (g : nat -> nat -> R) (y x : nat) :
  (forall win, f win = f' win) ->
  evolve width height fans windows occupants emit target f lo hi g y x
  = evolve width height fans windows occupants emit target f' lo hi g y x.
Proof.
  intros H; unfold evolve; cbv zeta; f_equal; unfold sinkAt.
  generalize (emitAt width height emit occupants
    (diffuseAt (advectAt g (velocityX width height fans windows)
                         (velocityY width height fans windows))) y x) as c.
  induction windows as [|win ws IH]; intros c; [reflexivity|].
  cbn [fold_left]; rewrite H; apply IH.
Qed.

(** X14.  A closed window is as good as no window: when every window of the input
    has an open fraction of 0 (or less), the simulation returns what it
    returns on the same input without its windows: grid, arrows and
    statistics. *)
Theorem closed_windows_are_inert (input : Input) :
  roomWidth input <> 0 -> roomHeight input <> 0 ->
  (forall win, In win (orEmpty (in_windows input)) ->
     exists o, win_open win = JNum o /\ o <= 0) ->
  exists res,
    simulate input = Some res /\
    simulate (mkInput (in_width input) (in_height input) (in_fans input) None
                      (in_occupants input) (in_outdoor input)) = Some res.
Proof.
  intros Hw Hh Hclosed.
  assert (closed : forall win, In win (orEmpty (in_windows input)) ->
                               openFraction (win_open win) = 0).
  { intros win Hin; destruct (Hclosed win Hin) as [o [-> Ho]].
    simpl; apply clamp_below; lra. }
  rewrite !simulate_unfold.
  change (roomWidth (mkInput _ _ _ _ _ _)) with (roomWidth input).
  change (roomHeight (mkInput _ _ _ _ _ _)) with (roomHeight input).
  change (outdoorCO2Of (mkInput _ _ _ _ _ _)) with (outdoorCO2Of input).
  change (outdoorTempOf (mkInput _ _ _ _ _ _)) with (outdoorTempOf input).
  cbn [in_fans in_windows in_occupants orEmpty].
  rewrite !simulateWith_full by assumption; cbv zeta.
  set (w := roomWidth input) in *; set (h := roomHeight input) in *.
  set (fans := orEmpty (in_fans input)); set (wins := orEmpty (in_windows input)) in *.
  set (occ := match in_occupants input with Some l => l | None => [] end).
  assert (Eocc : orEmpty (in_occupants input) = occ) by reflexivity.
  rewrite ?Eocc.
  eexists; split; [reflexivity|].
  assert (C : forall n y x, (y < rows)%nat -> (x < cols)%nat ->
    co2After w h fans wins occ (outdoorCO2Of input) n y x
    = co2After w h fans [] occ (outdoorCO2Of input) n y x /\
    virusAfter w h fans wins occ n y x = virusAfter w h fans [] occ n y x /\
    tempAfter w h fans wins occ (outdoorTempOf input) n y x
    = tempAfter w h fans [] occ (outdoorTempOf input) n y x).
  { induction n as [|n IH]; intros y x By Bx; [repeat split|].
    change (co2After w h fans wins occ (outdoorCO2Of input) (S n) y x)
      with (evolve w h fans wins occ CO2_EMIT (outdoorCO2Of input) ventFactor
              (outdoorCO2Of input) 5000
              (co2After w h fans wins occ (outdoorCO2Of input) n) y x).
    change (co2After w h fans [] occ (outdoorCO2Of input) (S n) y x)
      with (evolve w h fans [] occ CO2_EMIT (outdoorCO2Of input) ventFactor
              (outdoorCO2Of input) 5000
              (co2After w h fans [] occ (outdoorCO2Of input) n) y x).
    change (virusAfter w h fans wins occ (S n) y x)
      with (evolve w h fans wins occ VIRUS_EMIT outdoorVirus ventFactor 0 1000
              (virusAfter w h fans wins occ n) y x).
    change (virusAfter w h fans [] occ (S n) y x)
      with (evolve w h fans [] occ VIRUS_EMIT outdoorVirus ventFactor 0 1000
              (virusAfter w h fans [] occ n) y x).
    change (tempAfter w h fans wins occ (outdoorTempOf input) (S n) y x)
      with (evolve w h fans wins occ HEAT_EMIT (outdoorTempOf input)
              (fun win => ventFactor win * 0.8) (-10) 40
              (tempAfter w h fans wins occ (outdoorTempOf input) n) y x).
    change (tempAfter w h fans [] occ (outdoorTempOf input) (S n) y x)
      with (evolve w h fans [] occ HEAT_EMIT (outdoorTempOf input)
              (fun win => ventFactor win * 0.8) (-10) 40
              (tempAfter w h fans [] occ (outdoorTempOf input) n) y x).
    repeat split.
    - rewrite (evolve_factor_ext w h fans wins occ _ _ _ _ ventFactor
                 (fun win => ventFactor win * 1)) by (intros; lra).
      rewrite (evolve_factor_ext w h fans [] occ _ _ _ _ ventFactor
                 (fun win => ventFactor win * 1)) by (intros; lra).
      apply closed_evolve; auto; intros; apply IH; assumption.
    - rewrite (evolve_factor_ext w h fans wins occ _ _ _ _ ventFactor
                 (fun win => ventFactor win * 1)) by (intros; lra).
      rewrite (evolve_factor_ext w h fans [] occ _ _ _ _ ventFactor
                 (fun win => ventFactor win * 1)) by (intros; lra).
      apply closed_evolve; auto; intros; apply IH; assumption.
    - apply closed_evolve; auto; intros; apply IH; assumption. }
  rewrite (cellsOf_ext _ _ _ _ _ _ (C STEPS)).
  rewrite (arrowsOf_ext (velocityX w h fans wins) (velocityY w h fans wins)
             (velocityX w h fans []) (velocityY w h fans []));
    [reflexivity|].
  intros y x _ _; split;
    [apply closed_velocityX | apply closed_velocityY]; exact closed.
Qed.

Lemma closed_windows_are_inert_witness :
  let input := mkInput (JNum 800) (JNum 500) None
                       (Some [mkWindow (Some 0) (Some 250) (JNum 160) (JNum 0)])
                       (Some [mkOccupant (Some 400) (Some 250) (JNum 1)]) None in
  exists res,
    simulate input = Some res /\
    simulate (mkInput (JNum 800) (JNum 500) None None
                      (Some [mkOccupant (Some 400) (Some 250) (JNum 1)]) None)
    = Some res.
Proof.
  intros input; apply (closed_windows_are_inert input).
  - unfold input, roomWidth; simpl; lra.
  - unfold input, roomHeight; simpl; lra.
  - intros win [<-|[]]; exists 0; split; [reflexivity|lra].
Defined.

(** ** The unit of length does not matter *)

Lemma forEach_ext {A St : Type} (f g : A -> St -> option St) (l : list A) (s : St) :
  (forall e s, In e l -> f e s = g e s) -> forEach f l s = forEach g l s.
Proof.
  revert s; induction l as [|e l IH]; intros s H; simpl; [reflexivity|].
  rewrite (H e s (or_introl eq_refl)).
  destruct (g e s); [|reflexivity].
  apply IH; intros; apply H; right; assumption.
Qed.

Lemma forEach_map {A B St : Type} (body : B -> St -> option St) (f : A -> B)
      (l : list A) (s : St) :
  forEach body (map f l) s = forEach (fun e => body (f e)) l s.
Proof.
  revert s; induction l as [|e l IH]; intros s; simpl; [reflexivity|].
  destruct (body (f e) s); [apply IH|reflexivity].
Qed.

Section Scaling.

Variable k : R.
Hypothesis k_pos : 0 < k.
Variables width height : R.

Lemma orZero_scale (c : option R) : orZero (scaleCoord k c) = k * orZero c.
Proof. destruct c; simpl; lra. Qed.

Lemma fdiv_scale (a b : R) : fdiv (k * a) (k * b) = fdiv a b.
Proof.
  unfold fdiv; destruct (Req_dec_T b 0) as [->|N].
  - destruct (Req_dec_T (k * 0) 0) as [_|N]; [reflexivity|exfalso; apply N; lra].
  - destruct (Req_dec_T (k * b) 0) as [E|_].
    + exfalso; apply Rmult_integral in E; destruct E; [lra|contradiction].
    + f_equal; field; split; lra.
Qed.

Lemma pxToGX_scale (px : R) : pxToGX (k * width) (k * px) = pxToGX width px.
Proof. unfold pxToGX; rewrite fdiv_scale; reflexivity. Qed.

Lemma pxToGY_scale (px : R) : pxToGY (k * height) (k * px) = pxToGY height px.
Proof. unfold pxToGY; rewrite fdiv_scale; reflexivity. Qed.

Lemma scale_le (a b : R) : k * a <= k * b <-> a <= b.
Proof.
  split; intros H; [apply (Rmult_le_reg_l k); assumption|].
  apply Rmult_le_compat_l; lra.
Qed.

Lemma min4_scale_first (a b c d : R) :
  Rmin (Rmin (Rmin (k * a) (k * b)) (k * c)) (k * d) = k * a
  <-> Rmin (Rmin (Rmin a b) c) d = a.
Proof. rewrite !min4_first, !scale_le; tauto. Qed.

Lemma min4_scale_second (a b c d : R) :
  Rmin (Rmin (Rmin (k * a) (k * b)) (k * c)) (k * d) = k * b
  <-> Rmin (Rmin (Rmin a b) c) d = b.
Proof. rewrite !min4_second, !scale_le; tauto. Qed.

Lemma min4_scale_third (a b c d : R) :
  Rmin (Rmin (Rmin (k * a) (k * b)) (k * c)) (k * d) = k * c
  <-> Rmin (Rmin (Rmin a b) c) d = c.
Proof. rewrite !min4_third, !scale_le; tauto. Qed.

Lemma wallDir_scale (wx wy : R) :
  wallDir (k * width) (k * height) (k * wx) (k * wy) = wallDir width height wx wy.
Proof.
  unfold wallDir; cbv zeta.
  replace (k * width - k * wx) with (k * (width - wx)) by lra.
  replace (k * height - k * wy) with (k * (height - wy)) by lra.
  set (m' := Rmin (Rmin (Rmin (k * wx) (k * (width - wx))) (k * wy)) (k * (height - wy))).
  set (m := Rmin (Rmin (Rmin wx (width - wx)) wy) (height - wy)).
  pose proof (min4_scale_first wx (width - wx) wy (height - wy)) as H1.
  pose proof (min4_scale_second wx (width - wx) wy (height - wy)) as H2.
  pose proof (min4_scale_third wx (width - wx) wy (height - wy)) as H3.
  fold m m' in H1, H2, H3.
  destruct (Req_dec_T m' (k * wx)), (Req_dec_T m wx); try tauto.
  destruct (Req_dec_T m' (k * (width - wx))), (Req_dec_T m (width - wx)); try tauto.
  destruct (Req_dec_T m' (k * wy)), (Req_dec_T m wy); tauto.
Qed.

Lemma fanPush_scale (f : Fan) (v : Field * Field) :
  fanPush (k * width) (k * height) (scaleFan k f) v = fanPush width height f v.
Proof.
  unfold fanPush, scaleFan; cbn [fan_x fan_y fan_strength].
  rewrite !orZero_scale, pxToGX_scale, pxToGY_scale; reflexivity.
Qed.

Lemma windowFlow_scale (win : Window) (v : Field * Field) :
  windowFlow (k * width) (k * height) (scaleWindow k win) v
  = windowFlow width height win v.
Proof.
  unfold windowFlow, scaleWindow; cbn [win_x win_y win_w win_open ifFinite].
  rewrite !orZero_scale, wallDir_scale, pxToGX_scale, pxToGY_scale, fdiv_scale.
  reflexivity.
Qed.

Lemma occupantEmit_scale (p : Occupant) (s : Field * Field * Field) :
  occupantEmit (k * width) (k * height) (scaleOccupant k p) s
  = occupantEmit width height p s.
Proof.
  unfold occupantEmit, scaleOccupant; cbn [occ_x occ_y occ_intensity].
  rewrite !orZero_scale, pxToGX_scale, pxToGY_scale; reflexivity.
Qed.

Lemma windowSink_scale (outdoorCO2 outdoorTemp : R) (win : Window)
      (s : Field * Field * Field) :
  windowSink (k * width) (k * height) outdoorCO2 outdoorTemp (scaleWindow k win) s
  = windowSink width height outdoorCO2 outdoorTemp win s.
Proof.
  unfold windowSink, scaleWindow; cbn [win_x win_y win_w win_open ifFinite].
  rewrite !orZero_scale, pxToGX_scale, pxToGY_scale, fdiv_scale; reflexivity.
Qed.

Variable fans : list Fan.
Variable windows : list Window.
Variable occupants : list Occupant.
Variables outdoorCO2 outdoorTemp : R.

Ltac same_head :=
  match goal with
  | |- match ?e with Some _ => _ | None => None end
       = match ?e with Some _ => _ | None => None end =>
      destruct e; [|reflexivity]
  end.

Lemma fans_scale (v : Field * Field) :
  forEach (fanPush (k * width) (k * height)) (map (scaleFan k) fans) v
  = forEach (fanPush width height) fans v.
Proof. rewrite forEach_map; apply forEach_ext; intros; apply fanPush_scale. Qed.

Lemma windows_scale (v : Field * Field) :
  forEach (windowFlow (k * width) (k * height)) (map (scaleWindow k) windows) v
  = forEach (windowFlow width height) windows v.
Proof. rewrite forEach_map; apply forEach_ext; intros; apply windowFlow_scale. Qed.

Lemma computeVelocity_scale :
  computeVelocity (k * width) (k * height)
                  (map (scaleFan k) fans) (map (scaleWindow k) windows)
  = computeVelocity width height fans windows.
Proof.
  unfold computeVelocity; rewrite fans_scale.
  same_head; apply windows_scale.
Qed.

Lemma applyOccupants_scale (s : Field * Field * Field) :
  applyOccupants (k * width) (k * height) (map (scaleOccupant k) occupants) s
  = applyOccupants width height occupants s.
Proof.
  unfold applyOccupants; rewrite forEach_map; apply forEach_ext; intros.
  apply occupantEmit_scale.
Qed.

Lemma applyVentilation_scale (s : Field * Field * Field) :
  applyVentilation (k * width) (k * height) (map (scaleWindow k) windows)
                   outdoorCO2 outdoorTemp s
  = applyVentilation width height windows outdoorCO2 outdoorTemp s.
Proof.
  unfold applyVentilation; rewrite forEach_map; apply forEach_ext; intros.
  apply windowSink_scale.
Qed.

Lemma timestep_scale (t : nat) (st : (Field * Field) * (Field * Field * Field)) :
  timestep (k * width) (k * height) (map (scaleFan k) fans)
           (map (scaleWindow k) windows) (map (scaleOccupant k) occupants)
           outdoorCO2 outdoorTemp t st
  = timestep width height fans windows occupants outdoorCO2 outdoorTemp t st.
Proof.
  unfold timestep; destruct st as [lv [[c v] u]]; rewrite computeVelocity_scale.
  do 7 same_head.
  rewrite applyOccupants_scale; same_head.
  rewrite applyVentilation_scale; reflexivity.
Qed.

Lemma simulateWith_scale :
  simulateWith (k * width) (k * height) (map (scaleFan k) fans)
               (map (scaleWindow k) windows) (map (scaleOccupant k) occupants)
               outdoorCO2 outdoorTemp
  = simulateWith width height fans windows occupants outdoorCO2 outdoorTemp.
Proof.
  unfold simulateWith, runSteps; rewrite computeVelocity_scale.
  destruct (computeVelocity width height fans windows) as [lastV|]; [|reflexivity].
  rewrite (forEach_ext _
    (timestep width height fans windows occupants outdoorCO2 outdoorTemp))
    by (intros; apply timestep_scale).
  reflexivity.
Qed.

End Scaling.

(** X15.  The simulation sees the room only through ratios of lengths: multiplying
    the width, the height, every coordinate and every window width by one
    factor [k > 0] leaves the result as it is, whether the run returns or
    not. *)
Theorem simulate_scale_invariant (k : R) (input : Input) :
  0 < k -> simulate (scaleInput k input) = simulate input.
Proof.
  intros Hk; rewrite !simulate_unfold.
  exact (simulateWith_scale k Hk (roomWidth input) (roomHeight input)
           (orEmpty (in_fans input)) (orEmpty (in_windows input))
           (orEmpty (in_occupants input)) (outdoorCO2Of input) (outdoorTempOf input)).
Qed.

Lemma simulate_scale_invariant_witness :
  let input := mkInput (JNum 800) (JNum 500)
                 (Some [mkFan (Some 100) (Some 50) JAbsent])
                 (Some [mkWindow (Some 0) (Some 250) JAbsent (JNum 1)])
                 (Some [mkOccupant (Some 400) None (JNum 1)]) None in
  simulate (scaleInput (1 / 25) input) = simulate input.
Proof. intros input; apply simulate_scale_invariant; lra. Defined.

(** ** The fan the optimizer proposes *)

(** After at least one trial the loop holds a trial fan, its score and its
    statistics. *)
Lemma searchFan_holds_trial (random : nat -> R) (width height : R)
      (windows : list Window) (occupants : list Occupant) (outdoor : Outdoor)
      (n : nat) (b : Best) :
  searchFan random width height windows occupants outdoor (S n) = Some b ->
  exists i s, (i <= n)%nat /\
    b = mkBest (trialFan random width height i) (Some (scoreOf s)) (Some s).
Proof.
  intros E; destruct (searchFan_spec _ _ _ _ _ _ _ _ E)
    as [[N _]|[i [r [Hi [_ [-> _]]]]]]; [discriminate|].
  exists i, (stats r); split; [lia|reflexivity].
Qed.

(** X16.  The optimizer proposes a point of the room.  On a room of moderate
    size, and with [Math.random()] in [0, 1), the optimizer returns: its fan
    has strength 1.0 and lies at [0 <= x < width], [0 <= y < height], and its
    statistics and its score are those of a simulation of the room with a fan
    of strength 1.0, the score rounded; so it does not return the [Infinity]
    and the [null] it starts from. *)
Theorem optimizer_fan_in_room (random : nat -> R) (input : Input) :
  moderateRoom (roomWidth input) (roomHeight input)
               (orEmpty (in_windows input)) (orEmpty (in_occupants input))
               (outdoorCO2Of input) (outdoorTempOf input) ->
  (forall n, 0 <= random n < 1) ->
  exists best x y r,
    optimizeFan random input = Some best /\
    opt_bestFan best = mkFan (Some x) (Some y) (JNum 1.0) /\
    0 <= x < roomWidth input /\ 0 <= y < roomHeight input /\
    simulate (mkInput (JNum (roomWidth input)) (JNum (roomHeight input))
                      (Some [opt_bestFan best]) (Some (orEmpty (in_windows input)))
                      (Some (orEmpty (in_occupants input))) (Some (outdoorOf input)))
    = Some r /\
    opt_score best = Some (toFixed3 (scoreOf (stats r))) /\
    opt_stats best = Some (stats r).
Proof.
  intros [Hw [Hh _]] Hr; rewrite optimizeFan_unfold.
  destruct (searchFan_total random (roomWidth input) (roomHeight input)
              (orEmpty (in_windows input)) (orEmpty (in_occupants input))
              (outdoorOf input) TRIES) as [b E]; [lra|lra|].
  rewrite E.
  destruct (searchFan_spec random _ _ _ _ _ TRIES b E)
    as [[N _]|[i [r [_ [Er [-> _]]]]]]; [discriminate|].
  exists (mkOptResult (trialFan random (roomWidth input) (roomHeight input) i)
                      (Some (toFixed3 (scoreOf (stats r)))) (Some (stats r))).
  exists (random (2 * i)%nat * roomWidth input),
         (random (2 * i + 1)%nat * roomHeight input), r.
  split; [reflexivity|split; [reflexivity|]].
  pose proof (Hr (2 * i)%nat) as Hx; pose proof (Hr (2 * i + 1)%nat) as Hy.
  split; [split; nra|split; [split; nra|]].
  split; [exact Er|split; reflexivity].
Qed.

Lemma optimizer_fan_in_room_witness :
  let input := mkInput JAbsent (JNum 300) None
                 (Some [mkWindow (Some 0) (Some 150) JAbsent (JNum 1)])
                 (Some [mkOccupant (Some 400) (Some 150) (JNum 1)]) None in
  let random := fun n : nat => 1 / INR (n + 2) in
  exists best x y,
    optimizeFan random input = Some best /\
    opt_bestFan best = mkFan (Some x) (Some y) (JNum 1.0) /\
    0 <= x < 800 /\ 0 <= y < 300.
Proof.
  intros input random.
  assert (Hr : forall n, 0 <= random n < 1).
  { intros n; unfold random.
    assert (H : 2 <= INR (n + 2)).
    { rewrite plus_INR; pose proof (pos_INR n); simpl; lra. }
    split.
    - apply Rlt_le, Rdiv_lt_0_compat; lra.
    - apply (Rmult_lt_reg_r (INR (n + 2))); [lra|].
      unfold Rdiv; rewrite Rmult_assoc, Rinv_l; lra. }
  destruct (optimizer_fan_in_room random input) as [best [x [y [r H]]]];
    [subst input; moderate_holds|exact Hr|].
  exists best, x, y; tauto.
Defined.

(** ** What the optimizer reads *)

Lemma in_seq_below (i n : nat) : In i (seq 0 n) -> (i < n)%nat.
Proof. intros H; apply in_seq in H; lia. Qed.

(** X17.  The optimizer never reads the fans of its input, and it calls
    [Math.random()] twice in each of its 80 trials: two runs whose inputs
    differ in the fans only, and whose first 160 random numbers agree, give
    the same answer. *)
Theorem optimizer_reads (random random' : nat -> R) (fans : option (list Fan))
        (input : Input) :
  (forall n, (n < 2 * TRIES)%nat -> random n = random' n) ->
  optimizeFan random (withFans fans input) = optimizeFan random' input.
Proof.
  intros H; rewrite !optimizeFan_unfold.
  change (roomWidth (withFans fans input)) with (roomWidth input).
  change (roomHeight (withFans fans input)) with (roomHeight input).
  change (orEmpty (in_windows (withFans fans input))) with (orEmpty (in_windows input)).
  change (orEmpty (in_occupants (withFans fans input)))
    with (orEmpty (in_occupants input)).
  change (outdoorOf (withFans fans input)) with (outdoorOf input).
  unfold searchFan.
  rewrite (forEach_ext _
    (trial random' (roomWidth input) (roomHeight input) (orEmpty (in_windows input))
           (orEmpty (in_occupants input)) (outdoorOf input))); [reflexivity|].
  intros i b Hi; apply in_seq_below in Hi.
  unfold trial, trialFan.
  rewrite (H (2 * i)%nat), (H (2 * i + 1)%nat) by lia; reflexivity.
Qed.

Lemma optimizer_reads_witness :
  let input := mkInput (JNum 800) (JNum 500) None None None None in
  let random := fun n : nat => if (n <? 160)%nat then 1 / 4 else 3 / 4 in
  let random' := fun _ : nat => 1 / 4 in
  optimizeFan random (withFans (Some [mkFan (Some 1) (Some 2) JNaN]) input)
  = optimizeFan random' input.
Proof.
  intros input random random'; apply optimizer_reads.
  intros n Hn; unfold random, random'.
  destruct (Nat.ltb_spec n 160) as [_|N]; [reflexivity|].
  unfold TRIES in Hn; lia.
Defined.

(** ** The optimizer in another unit of length *)

Lemma forEach_sim {A St St' : Type} (R : St -> St' -> Prop)
      (f : A -> St -> option St) (g : A -> St' -> option St')
      (l : list A) (s : St) (s' : St') :
  R s s' ->
  (forall e s s', In e l -> R s s' ->
     match f e s, g e s' with
     | Some t, Some t' => R t t'
     | None, None => True
     | _, _ => False
     end) ->
  match forEach f l s, forEach g l s' with
  | Some t, Some t' => R t t'
  | None, None => True
  | _, _ => False
  end.
Proof.
  revert s s'; induction l as [|e l IH]; intros s s' HR Hstep; simpl; [exact HR|].
  pose proof (Hstep e s s' (or_introl eq_refl) HR) as H.
  destruct (f e s) as [t|], (g e s') as [t'|]; try contradiction; [|exact I].
  apply IH; [exact H|]; intros; apply Hstep; [right|]; assumption.
Qed.

Lemma trialFan_scale (random : nat -> R) (k width height : R) (i : nat) :
  trialFan random (k * width) (k * height) i
  = scaleFan k (trialFan random width height i).
Proof.
  unfold trialFan, scaleFan, scaleCoord; cbn [fan_x fan_y fan_strength option_map].
  f_equal; f_equal; ring.
Qed.

Lemma trial_simulate_scale (k width height : R) (windows : list Window)
      (occupants : list Occupant) (outdoor : Outdoor) (fan : Fan) :
  0 < k ->
  simulate (trialInput (k * width) (k * height) (map (scaleWindow k) windows)
                       (map (scaleOccupant k) occupants) outdoor (scaleFan k fan))
  = simulate (trialInput width height windows occupants outdoor fan).
Proof.
  intros Hk; rewrite !simulate_unfold.
  exact (simulateWith_scale k Hk width height [fan] windows occupants
           (outdoorCO2Of (trialInput width height windows occupants outdoor fan))
           (outdoorTempOf (trialInput width height windows occupants outdoor fan))).
Qed.

(** X18.  The optimizer in another unit of length: when the width, the height,
    every coordinate and every window width of the input are multiplied by
    [k > 0], the optimizer, given the same random numbers, proposes the same
    fan in the new unit, with the same score and statistics. *)
Theorem optimizer_scale (random : nat -> R) (k : R) (input : Input) :
  0 < k ->
  optimizeFan random (scaleInput k input)
  = option_map (scaleOptResult k) (optimizeFan random input).
Proof.
  intros Hk; rewrite !optimizeFan_unfold.
  change (roomWidth (scaleInput k input)) with (k * roomWidth input).
  change (roomHeight (scaleInput k input)) with (k * roomHeight input).
  change (orEmpty (in_windows (scaleInput k input)))
    with (map (scaleWindow k) (orEmpty (in_windows input))).
  change (orEmpty (in_occupants (scaleInput k input)))
    with (map (scaleOccupant k) (orEmpty (in_occupants input))).
  change (outdoorOf (scaleInput k input)) with (outdoorOf input).
  set (W := roomWidth input); set (H := roomHeight input).
  set (ws := orEmpty (in_windows input)); set (os := orEmpty (in_occupants input)).
  set (R := fun b b' : Best =>
              b' = mkBest (scaleFan k (bestFan b)) (bestScore b) (bestStats b)).
  unfold searchFan.
  pose proof (forEach_sim R
    (trial random W H ws os (outdoorOf input))
    (trial random (k * W) (k * H) (map (scaleWindow k) ws) (map (scaleOccupant k) os)
           (outdoorOf input))
    (seq 0 TRIES)
    (mkBest (mkFan (Some (W / 2)) (Some (H / 2)) (JNum 1.0)) None None)
    (mkBest (mkFan (Some (k * W / 2)) (Some (k * H / 2)) (JNum 1.0)) None None))
    as Sim.
  match type of Sim with ?A -> ?B -> _ => assert (HA : A); [|assert (HB : B)] end.
  - unfold R, scaleFan, scaleCoord; cbn [bestFan bestScore bestStats fan_x fan_y
      fan_strength option_map].
    f_equal; f_equal; f_equal; unfold Rdiv; ring.
  - intros i b b' _ Hb; unfold trial.
    rewrite trialFan_scale, trial_simulate_scale by exact Hk.
    destruct (simulate _) as [res|]; [|exact I].
    unfold R in Hb; subst b'; cbn [bestScore].
    destruct (belowBest _ _); unfold R; reflexivity.
  - specialize (Sim HA HB).
    destruct (forEach (trial random W H ws os (outdoorOf input)) _ _) as [b|],
             (forEach (trial random (k * W) (k * H) _ _ _) _ _) as [b'|];
      try contradiction; [|reflexivity].
    unfold R in Sim; subst b'; reflexivity.
Qed.

Lemma optimizer_scale_witness :
  let input := mkInput (JNum 800) (JNum 500) None
                 (Some [mkWindow (Some 0) (Some 250) JAbsent (JNum 1)])
                 (Some [mkOccupant (Some 400) None (JNum 1)]) None in
  let random := fun _ : nat => 1 / 2 in
  optimizeFan random (scaleInput (1 / 25) input)
  = option_map (scaleOptResult (1 / 25)) (optimizeFan random input).
Proof. intros input random; apply optimizer_scale; lra. Defined.

(** ** The page and the server *)

Lemma Rltb_iff (a b : R) : Rltb a b = true <-> a < b.
Proof. unfold Rltb; destruct (Rlt_dec a b); split; intros; auto; discriminate. Qed.

Lemma Rleb_iff (a b : R) : Rleb a b = true <-> a <= b.
Proof. unfold Rleb; destruct (Rle_dec a b); split; intros; auto; discriminate. Qed.

Lemma Math_round_lt (x : R) (n : Z) : (Math_round x <? n)%Z = true <-> x < IZR n - 1 / 2.
Proof.
  unfold Math_round; rewrite Z.ltb_lt.
  pose proof (Zfloor_bound (x + 1 / 2)) as [L U]; split; intros H.
  - assert (Hz : (Zfloor (x + 1 / 2) + 1 <= n)%Z) by lia.
    apply IZR_le in Hz; rewrite plus_IZR in Hz; lra.
  - apply lt_IZR; lra.
Qed.

Lemma Math_round_ge (x : R) (n : Z) : (Math_round x <? n)%Z = false <-> IZR n - 1 / 2 <= x.
Proof.
  destruct (Math_round_lt x n) as [A B].
  destruct (Math_round x <? n)%Z; split; intros H; try discriminate; try reflexivity.
  - specialize (A eq_refl); lra.
  - destruct (Rlt_dec x (IZR n - 1 / 2)) as [L|L]; [discriminate (B L)|lra].
Qed.

Lemma getProp_first (key : string) (v : jsval) (others : list (string * jsval)) :
  getProp (VObj (prop key v :: others)) key = Some v.
Proof. unfold getProp, prop; cbn [lookup]; rewrite String.eqb_refl; reflexivity. Qed.

(** X19.  The page rounds before it compares.  Given an answer with a finite
    [avgCO2], [runSimulation] writes "Good" when the average is below 799.5,
    "Moderate" from 799.5 to below 1199.5 and "High" from 1199.5 on, with the
    rounded average; so from 799.5 to 800 it writes "Moderate" where
    [interpretCO2] of [standards.js] says "Good". *)
Theorem recommendation_rounds_first (a : R) (others : list (string * jsval)) :
  let data := VObj (prop "avgCO2" (VNum a) :: others) in
  (a < 799.5 -> recommendation data = GoodAir (Math_round a)) /\
  (799.5 <= a < 1199.5 -> recommendation data = ModerateAir (Math_round a)) /\
  (1199.5 <= a -> recommendation data = HighCO2 (Math_round a)) /\
  (799.5 <= a <= 800 -> level (interpretCO2 a) = "Good"%string).
Proof.
  intros data; unfold recommendation, data; rewrite getProp_first.
  cbn [finiteOrNull option_map].
  split; [|split; [|split]]; intros H.
  - assert (E : (Math_round a <? 800)%Z = true) by (apply Math_round_lt; lra).
    rewrite E; reflexivity.
  - assert (E : (Math_round a <? 800)%Z = false) by (apply Math_round_ge; lra).
    assert (E' : (Math_round a <? 1200)%Z = true) by (apply Math_round_lt; lra).
    rewrite E, E'; reflexivity.
  - assert (E : (Math_round a <? 800)%Z = false) by (apply Math_round_ge; lra).
    assert (E' : (Math_round a <? 1200)%Z = false) by (apply Math_round_ge; lra).
    rewrite E, E'; reflexivity.
  - unfold interpretCO2, CO2_LIMITS_good.
    assert (E : Rleb a 800 = true) by (apply Rleb_iff; lra).
    rewrite E; reflexivity.
Qed.

Lemma recommendation_rounds_first_witness :
  recommendation (VObj [prop "avgCO2" (VNum 799.7)]) = ModerateAir (Math_round 799.7) /\
  level (interpretCO2 799.7) = "Good"%string.
Proof.
  destruct (recommendation_rounds_first 799.7 []) as [_ [M [_ G]]].
  split; [apply M; lra|apply G; lra].
Defined.

(** The answer of [simulate] has its average under [stats], and the page
    reads [data.avgCO2]: on every answer of the simulation the line under
    the canvas is "Run completed.", with no figure. *)
Lemma recommendation_of_result (res : Result) :
  getProp (resultJSON res) "avgCO2" = None /\
  recommendation (resultJSON res) = RunCompleted /\
  (exists s, getProp (resultJSON res) "stats" = Some s /\
             getProp s "avgCO2" = Some (VNum (avgCO2 (stats res)))).
Proof.
  split; [reflexivity|split; [reflexivity|]].
  eexists; split; reflexivity.
Qed.



(** ** The room of the page *)

Lemma unitsToFeet_feetToUnits (ft : R) : unitsToFeet (feetToUnits ft) = ft.
Proof. unfold unitsToFeet, feetToUnits, FEET_TO_UNITS; field. Qed.

Lemma feetToUnits_unitsToFeet (u : R) : feetToUnits (unitsToFeet u) = u.
Proof. unfold unitsToFeet, feetToUnits, FEET_TO_UNITS; field. Qed.

Lemma createRoom_range (widthValue heightValue : option R) :
  250 <= room_width (createRoomFromInputs widthValue heightValue) <= 1800 /\
  250 <= room_height (createRoomFromInputs widthValue heightValue) <= 1100.
Proof.
  unfold createRoomFromInputs; cbn [room_width room_height].
  split; apply clamp_bounds; lra.
Qed.

(** X21.  The room that [createRoomFromInputs] makes is between 250 and 1800 wide
    and between 250 and 1100 high, that is 10 to 72 feet by 10 to 44 feet; a
    size within these limits is kept as it is, an empty field stands for 20
    or 12 feet, and the simulation of the room returns whatever fans the
    page holds. *)
Theorem room_from_inputs (widthValue heightValue : option R) (fans : list PageFan) :
  let room := createRoomFromInputs widthValue heightValue in
  250 <= room_width room <= 1800 /\ 250 <= room_height room <= 1100 /\
  10 <= unitsToFeet (room_width room) <= 72 /\
  10 <= unitsToFeet (room_height room) <= 44 /\
  (forall ft, widthValue = Some ft -> 10 <= ft <= 72 ->
              unitsToFeet (room_width room) = ft) /\
  (forall ft, heightValue = Some ft -> 10 <= ft <= 44 ->
              unitsToFeet (room_height room) = ft) /\
  (widthValue = None -> room_width room = 500) /\
  (heightValue = None -> room_height room = 300) /\
  (exists res, simulate (runSimulation_body room fans) = Some res).
Proof.
  intros room.
  destruct (createRoom_range widthValue heightValue) as [Hw Hh]; fold room in Hw, Hh.
  split; [exact Hw|split; [exact Hh|]].
  split; [unfold unitsToFeet, FEET_TO_UNITS; lra|].
  split; [unfold unitsToFeet, FEET_TO_UNITS; lra|].
  split.
  { intros ft -> H; unfold room, createRoomFromInputs; cbn [room_width].
    rewrite clamp_inside by (unfold feetToUnits, FEET_TO_UNITS; lra).
    apply unitsToFeet_feetToUnits. }
  split.
  { intros ft -> H; unfold room, createRoomFromInputs; cbn [room_height].
    rewrite clamp_inside by (unfold feetToUnits, FEET_TO_UNITS; lra).
    apply unitsToFeet_feetToUnits. }
  split.
  { intros ->; unfold room, createRoomFromInputs; cbn [room_width].
    rewrite clamp_inside; unfold feetToUnits, FEET_TO_UNITS; lra. }
  split.
  { intros ->; unfold room, createRoomFromInputs; cbn [room_height].
    rewrite clamp_inside; unfold feetToUnits, FEET_TO_UNITS; lra. }
  apply simulate_total; unfold roomWidth, roomHeight, runSimulation_body;
    cbn [in_width in_height ifFinite]; lra.
Qed.

Lemma room_from_inputs_witness :
  let room := createRoomFromInputs (Some 30) None in
  unitsToFeet (room_width room) = 30 /\ room_height room = 300 /\
  exists res, simulate (runSimulation_body room [mkPageFan 100 100 JAbsent]) = Some res.
Proof.
  intros room.
  destruct (room_from_inputs (Some 30) None [mkPageFan 100 100 JAbsent])
    as [_ [_ [_ [_ [W [_ [_ [H S]]]]]]]].
  split; [apply (W 30 eq_refl); lra|split; [apply H; reflexivity|exact S]].
Defined.

(** X22.  A fan of the page stays in the room.  In a room made by
    [createRoomFromInputs], the fan that [addFan] places and a fan that is
    dragged, wherever the mouse goes, are at least 15 from every wall; and
    the fan that the optimizer proposes for the room is in the room. *)
Theorem page_fans_in_room (widthValue heightValue : option R) (f : PageFan)
        (mx my dx dy : R) (random : nat -> R) :
  (forall n, 0 <= random n < 1) ->
  let room := createRoomFromInputs widthValue heightValue in
  let inside := fun (margin : R) (f : PageFan) =>
    margin <= pf_x f <= room_width room - margin /\
    margin <= pf_y f <= room_height room - margin in
  inside 15 (addFan room) /\
  inside 15 (dragFan room f mx my dx dy) /\
  exists best x y,
    optimizeFan random (optimize_body room) = Some best /\
    opt_bestFan best = mkFan (Some x) (Some y) (JNum 1.0) /\
    inside 0 (mkPageFan x y (JNum 1.0)).
Proof.
  intros Hr room inside.
  destruct (createRoom_range widthValue heightValue) as [Hw Hh]; fold room in Hw, Hh.
  split; [|split].
  - unfold inside, addFan; cbn [pf_x pf_y]; lra.
  - unfold inside, dragFan; cbn [pf_x pf_y].
    split; apply clamp_bounds; lra.
  - rewrite optimizeFan_unfold.
    change (roomWidth (optimize_body room)) with (room_width room).
    change (roomHeight (optimize_body room)) with (room_height room).
    destruct (searchFan_total random (room_width room) (room_height room)
                (orEmpty (in_windows (optimize_body room)))
                (orEmpty (in_occupants (optimize_body room)))
                (outdoorOf (optimize_body room)) TRIES) as [b E]; [lra|lra|].
    rewrite E.
    destruct (searchFan_holds_trial _ _ _ _ _ _ _ _ E) as [i [s [_ ->]]].
    eexists; exists (random (2 * i)%nat * room_width room),
                    (random (2 * i + 1)%nat * room_height room).
    split; [reflexivity|split; [reflexivity|]].
    pose proof (Hr (2 * i)%nat); pose proof (Hr (2 * i + 1)%nat).
    unfold inside; cbn [pf_x pf_y]; split; split; nra.
Qed.

Lemma page_fans_in_room_witness :
  let room := createRoomFromInputs (Some 5) None in
  room_width room = 250 /\
  15 <= pf_x (dragFan room (addFan room) 1000 (-40) 3 3) <= room_width room - 15 /\
  15 <= pf_y (dragFan room (addFan room) 1000 (-40) 3 3) <= room_height room - 15.
Proof.
  intros room.
  destruct (page_fans_in_room (Some 5) None
              (addFan (createRoomFromInputs (Some 5) None)) 1000 (-40) 3 3
              (fun _ => 1 / 2))
    as [_ [[Hx Hy] _]]; [intros _; lra|].
  split; [|split; [exact Hx|exact Hy]].
  unfold room, createRoomFromInputs; cbn [room_width].
  apply clamp_below; unfold feetToUnits, FEET_TO_UNITS; lra.
Defined.

(** ** Picking a fan *)

Lemma dist_self (x y : R) : dist x y x y = 0.
Proof.
  unfold dist; replace ((x - x) * (x - x) + (y - y) * (y - y)) with 0 by ring.
  apply sqrt_0.
Qed.

(** [hitFan] picks the first fan within 14 of the mouse: the fan it returns
    is a fan of the page within 14, every fan before it is farther, and it
    returns none exactly when every fan is farther than 14.  A click at the
    centre of a fan picks that fan or an earlier one. *)
Lemma hitFan_first (fans : list PageFan) (mx my : R) :
  match hitFan fans mx my with
  | Some f =>
      exists before after,
        fans = before ++ f :: after /\
        dist mx my (pf_x f) (pf_y f) <= 14 /\
        forall g, In g before -> 14 < dist mx my (pf_x g) (pf_y g)
  | None => forall g, In g fans -> 14 < dist mx my (pf_x g) (pf_y g)
  end /\
  (forall f, In f fans -> hitFan fans (pf_x f) (pf_y f) <> None).
Proof.
  split.
  - induction fans as [|f fans IH]; simpl; [intros g []|].
    destruct (Rleb (dist mx my (pf_x f) (pf_y f)) 14) eqn:E.
    + exists [], fans; split; [reflexivity|split; [apply Rleb_iff; exact E|intros g []]].
    + assert (F : 14 < dist mx my (pf_x f) (pf_y f)).
      { destruct (Rle_dec (dist mx my (pf_x f) (pf_y f)) 14) as [L|L]; [|lra].
        apply Rleb_iff in L; rewrite L in E; discriminate. }
      destruct (hitFan fans mx my) as [h|].
      * destruct IH as [before [after [-> [Hd Hb]]]].
        exists (f :: before), after; split; [reflexivity|split; [exact Hd|]].
        intros g [<-|Hg]; [exact F|apply Hb; exact Hg].
      * intros g [<-|Hg]; [exact F|apply IH; exact Hg].
  - induction fans as [|g fans IH]; intros f []; simpl.
    + subst g; rewrite dist_self.
      assert (E : Rleb 0 14 = true) by (apply Rleb_iff; lra).
      rewrite E; discriminate.
    + destruct (Rleb (dist (pf_x f) (pf_y f) (pf_x g) (pf_y g)) 14); [discriminate|].
      apply IH; assumption.
Qed.

(** ** The hour that is reported *)

Lemma hourly_time (h : option jsval) (v : jsval) :
  (if truthy h then match h with Some h => getProp h "time" | None => None end
   else None) = Some v ->
  exists hv, h = Some hv /\ getProp hv "time" = Some v.
Proof.
  destruct h as [hv|]; [|discriminate].
  destruct (truthy (Some hv)); [|discriminate].
  intros E; exists hv; split; [reflexivity|exact E].
Qed.

Ltac hourly_cases E T :=
  match type of E with
  | context [if truthy ?h then ?a else None] =>
      destruct (if truthy h then a else None) as [[| | | |[|? ?]|]|] eqn:T;
      try discriminate E
  end.

Lemma latest_spec (h : jsval) (n : nat) :
  (latest h n <= n)%nat /\
  (forall j, (latest h n < j <= n)%nat -> noReading h j = true) /\
  (latest h n = O \/ noReading h (latest h n) = false).
Proof.
  induction n as [|n [IH1 [IH2 IH3]]]; simpl.
  - split; [lia|split; [intros j Hj; lia|left; reflexivity]].
  - destruct (noReading h (S n)) eqn:E.
    + split; [lia|split; [|exact IH3]].
      intros j Hj; destruct (Nat.eq_dec j (S n)) as [->|N]; [exact E|apply IH2; lia].
    + split; [lia|split; [intros j Hj; lia|right; exact E]].
Qed.

(** X23.  Whatever is reported is the last hour with a reading.  When
    [getOutdoorAirQuality] returns, the coordinates are finite, [fetch]
    answered them with [ok], and the answer holds [hourly], whose [time] is
    an array; the reading says "Open-Meteo" and carries one hour [i] of that
    array: its time and the five series of [hourly] at [i], [null] where a
    series is missing, too short or [null] there.  No later hour has a value
    in any series, and hour [i] has one unless it is the first hour. *)
Theorem air_quality_latest (fetch : option (R -> R -> option Response))
        (lat lon : jsnum) (r : Reading) :
  getOutdoorAirQuality fetch lat lon = inr r ->
  exists (la lo : R) (f : R -> R -> option Response) (res : Response)
         (data h : jsval) (times : list jsval) (i : nat),
    lat = JNum la /\ lon = JNum lo /\ fetch = Some f /\ f la lo = Some res /\
    res_ok res = true /\ res_json res = Some data /\
    getProp data "hourly" = Some h /\
    getProp h "time" = Some (VArr times) /\
    (i < List.length times)%nat /\
    source r = "Open-Meteo"%string /\
    Some (time r) = nth_error times i /\
    pm25 r = orNull (seriesAt h "pm2_5" i) /\
    pm10 r = orNull (seriesAt h "pm10" i) /\
    no2 r = orNull (seriesAt h "nitrogen_dioxide" i) /\
    o3 r = orNull (seriesAt h "ozone" i) /\
    co r = orNull (seriesAt h "carbon_monoxide" i) /\
    (forall j, (i < j < List.length times)%nat -> noReading h j = true) /\
    (i = O \/ noReading h i = false).
Proof.
  unfold getOutdoorAirQuality; intros E.
  destruct lat as [| | |la]; try discriminate E.
  destruct lon as [| | |lo]; try discriminate E.
  cbn [Number_isFinite negb orb ifFinite] in E.
  destruct fetch as [f|]; [|discriminate].
  destruct (f la lo) as [res|] eqn:Ef; [|discriminate].
  destruct (res_ok res) eqn:Ok; [|discriminate].
  cbn [negb] in E.
  destruct (res_json res) as [data|] eqn:Ej; [|discriminate].
  assert (H : exists h t ts,
    getProp data "hourly" = Some h /\ getProp h "time" = Some (VArr (t :: ts)) /\
    r = let i := latest h (List.length (t :: ts) - 1) in
        mkReading "Open-Meteo" (orNull (nth_error (t :: ts) i))
          (orNull (seriesAt h "pm2_5" i)) (orNull (seriesAt h "pm10" i))
          (orNull (seriesAt h "nitrogen_dioxide" i)) (orNull (seriesAt h "ozone" i))
          (orNull (seriesAt h "carbon_monoxide" i))).
  { destruct data; try discriminate E; cbv zeta in E; hourly_cases E T;
      apply hourly_time in T; destruct T as [hv [Hh Ht]];
      rewrite Hh in E; cbn [orNull] in E; injection E as <-;
      eexists; eexists; eexists; split; [exact Hh|split; [exact Ht|reflexivity]]. }
  clear E; destruct H as [h [t [ts [Hh [Ht ->]]]]].
  set (times := t :: ts) in *.
  destruct (latest_spec h (List.length times - 1)) as [L1 [L2 L3]].
  set (i := latest h (List.length times - 1)) in *.
  assert (Hlen : (0 < List.length times)%nat) by (unfold times; simpl; lia).
  assert (Hi : (i < List.length times)%nat) by lia.
  exists la, lo, f, res, data, h, times, i; cbn [source time pm25 pm10 no2 o3 co].
  do 3 (split; [reflexivity|]).
  split; [exact Ef|split; [exact Ok|split; [exact Ej|]]].
  split; [exact Hh|split; [exact Ht|split; [exact Hi|split; [reflexivity|]]]].
  split.
  { destruct (nth_error times i) eqn:N; [reflexivity|].
    apply nth_error_None in N; lia. }
  repeat (split; [reflexivity|]).
  split; [intros j Hj; apply L2; lia|exact L3].
Qed.

Lemma air_quality_latest_witness :
  let h := VObj [prop "time" (VArr [VStr "01:00"; VStr "02:00"; VStr "03:00"]);
                 prop "pm2_5" (VArr [VNum 4; VNum 5; VNull]);
                 prop "ozone" (VArr [VNum 60])] in
  let fetch := fun _ _ : R => Some (mkResponse true 200 (Some (VObj [prop "hourly" h]))) in
  exists r, getOutdoorAirQuality (Some fetch) (JNum 52) (JNum 13) = inr r /\
            time r = VStr "02:00" /\ pm25 r = VNum 5 /\ o3 r = VNull.
Proof.
  intros h fetch.
  destruct (getOutdoorAirQuality (Some fetch) (JNum 52) (JNum 13)) as [e|r] eqn:E;
    [discriminate E|].
  destruct (air_quality_latest _ _ _ r E)
    as [la [lo [f [res [data [h' [times [i H]]]]]]]].
  exists r; injection E as <-; repeat split.
Defined.

(** ** When no hour is reported *)

(** X24.  [getOutdoorAirQuality] checks the coordinates before anything else: with
    a latitude or a longitude that is no finite number it raises "Invalid
    lat/lon" whatever the network is, and otherwise it never does.  It
    returns a reading exactly when the coordinates are finite, [fetch]
    exists and answers with [ok], and the answer holds an [hourly] object
    whose [time] is an array that is not empty. *)
Theorem air_quality_errors (fetch : option (R -> R -> option Response))
        (lat lon : jsnum) :
  (getOutdoorAirQuality fetch lat lon = inl InvalidLatLon <->
   Number_isFinite lat = false \/ Number_isFinite lon = false) /\
  ((exists r, getOutdoorAirQuality fetch lat lon = inr r) <->
   exists la lo f res data h t ts,
     lat = JNum la /\ lon = JNum lo /\ fetch = Some f /\ f la lo = Some res /\
     res_ok res = true /\ res_json res = Some data /\
     getProp data "hourly" = Some h /\ getProp h "time" = Some (VArr (t :: ts))).
Proof.
  unfold getOutdoorAirQuality; split.
  - destruct lat as [| | |la], lon as [| | |lo]; cbn [Number_isFinite negb orb];
      try (split; [intros _; auto|reflexivity]).
    split; [intros E; exfalso|intros [H|H]; discriminate].
    destruct fetch as [f|]; [|discriminate].
    cbn [ifFinite] in E; destruct (f la lo) as [res|]; [|discriminate].
    destruct (negb (res_ok res)); [discriminate|].
    destruct (res_json res) as [data|]; [|discriminate].
    destruct data; try discriminate E; cbv zeta in E; hourly_cases E T.
  - split.
    + intros [r E].
      destruct lat as [| | |la]; try discriminate E.
      destruct lon as [| | |lo]; try discriminate E.
      cbn [Number_isFinite negb orb ifFinite] in E.
      destruct fetch as [f|]; [|discriminate].
      destruct (f la lo) as [res|] eqn:Ef; [|discriminate].
      destruct (res_ok res) eqn:Ok; [|discriminate].
      cbn [negb] in E.
      destruct (res_json res) as [data|] eqn:Ej; [|discriminate].
      assert (H : exists h t ts,
        getProp data "hourly" = Some h /\ getProp h "time" = Some (VArr (t :: ts))).
      { destruct data; try discriminate E; cbv zeta in E; hourly_cases E T;
          apply hourly_time in T; destruct T as [hv [Hh Ht]];
          eexists; eexists; eexists; split; [exact Hh|exact Ht]. }
      destruct H as [h [t [ts [Hh Ht]]]].
      exists la, lo, f, res, data, h, t, ts; repeat split; assumption.
    + intros [la [lo [f [res [data [h [t [ts H]]]]]]]].
      destruct H as [-> [-> [-> [Ef [Ok [Ej [Hh Ht]]]]]]].
      cbn [Number_isFinite negb orb ifFinite]; rewrite Ef, Ok, Ej; cbn [negb].
      assert (Hd : exists props, data = VObj props).
      { destruct data; try discriminate Hh; eexists; reflexivity. }
      destruct Hd as [props ->]; rewrite Hh.
      assert (Hp : exists props', h = VObj props').
      { destruct h; try discriminate Ht; eexists; reflexivity. }
      destruct Hp as [props' ->]; cbn [truthy]; rewrite Ht.
      eexists; reflexivity.
Qed.

Lemma air_quality_errors_witness :
  getOutdoorAirQuality None JNaN (JNum 13) = inl InvalidLatLon.
Proof.
  apply (proj2 (proj1 (air_quality_errors None JNaN (JNum 13)))).
  left; reflexivity.
Defined.

(** ** How far a run can go *)

Lemma clamp_ge_lo (v lo hi : R) : lo <= clamp v lo hi.
Proof. apply Rmax_l. Qed.

Lemma clamp_le_max (v lo hi : R) : clamp v lo hi <= Rmax lo v.
Proof.
  unfold clamp; apply Rmax_lub; [apply Rmax_l|].
  apply (Rle_trans _ v); [apply Rmin_r|apply Rmax_r].
Qed.

Lemma clamp_ge_min (v lo hi : R) : Rmin hi v <= clamp v lo hi.
Proof. apply Rmax_r. Qed.

Lemma pull_between (t d v : R) :
  0 <= d <= 1 -> Rmin t v <= t + d * (v - t) <= Rmax t v.
Proof.
  intros [D0 D1]; unfold Rmin, Rmax; destruct (Rle_dec t v) as [L|L]; split; nra.
Qed.

Section Bounds.

Variables width height : R.
Variable fans : list Fan.
Variable windows : list Window.
Variable occupants : list Occupant.

(** One timestep at a cell of the grid, for a field between [a] and [b]:
    transport leaves a value [v] between [a] and [b] plus the emission, the
    windows keep a share [d] of its distance to the target, and the result
    is clamped. *)
Lemma evolve_shape (emit target kmax lo hi a b : R) (factor : Window -> R)
      (g : nat -> nat -> R) (y x : nat) :
  0 < emit -> 0 <= kmax <= 1 -> (forall win, 0 <= factor win <= kmax) ->
  (forall y x, (y < rows)%nat -> (x < cols)%nat -> a <= g y x <= b) ->
  (y < rows)%nat -> (x < cols)%nat ->
  exists d v,
    (1 - kmax) ^ length windows <= d <= 1 /\ 0 <= d /\
    a <= v <= b + 3 * emit * INR (length occupants) /\
    evolve width height fans windows occupants emit target factor lo hi g y x
    = clamp (target + d * (v - target)) lo hi.
Proof.
  intros He Hk Hf Hg Hy Hx.
  set (g1 := advectAt g (velocityX width height fans windows)
                      (velocityY width height fans windows)).
  set (g2 := diffuseAt g1).
  set (g3 := emitAt width height emit occupants g2).
  assert (H1 : forall y x, (y < rows)%nat -> (x < cols)%nat -> a <= g1 y x <= b).
  { intros y' x' _ _; unfold g1, advectAt; apply bilinear_between; exact Hg. }
  assert (H2 : a <= g2 y x <= b) by (apply diffuseAt_between; assumption).
  destruct (emitAt_range width height emit occupants g2 y x He) as [[E1 E2] _].
  destruct (sinkAt_share width height target kmax factor windows g3 y x Hk Hf)
    as [d [Hd E]].
  assert (P : 0 <= (1 - kmax) ^ length windows) by (apply pow_le; lra).
  exists d, (g3 y x); split; [exact Hd|split; [lra|split; [unfold g3; lra|]]].
  change (clamp (sinkAt width height target factor windows g3 y x) lo hi
          = clamp (target + d * (g3 y x - target)) lo hi).
  f_equal; lra.
Qed.

Variables outdoorCO2 outdoorTemp : R.

Local Abbreviation co2 := (co2After width height fans windows occupants outdoorCO2).
Local Abbreviation virus := (virusAfter width height fans windows occupants).
Local Abbreviation temp := (tempAfter width height fans windows occupants outdoorTemp).

Lemma tempFactor_range (win : Window) : 0 <= ventFactor win * 0.8 <= VENT_PULL.
Proof. pose proof (ventFactor_range win); unfold VENT_PULL in *; lra. Qed.

Lemma co2_growth (n y x : nat) :
  (y < rows)%nat -> (x < cols)%nat ->
  outdoorCO2 <= co2 n y x
             <= outdoorCO2 + 600 + 3 * CO2_EMIT * INR (length occupants) * INR n.
Proof.
  revert y x; induction n as [|n IH]; intros y x Hy Hx.
  - change (co2 0 y x) with (outdoorCO2 + 600); cbn [INR]; lra.
  - change (co2 (S n) y x)
      with (evolve width height fans windows occupants CO2_EMIT outdoorCO2 ventFactor
                   outdoorCO2 5000 (co2 n) y x).
    destruct (evolve_shape CO2_EMIT outdoorCO2 VENT_PULL outdoorCO2 5000 _ _ ventFactor
                (co2 n) y x ltac:(unfold CO2_EMIT; lra) ltac:(unfold VENT_PULL; lra)
                ventFactor_range IH Hy Hx) as [d [v [Hd [D0 [Hv ->]]]]].
    split; [apply clamp_ge_lo|].
    apply (Rle_trans _ _ _ (clamp_le_max _ _ _)).
    pose proof (pos_INR (length occupants)) as Pk.
    apply Rmax_lub; [unfold CO2_EMIT; rewrite S_INR; pose proof (pos_INR n); nra|].
    rewrite S_INR; unfold CO2_EMIT in *; nra.
Qed.

Lemma virus_growth (n y x : nat) :
  (y < rows)%nat -> (x < cols)%nat ->
  0 <= virus n y x <= 3 * VIRUS_EMIT * INR (length occupants) * INR n.
Proof.
  revert y x; induction n as [|n IH]; intros y x Hy Hx.
  - change (virus 0 y x) with 0.0; cbn [INR]; lra.
  - change (virus (S n) y x)
      with (evolve width height fans windows occupants VIRUS_EMIT outdoorVirus ventFactor
                   0 1000 (virus n) y x).
    destruct (evolve_shape VIRUS_EMIT outdoorVirus VENT_PULL 0 1000 _ _ ventFactor
                (virus n) y x ltac:(unfold VIRUS_EMIT; lra) ltac:(unfold VENT_PULL; lra)
                ventFactor_range IH Hy Hx) as [d [v [Hd [D0 [Hv ->]]]]].
    split; [apply clamp_ge_lo|].
    apply (Rle_trans _ _ _ (clamp_le_max _ _ _)).
    pose proof (pos_INR (length occupants)) as Pk.
    apply Rmax_lub; [unfold VIRUS_EMIT; rewrite S_INR; pose proof (pos_INR n); nra|].
    rewrite S_INR; unfold VIRUS_EMIT, outdoorVirus in *; nra.
Qed.

Lemma temp_growth (n y x : nat) :
  (y < rows)%nat -> (x < cols)%nat ->
  Rmin 21 outdoorTemp <= temp n y x
    <= Rmax 21 outdoorTemp + 3 * HEAT_EMIT * INR (length occupants) * INR n.
Proof.
  revert y x; induction n as [|n IH]; intros y x Hy Hx.
  - change (temp 0 y x) with 21.0; cbn [INR].
    pose proof (Rmin_l 21 outdoorTemp); pose proof (Rmax_l 21 outdoorTemp); lra.
  - change (temp (S n) y x)
      with (evolve width height fans windows occupants HEAT_EMIT outdoorTemp
                   (fun win => ventFactor win * 0.8) (-10) 40 (temp n) y x).
    destruct (evolve_shape HEAT_EMIT outdoorTemp VENT_PULL (-10) 40 _ _
                (fun win => ventFactor win * 0.8)
                (temp n) y x ltac:(unfold HEAT_EMIT; lra) ltac:(unfold VENT_PULL; lra)
                tempFactor_range IH Hy Hx) as [d [v [Hd [D0 [Hv ->]]]]].
    pose proof (pos_INR (length occupants)) as Pk; pose proof (pos_INR n) as Pn.
    pose proof (Rmin_l 21 outdoorTemp); pose proof (Rmin_r 21 outdoorTemp).
    pose proof (Rmax_l 21 outdoorTemp); pose proof (Rmax_r 21 outdoorTemp).
    pose proof (pull_between outdoorTemp d v ltac:(lra)) as [B1 B2].
    assert (K : 0 <= 3 * HEAT_EMIT * INR (length occupants) * INR n).
    { unfold HEAT_EMIT; apply Rmult_le_pos; [|exact Pn]; lra. }
    assert (L : Rmin 21 outdoorTemp <= outdoorTemp + d * (v - outdoorTemp)).
    { apply (Rle_trans _ (Rmin outdoorTemp v)); [|exact B1].
      apply Rmin_glb; lra. }
    assert (U : outdoorTemp + d * (v - outdoorTemp)
                <= Rmax 21 outdoorTemp + 3 * HEAT_EMIT * INR (length occupants) * INR (S n)).
    { apply (Rle_trans _ (Rmax outdoorTemp v)); [exact B2|].
      rewrite S_INR; apply Rmax_lub; unfold HEAT_EMIT in *; nra. }
    split.
    + apply (Rle_trans _ (Rmin 40 (outdoorTemp + d * (v - outdoorTemp))));
        [apply Rmin_glb; lra|apply clamp_ge_min].
    + apply (Rle_trans _ _ _ (clamp_le_max _ _ _)).
      apply Rmax_lub; [rewrite S_INR in *; unfold HEAT_EMIT in *; nra|exact U].
Qed.

(** Without windows the CO2 of a cell does not fall below where it
    started. *)
Lemma co2_floor (n y x : nat) :
  windows = [] -> outdoorCO2 <= 4400 ->
  (y < rows)%nat -> (x < cols)%nat ->
  outdoorCO2 + 600 <= co2 n y x <= 5000.
Proof.
  intros Ew Ho; revert y x; induction n as [|n IH]; intros y x Hy Hx.
  - change (co2 0 y x) with (outdoorCO2 + 600); lra.
  - change (co2 (S n) y x)
      with (evolve width height fans windows occupants CO2_EMIT outdoorCO2 ventFactor
                   outdoorCO2 5000 (co2 n) y x).
    destruct (evolve_shape CO2_EMIT outdoorCO2 VENT_PULL outdoorCO2 5000 _ _ ventFactor
                (co2 n) y x ltac:(unfold CO2_EMIT; lra) ltac:(unfold VENT_PULL; lra)
                ventFactor_range IH Hy Hx) as [d [v [Hd [D0 [Hv ->]]]]].
    rewrite Ew in Hd; cbn [length pow] in Hd.
    assert (D : d = 1) by lra; subst d.
    split; [|apply clamp_bounds; lra].
    apply (Rle_trans _ (Rmin 5000 (outdoorCO2 + 1 * (v - outdoorCO2))));
      [apply Rmin_glb; lra|apply clamp_ge_min].
Qed.

(** Without windows and occupants a field that is uniform stays uniform,
    whatever the fans blow. *)
Lemma evolve_uniform (emit target kmax lo hi c : R) (factor : Window -> R)
      (g : nat -> nat -> R) (y x : nat) :
  windows = [] -> occupants = [] ->
  0 < emit -> 0 <= kmax <= 1 -> (forall win, 0 <= factor win <= kmax) ->
  (forall y x, (y < rows)%nat -> (x < cols)%nat -> g y x = c) ->
  (y < rows)%nat -> (x < cols)%nat ->
  evolve width height fans windows occupants emit target factor lo hi g y x
  = clamp c lo hi.
Proof.
  intros Ew Eo He Hk Hf Hg Hy Hx.
  destruct (evolve_shape emit target kmax lo hi c c factor g y x He Hk Hf) as
    [d [v [Hd [D0 [Hv ->]]]]]; [|exact Hy|exact Hx|].
  - intros y' x' Hy' Hx'; rewrite (Hg y' x' Hy' Hx'); lra.
  - rewrite Ew in Hd; rewrite Eo in Hv; cbn [length pow INR] in Hd, Hv.
    assert (D : d = 1) by lra; assert (V : v = c) by lra; subst d v.
    f_equal; lra.
Qed.

Lemma still_fields (n y x : nat) :
  windows = [] -> occupants = [] ->
  (y < rows)%nat -> (x < cols)%nat ->
  co2 (S n) y x = stillCO2 outdoorCO2 /\ virus (S n) y x = 0 /\ temp (S n) y x = 21.
Proof.
  intros Ew Eo; revert y x; induction n as [|n IH]; intros y x Hy Hx.
  - split; [|split].
    + apply (evolve_uniform CO2_EMIT outdoorCO2 VENT_PULL outdoorCO2 5000
               (outdoorCO2 + 600) ventFactor (fun _ _ => outdoorCO2 + 600) y x Ew Eo);
        try assumption; try reflexivity;
        [unfold CO2_EMIT; lra|unfold VENT_PULL; lra|apply ventFactor_range].
    + transitivity (clamp 0.0 0 1000); [|rewrite clamp_inside; lra].
      apply (evolve_uniform VIRUS_EMIT outdoorVirus VENT_PULL 0 1000 0.0 ventFactor
               (fun _ _ => 0.0) y x Ew Eo);
        try assumption; try reflexivity;
        [unfold VIRUS_EMIT; lra|unfold VENT_PULL; lra|apply ventFactor_range].
    + transitivity (clamp 21.0 (-10) 40); [|rewrite clamp_inside; lra].
      apply (evolve_uniform HEAT_EMIT outdoorTemp VENT_PULL (-10) 40 21.0
               (fun win => ventFactor win * 0.8) (fun _ _ => 21.0) y x Ew Eo);
        try assumption; try reflexivity;
        [unfold HEAT_EMIT; lra|unfold VENT_PULL; lra|apply tempFactor_range].
  - split; [|split].
    + transitivity (clamp (stillCO2 outdoorCO2) outdoorCO2 5000);
        [|apply clamp_idem].
      apply (evolve_uniform CO2_EMIT outdoorCO2 VENT_PULL outdoorCO2 5000
               (stillCO2 outdoorCO2) ventFactor (co2 (S n)) y x Ew Eo);
        try assumption;
        [unfold CO2_EMIT; lra|unfold VENT_PULL; lra|apply ventFactor_range|].
      intros y' x' Hy' Hx'; apply IH; assumption.
    + transitivity (clamp 0 0 1000); [|rewrite clamp_inside; lra].
      apply (evolve_uniform VIRUS_EMIT outdoorVirus VENT_PULL 0 1000 0 ventFactor
               (virus (S n)) y x Ew Eo);
        try assumption;
        [unfold VIRUS_EMIT; lra|unfold VENT_PULL; lra|apply ventFactor_range|].
      intros y' x' Hy' Hx'; apply IH; assumption.
    + transitivity (clamp 21 (-10) 40); [|rewrite clamp_inside; lra].
      apply (evolve_uniform HEAT_EMIT outdoorTemp VENT_PULL (-10) 40 21
               (fun win => ventFactor win * 0.8) (temp (S n)) y x Ew Eo);
        try assumption;
        [unfold HEAT_EMIT; lra|unfold VENT_PULL; lra|apply tempFactor_range|].
      intros y' x' Hy' Hx'; apply IH; assumption.
Qed.

End Bounds.

(** X25.  A run is bounded by its sources.  On an input of moderate size with
    [k] occupants, after the 40 timesteps every cell has its CO2
    between the outdoor CO2 and the outdoor CO2 plus 600 plus [2160 k], its
    virus between 0 and [120 k], and its temperature between the lesser of
    21 and the outdoor temperature and the greater of them plus [4.8 k]:
    fans and windows create nothing.  Without occupants there is no virus at
    all. *)
Theorem bounded_growth (input : Input) :
  moderate input ->
  let k := INR (length (orEmpty (in_occupants input))) in
  exists res,
    simulate input = Some res /\
    (forall row cell, In row (grid res) -> In cell row ->
       outdoorCO2Of input <= cell_co2 cell <= outdoorCO2Of input + 600 + 2160 * k /\
       0 <= cell_virus cell <= 120 * k /\
       Rmin 21 (outdoorTempOf input) <= cell_temp cell
         <= Rmax 21 (outdoorTempOf input) + 4.8 * k) /\
    (orEmpty (in_occupants input) = [] ->
       (forall row cell, In row (grid res) -> In cell row -> cell_virus cell = 0) /\
       avgVirus (stats res) = 0 /\ maxVirus (stats res) = 0).
Proof.
  intros M k; destruct (moderate_dims input M) as [Hw Hh].
  destruct (simulate_spec input Hw Hh) as [res [E [G [_ [_ [Av [Mv _]]]]]]].
  exists res; split; [exact E|].
  assert (B : forall row cell, In row (grid res) -> In cell row ->
       outdoorCO2Of input <= cell_co2 cell <= outdoorCO2Of input + 600 + 2160 * k /\
       0 <= cell_virus cell <= 120 * k /\
       Rmin 21 (outdoorTempOf input) <= cell_temp cell
         <= Rmax 21 (outdoorTempOf input) + 4.8 * k).
  { intros row cell Hr Hc; rewrite G in Hr.
    destruct (in_cellsOf _ _ _ row cell Hr Hc) as [y [x [Hy [Hx ->]]]].
    cbn [cell_co2 cell_virus cell_temp].
    pose proof (co2_growth (roomWidth input) (roomHeight input) (orEmpty (in_fans input))
                  (orEmpty (in_windows input)) (orEmpty (in_occupants input))
                  (outdoorCO2Of input) STEPS y x Hy Hx) as C.
    pose proof (virus_growth (roomWidth input) (roomHeight input) (orEmpty (in_fans input))
                  (orEmpty (in_windows input)) (orEmpty (in_occupants input))
                  STEPS y x Hy Hx) as V.
    pose proof (temp_growth (roomWidth input) (roomHeight input) (orEmpty (in_fans input))
                  (orEmpty (in_windows input)) (orEmpty (in_occupants input))
                  (outdoorTempOf input) STEPS y x Hy Hx) as T.
    fold k in C, V, T.
    replace (INR STEPS) with 40 in C, V, T by (unfold STEPS; simpl; lra).
    unfold CO2_EMIT in C; unfold VIRUS_EMIT in V; unfold HEAT_EMIT in T.
    split; [lra|split; lra]. }
  split; [exact B|].
  intros Eo.
  assert (K : k = 0) by (unfold k; rewrite Eo; reflexivity).
  assert (Z : forall row cell, In row (grid res) -> In cell row -> cell_virus cell = 0).
  { intros row cell Hr Hc; destruct (B row cell Hr Hc) as [_ [V _]]; rewrite K in V; lra. }
  split; [exact Z|].
  assert (L : length (concat (grid res)) = (rows * cols)%nat)
    by (rewrite G; apply cellsOf_length).
  assert (N : map cell_virus (concat (grid res)) <> []).
  { intros Hn; apply (f_equal (@length R)) in Hn.
    rewrite length_map, L in Hn; discriminate. }
  assert (V : forall v, In v (map cell_virus (concat (grid res))) -> v = 0).
  { intros v H; apply in_map_iff in H; destruct H as [cell [<- Hc]].
    apply in_concat in Hc; destruct Hc as [row [Hr Hc]]; apply (Z row cell Hr Hc). }
  split.
  - rewrite Av, <- L, <- (length_map cell_virus).
    apply (mean_const _ 0 N V).
  - rewrite Mv, (maxList_const _ 0 N V).
    unfold Rmax; destruct (Rle_dec 0 0); reflexivity.
Qed.

Lemma bounded_growth_witness :
  let input := mkInput (JNum 800) (JNum 500)
                 (Some [mkFan (Some 100) (Some 50) JAbsent])
                 (Some [mkWindow (Some 0) (Some 250) JAbsent (JNum 1)])
                 (Some [mkOccupant (Some 400) (Some 250) (JNum 1)]) None in
  exists res,
    simulate input = Some res /\
    forall row cell, In row (grid res) -> In cell row ->
      420 <= cell_co2 cell <= 3180 /\ 0 <= cell_virus cell <= 120.
Proof.
  intros input.
  destruct (bounded_growth input) as [res [E [B _]]];
    [subst input; moderate_holds|].
  exists res; split; [exact E|].
  intros row cell Hr Hc; destruct (B row cell Hr Hc) as [C [V _]].
  change (outdoorCO2Of input) with 420 in C.
  change (INR (length (orEmpty (in_occupants input)))) with 1 in C, V.
  split; lra.
Defined.

(** ** A room without windows *)

(** X26.  Without windows the CO2 never falls below its start.  On an input
    of moderate size without windows, and with an outdoor CO2 of at most
    4400, every cell ends with a CO2 between the outdoor CO2 plus 600
    and 5000, and so does the average; from an outdoor CO2 of 200 on no cell
    is drawn in the green of [colorForCO2], and above 200 the level of
    [interpretCO2] for the average is not "Good". *)
Theorem sealed_room_floor (input : Input) :
  moderate input ->
  orEmpty (in_windows input) = [] -> outdoorCO2Of input <= 4400 ->
  exists res,
    simulate input = Some res /\
    (forall row cell, In row (grid res) -> In cell row ->
       outdoorCO2Of input + 600 <= cell_co2 cell <= 5000 /\
       (200 <= outdoorCO2Of input ->
        colorForCO2 (cell_co2 cell) <> "rgba(40, 200, 120, 0.92)"%string)) /\
    outdoorCO2Of input + 600 <= avgCO2 (stats res) <= 5000 /\
    (200 < outdoorCO2Of input ->
     level (interpretCO2 (avgCO2 (stats res))) <> "Good"%string).
Proof.
  intros M Ew Ho; destruct (moderate_dims input M) as [Hw Hh].
  destruct (simulate_spec input Hw Hh) as [res [E [G [Ac _]]]].
  exists res; split; [exact E|].
  assert (B : forall row cell, In row (grid res) -> In cell row ->
                outdoorCO2Of input + 600 <= cell_co2 cell <= 5000).
  { intros row cell Hr Hc; rewrite G in Hr.
    destruct (in_cellsOf _ _ _ row cell Hr Hc) as [y [x [Hy [Hx ->]]]].
    cbn [cell_co2]; apply co2_floor; assumption. }
  assert (A : outdoorCO2Of input + 600 <= avgCO2 (stats res) <= 5000).
  { assert (L : length (concat (grid res)) = (rows * cols)%nat)
      by (rewrite G; apply cellsOf_length).
    assert (V : forall v, In v (map cell_co2 (concat (grid res))) ->
                  outdoorCO2Of input + 600 <= v <= 5000).
    { intros v H; apply in_map_iff in H; destruct H as [cell [<- Hc]].
      apply in_concat in Hc; destruct Hc as [row [Hr Hc]]; apply (B row cell Hr Hc). }
    assert (P : 0 < INR (rows * cols)) by (apply lt_0_INR; unfold rows, cols; lia).
    rewrite Ac; split.
    - apply mean_lower; [exact P|].
      rewrite <- L, <- (length_map cell_co2).
      apply sumList_lower; intros v Hv; apply V; exact Hv.
    - apply mean_upper; [exact P|].
      rewrite <- L, <- (length_map cell_co2).
      apply sumList_upper; intros v Hv; apply V; exact Hv. }
  split; [|split; [exact A|]].
  - intros row cell Hr Hc; split; [apply (B row cell Hr Hc)|].
    intros H200; pose proof (B row cell Hr Hc) as [L _].
    unfold colorForCO2, Rltb.
    destruct (Rlt_dec (cell_co2 cell) 800); [lra|].
    destruct (Rlt_dec (cell_co2 cell) 1200); discriminate.
  - intros H200; unfold interpretCO2, CO2_LIMITS_good, CO2_LIMITS_moderate,
      CO2_LIMITS_poor, Rleb.
    destruct (Rle_dec (avgCO2 (stats res)) 800); [lra|].
    destruct (Rle_dec (avgCO2 (stats res)) 1200); [discriminate|].
    destruct (Rle_dec (avgCO2 (stats res)) 2000); discriminate.
Qed.

Lemma sealed_room_floor_witness :
  let input := mkInput (JNum 800) (JNum 500)
                 (Some [mkFan (Some 100) (Some 50) JAbsent]) None
                 (Some [mkOccupant (Some 400) (Some 250) (JNum 1)]) None in
  exists res,
    simulate input = Some res /\ 1020 <= avgCO2 (stats res) <= 5000 /\
    level (interpretCO2 (avgCO2 (stats res))) <> "Good"%string.
Proof.
  intros input.
  destruct (sealed_room_floor input) as [res [E [_ [A G]]]];
    [subst input; moderate_holds|reflexivity|cbn; unfold CO2_LIMITS_outdoor; lra|].
  exists res; split; [exact E|].
  change (outdoorCO2Of input) with 420 in A, G.
  split; [lra|apply G; lra].
Defined.

(** ** Fans alone *)

Lemma still_tally (kc : R) :
  let a := tally (concat (cellsOf (fun _ _ => kc) (fun _ _ => 0) (fun _ _ => 21))) in
  mkStats (sumCO2 a / INR (rows * cols)) (accMaxCO2 a)
          (sumV a / INR (rows * cols)) (accMaxV a) (sumT a / INR (rows * cols))
  = mkStats kc (Rmax 0 kc) 0 0 21.
Proof.
  intros a; unfold a; clear a.
  set (cells := cellsOf (fun _ _ => kc) (fun _ _ => 0) (fun _ _ => 21)).
  assert (C : forall cell, In cell (concat cells) -> cell = mkCell kc 0 21).
  { intros cell H; apply in_concat_cellsOf in H.
    destruct H as [y [x [_ [_ ->]]]]; reflexivity. }
  assert (L : length (concat cells) = (rows * cols)%nat) by apply cellsOf_length.
  assert (N : forall f : Cell -> R, map f (concat cells) <> []).
  { intros f Hn; apply (f_equal (@length R)) in Hn.
    rewrite length_map, L in Hn; discriminate. }
  assert (V : forall (f : Cell -> R) v, In v (map f (concat cells)) -> v = f (mkCell kc 0 21)).
  { intros f v H; apply in_map_iff in H; destruct H as [cell [<- Hc]].
    rewrite (C cell Hc); reflexivity. }
  assert (A : forall f : Cell -> R,
    sumList (map f (concat cells)) / INR (rows * cols) = f (mkCell kc 0 21)).
  { intros f; rewrite <- L, <- (length_map f); fold (mean (map f (concat cells))).
    apply mean_const; [apply N|apply V]. }
  destruct (tally_fields (concat cells)) as [H1 [H2 [H3 [H4 H5]]]].
  rewrite H1, H2, H3, H4, H5, !A; cbn [cell_co2 cell_virus cell_temp].
  rewrite (maxList_const _ kc (N cell_co2) (V cell_co2)).
  rewrite (maxList_const _ 0 (N cell_virus) (V cell_virus)).
  f_equal; unfold Rmax; destruct (Rle_dec 0 0); reflexivity.
Qed.

Lemma simulateWith_still (width height : R) (fans : list Fan)
      (outdoorCO2 outdoorTemp : R) :
  width <> 0 -> height <> 0 ->
  simulateWith width height fans [] [] outdoorCO2 outdoorTemp
  = Some (mkResult (stillGrid outdoorCO2)
            (arrowsOf (velocityX width height fans []) (velocityY width height fans []))
            (stillStats outdoorCO2)
            (mkMeta rows cols outdoorCO2 outdoorTemp)).
Proof.
  intros Hw Hh; rewrite (simulateWith_full width height fans [] [] _ _ Hw Hh); cbv zeta.
  rewrite (cellsOf_ext _ _ _ (fun _ _ => stillCO2 outdoorCO2) (fun _ _ => 0)
             (fun _ _ => 21)).
  - rewrite still_tally; reflexivity.
  - intros y x Hy Hx; change STEPS with (S 39).
    apply still_fields; auto.
Qed.

(** X27.  Fans alone change nothing but the arrows.  On an input of moderate
    size without windows and occupants, whatever its fans, every cell
    ends at the CO2 [clamp(outdoorCO2 + 600, outdoorCO2, 5000)], without
    virus and at 21 degrees, and the statistics are these values; the fans
    show in the arrows only. *)
Theorem fans_alone_change_nothing (input : Input) :
  moderate input ->
  orEmpty (in_windows input) = [] -> orEmpty (in_occupants input) = [] ->
  exists arrows,
    simulate input
    = Some (mkResult (stillGrid (outdoorCO2Of input)) arrows
                     (stillStats (outdoorCO2Of input))
                     (mkMeta rows cols (outdoorCO2Of input) (outdoorTempOf input))) /\
    (forall row cell, In row (stillGrid (outdoorCO2Of input)) -> In cell row ->
       cell = mkCell (stillCO2 (outdoorCO2Of input)) 0 21) /\
    (outdoorCO2Of input <= 4400 -> stillCO2 (outdoorCO2Of input) = outdoorCO2Of input + 600).
Proof.
  intros M Ew Eo; destruct (moderate_dims input M) as [Hw Hh].
  rewrite simulate_unfold, Ew, Eo.
  rewrite (simulateWith_still _ _ (orEmpty (in_fans input)) _ _ Hw Hh).
  eexists; split; [reflexivity|split].
  - intros row cell Hr Hc.
    destruct (in_cellsOf _ _ _ row cell Hr Hc) as [y [x [_ [_ ->]]]]; reflexivity.
  - intros Ho; unfold stillCO2; apply clamp_inside; lra.
Qed.

Lemma fans_alone_change_nothing_witness :
  let input := mkInput (JNum 800) (JNum 500)
                 (Some [mkFan (Some 100) (Some 50) (JNum 3)]) None None None in
  exists arrows,
    simulate input
    = Some (mkResult (stillGrid 420) arrows (stillStats 420) (mkMeta rows cols 420 10)) /\
    stillCO2 420 = 1020.
Proof.
  intros input.
  destruct (fans_alone_change_nothing input) as [arrows [E [_ K]]];
    [subst input; moderate_holds|reflexivity|reflexivity|].
  exists arrows; split; [exact E|].
  change (outdoorCO2Of input) with 420 in K; rewrite K; lra.
Defined.

(** ** The optimizer without sources *)

Lemma trial_still (random : nat -> R) (width height : R) (outdoor : Outdoor)
      (i : nat) (b : Best) :
  width <> 0 -> height <> 0 ->
  let oc := ifFinite (out_co2 outdoor) (fun c => c) CO2_LIMITS_outdoor in
  trial random width height [] [] outdoor i b
  = if belowBest (scoreOf (stillStats oc)) (bestScore b)
    then Some (mkBest (trialFan random width height i)
                      (Some (scoreOf (stillStats oc))) (Some (stillStats oc)))
    else Some b.
Proof.
  intros Hw Hh oc; unfold trial; rewrite simulate_unfold.
  change (roomWidth (trialInput width height [] [] outdoor (trialFan random width height i)))
    with width.
  change (roomHeight (trialInput width height [] [] outdoor (trialFan random width height i)))
    with height.
  change (orEmpty (in_windows (trialInput width height [] [] outdoor
                                 (trialFan random width height i)))) with (@nil Window).
  change (orEmpty (in_occupants (trialInput width height [] [] outdoor
                                   (trialFan random width height i)))) with (@nil Occupant).
  rewrite (simulateWith_still width height _ _ _ Hw Hh); reflexivity.
Qed.

Lemma Rltb_irrefl (a : R) : Rltb a a = false.
Proof. unfold Rltb; destruct (Rlt_dec a a); [lra|reflexivity]. Qed.

Lemma trials_still (random : nat -> R) (width height : R) (outdoor : Outdoor)
      (f : Fan) (a n : nat) :
  width <> 0 -> height <> 0 ->
  let st := stillStats (ifFinite (out_co2 outdoor) (fun c => c) CO2_LIMITS_outdoor) in
  forEach (trial random width height [] [] outdoor) (seq a n)
          (mkBest f (Some (scoreOf st)) (Some st))
  = Some (mkBest f (Some (scoreOf st)) (Some st)).
Proof.
  intros Hw Hh st; revert a; induction n as [|n IH]; intros a; [reflexivity|].
  cbn [seq forEach]; rewrite (trial_still random width height outdoor a _ Hw Hh).
  cbn [bestScore belowBest]; fold st; rewrite Rltb_irrefl; apply IH.
Qed.

Lemma optimizer_still (random : nat -> R) (input : Input) :
  roomWidth input <> 0 -> roomHeight input <> 0 ->
  orEmpty (in_windows input) = [] -> orEmpty (in_occupants input) = [] ->
  optimizeFan random input
  = Some (mkOptResult
            (mkFan (Some (random 0%nat * roomWidth input))
                   (Some (random 1%nat * roomHeight input)) (JNum 1.0))
            (Some (toFixed3 (scoreOf (stillStats (outdoorCO2Of input)))))
            (Some (stillStats (outdoorCO2Of input)))).
Proof.
  intros Hw Hh Ew Eo; rewrite optimizeFan_unfold, Ew, Eo.
  unfold searchFan; change (seq 0 TRIES) with (O :: seq 1 79).
  cbn [forEach]; rewrite (trial_still random _ _ (outdoorOf input) O _ Hw Hh).
  cbn [bestScore belowBest].
  rewrite (trials_still random _ _ (outdoorOf input) _ 1 79 Hw Hh).
  reflexivity.
Qed.



(** ** What the page shows *)

Lemma still_default : stillCO2 CO2_LIMITS_outdoor = 1020.
Proof. unfold stillCO2, CO2_LIMITS_outdoor; rewrite clamp_inside; lra. Qed.

Lemma still_score : toFixed3 (scoreOf (stillStats CO2_LIMITS_outdoor)) = 1.095.
Proof.
  unfold stillStats; rewrite still_default.
  assert (M : Rmax 0 1020 = 1020) by (apply Rmax_right; lra).
  assert (A : Rabs (21 - 21) = 0) by (replace (21 - 21) with 0 by lra; apply Rabs_R0).
  unfold scoreOf; cbn [avgCO2 maxCO2 avgVirus maxVirus avgTemp]; rewrite M, A.
  unfold toFixed3.
  match goal with |- (if Rlt_dec ?s 0 then _ else _) = _ =>
    assert (S : s = 1.0948) by lra; rewrite S end.
  destruct (Rlt_dec 1.0948 0); [lra|].
  assert (F : Zfloor (1.0948 * 1000 + 1 / 2) = 1095%Z) by (apply Zfloor_eq; lra).
  rewrite F; lra.
Qed.

(** X29.  What [runSimulation] shows.  The page sends the room and the fans, no
    window, no occupant and no outdoor air; for a room made by
    [createRoomFromInputs] and any fans the simulation returns, every cell of
    its grid is at 1020 ppm, without virus, at 21 degrees, [drawGrid] paints
    every cell in the yellow of [colorForCO2], and the line under the
    canvas, which reads [data.avgCO2] while the average is under [stats], is
    "Run completed.". *)
Theorem page_run_shows (widthValue heightValue : option R) (fans : list PageFan) :
  let room := createRoomFromInputs widthValue heightValue in
  exists res,
    simulate (runSimulation_body room fans) = Some res /\
    (forall row cell, In row (grid res) -> In cell row ->
       cell = mkCell 1020 0 21 /\
       colorForCO2 (cell_co2 cell) = "rgba(245, 210, 80, 0.92)"%string) /\
    getProp (resultJSON res) "avgCO2" = None /\
    recommendation (resultJSON res) = RunCompleted /\
    avgCO2 (stats res) = 1020.
Proof.
  intros room.
  destruct (createRoom_range widthValue heightValue) as [Hw Hh]; fold room in Hw, Hh.
  rewrite simulate_unfold.
  change (roomWidth (runSimulation_body room fans)) with (room_width room).
  change (roomHeight (runSimulation_body room fans)) with (room_height room).
  change (orEmpty (in_windows (runSimulation_body room fans))) with (@nil Window).
  change (orEmpty (in_occupants (runSimulation_body room fans))) with (@nil Occupant).
  change (outdoorCO2Of (runSimulation_body room fans)) with CO2_LIMITS_outdoor.
  rewrite simulateWith_still by lra.
  eexists; split; [reflexivity|].
  cbn [grid stats]; unfold stillStats; cbn [avgCO2]; rewrite still_default.
  split; [|split; [reflexivity|split; reflexivity]].
  intros row cell Hr Hc.
  destruct (in_cellsOf _ _ _ row cell Hr Hc) as [y [x [_ [_ ->]]]].
  rewrite still_default; split; [reflexivity|].
  cbn [cell_co2]; unfold colorForCO2, Rltb.
  destruct (Rlt_dec 1020 800); [lra|].
  destruct (Rlt_dec 1020 1200); [reflexivity|lra].
Qed.

(** X30.  What [optimize] shows.  The page sends the room alone; for a room made
    by [createRoomFromInputs] the optimizer answers with the point of its
    first two random numbers, the score 1.095 and an average CO2 of 1020,
    whatever the room, and the page shows the level "Moderate". *)
Theorem page_optimize_shows (widthValue heightValue : option R) (random : nat -> R) :
  let room := createRoomFromInputs widthValue heightValue in
  exists best,
    optimizeFan random (optimize_body room) = Some best /\
    opt_bestFan best = mkFan (Some (random 0%nat * room_width room))
                             (Some (random 1%nat * room_height room)) (JNum 1.0) /\
    opt_score best = Some 1.095 /\
    optimize_avgCO2 (optResultJSON best) = Some 1020 /\
    optimize_statusLevel (optResultJSON best) = VStr "Moderate".
Proof.
  intros room.
  destruct (createRoom_range widthValue heightValue) as [Hw Hh]; fold room in Hw, Hh.
  rewrite (optimizer_still random (optimize_body room));
    [|change (room_width room <> 0); lra|change (room_height room <> 0); lra
     |reflexivity|reflexivity].
  change (outdoorCO2Of (optimize_body room)) with CO2_LIMITS_outdoor.
  rewrite still_score.
  eexists; split; [reflexivity|split; [reflexivity|split; [reflexivity|]]].
  cbn [opt_stats opt_score opt_bestFan].
  match goal with |- optimize_avgCO2 ?d = _ /\ _ => set (data := d) end.
  assert (E1 : getProp data "status" = None) by reflexivity.
  assert (E2 : truthy (getProp data "stats") = true) by reflexivity.
  assert (E3 : optimize_avgCO2 data = Some (stillCO2 CO2_LIMITS_outdoor)) by reflexivity.
  rewrite still_default in E3.
  split; [exact E3|].
  unfold optimize_statusLevel; rewrite E1, E2, E3; cbn [truthy].
  unfold Rleb.
  destruct (Rle_dec 1020 800); [lra|].
  destruct (Rle_dec 1020 1200); [reflexivity|lra].
Qed.

(** * The functions on small inputs *)

Example sampleScalar_centre :
  sampleScalar [[0; 10]; [20; 30]] 0.5 0.5 = Some 15.
Proof.
  rewrite (sampleScalar_on 2 2 ltac:(lia) ltac:(lia) [[0; 10]; [20; 30]]
             (fun y x => nth x (nth y [[0; 10]; [20; 30]] []) 0) eq_refl).
  - unfold bilinearOn; cbv zeta.
    rewrite (clamp_inside 0.5 0 (INR 2 - 1)) by (cbn [INR]; lra).
    rewrite (Zfloor_eq 0 0.5) by lra.
    cbn [Z.to_nat Nat.min Nat.sub nth INR]; unfold lerp; f_equal; lra.
  - intros row [<-|[<-|[]]]; reflexivity.
  - intros [|[|y]] [|[|x]] Hy Hx; try lia; reflexivity.
Qed.

Example sampleScalar_outside :
  sampleScalar [[0; 10]; [20; 30]] (-3) 7 = Some 20.
Proof.
  rewrite (sampleScalar_on 2 2 ltac:(lia) ltac:(lia) [[0; 10]; [20; 30]]
             (fun y x => nth x (nth y [[0; 10]; [20; 30]] []) 0) eq_refl).
  - unfold bilinearOn; cbv zeta.
    rewrite (clamp_below (-3) 0 (INR 2 - 1)) by (cbn [INR]; lra).
    rewrite (clamp_above 7 0 (INR 2 - 1)) by (cbn [INR]; lra).
    rewrite (Zfloor_eq 0 0), (Zfloor_eq 1 (INR 2 - 1)) by (cbn [INR]; split; lra).
    simpl; unfold lerp; f_equal; lra.
  - intros row [<-|[<-|[]]]; reflexivity.
  - intros [|[|y]] [|[|x]] Hy Hx; try lia; reflexivity.
Qed.

Example sampleScalar_empty : sampleScalar [] 0 0 = None.
Proof. reflexivity. Qed.

Example wallDir_corner_tie : wallDir 800 500 250 250 = (1, 0).
Proof.
  unfold wallDir; cbv zeta; destruct (Req_dec_T _ 250) as [_|N]; [reflexivity|].
  exfalso; apply N; apply min4_first; lra.
Qed.

Example wallDir_top : wallDir 800 500 400 0 = (0, 1).
Proof.
  unfold wallDir; cbv zeta.
  destruct (Req_dec_T _ 400) as [E|_]; [apply min4_first in E; lra|].
  destruct (Req_dec_T _ (800 - 400)) as [E|_]; [apply min4_second in E; lra|].
  destruct (Req_dec_T _ 0) as [_|N]; [reflexivity|].
  exfalso; apply N; apply min4_third; lra.
Qed.

Example wallDir_bottom : wallDir 800 500 400 450 = (0, -1).
Proof.
  unfold wallDir; cbv zeta.
  destruct (Req_dec_T _ 400) as [E|_]; [apply min4_first in E; lra|].
  destruct (Req_dec_T _ (800 - 400)) as [E|_]; [apply min4_second in E; lra|].
  destruct (Req_dec_T _ 450) as [E|_]; [apply min4_third in E; lra|].
  reflexivity.
Qed.

Example openFraction_above : openFraction (JNum 1.5) = 1.
Proof. simpl; apply clamp_above; lra. Qed.

Example openFraction_below : openFraction (JNum (-2)) = 0.
Proof. simpl; apply clamp_below; lra. Qed.

Example clamp_crossed : clamp 1020 6000 5000 = 6000.
Proof.
  unfold clamp, Rmax; destruct (Rle_dec 6000 (Rmin 5000 1020)) as [L|_]; [|reflexivity].
  pose proof (Rmin_l 5000 1020); lra.
Qed.

Example toFixed3_half_up : toFixed3 1.2345 = 1.235.
Proof.
  unfold toFixed3; destruct (Rlt_dec 1.2345 0); [lra|].
  rewrite (Zfloor_eq 1235) by lra; lra.
Qed.

Example toFixed3_down : toFixed3 0.0004 = 0.
Proof.
  unfold toFixed3; destruct (Rlt_dec 0.0004 0); [lra|].
  rewrite (Zfloor_eq 0) by lra; lra.
Qed.

Example strided_rows : strided rows 4 = [0; 4; 8; 12; 16; 20; 24]%nat.
Proof. reflexivity. Qed.

Example strided_cols : strided cols 4 = [0; 4; 8; 12; 16; 20; 24; 28; 32; 36; 40]%nat.
Proof. reflexivity. Qed.

Example index_fraction : index 0.5 = None.
Proof.
  unfold index; destruct (Req_dec_T 0.5 (IZR (Zfloor 0.5))) as [E|_]; [|reflexivity].
  rewrite (Zfloor_eq 0 0.5) in E by lra; lra.
Qed.

Example fdiv_by_zero : pxToGX 0 100 = None.
Proof.
  unfold pxToGX, fdiv; destruct (Req_dec_T 0 0) as [_|N]; [reflexivity|].
  contradiction N; reflexivity.
Qed.
